(** * Diamant: an entity-attribute-value data layer over SQLite

    A shallow embedding of [src/db.js]: the four relations created by
    [DiamantDB.init], the statements the classes [DataTable],
    [TableColumn], [TableRow] and [CellData] run against them, and the
    JavaScript values that travel through [JSON.stringify] and
    [JSON.parse] on the way in and out of the [TEXT] columns. *)

From Stdlib Require Import ZArith List String Ascii Bool Lia Permutation Sorted Eqdep_dec.
Import ListNotations.

Local Open Scope string_scope.
Local Open Scope Z_scope.

(** ** JavaScript values *)

Module Js.

(** *** Numbers *)

(** The Number type is IEEE 754 binary64.  A finite number is
    [m * 2 ^ e], negated when its sign is set, with [m] below [2 ^ 53]
    and [e] from -1074 to 971; [m] has its leading bit set unless [e] is
    the least exponent (a denormalised number, or a zero when [m] is
    0). *)
Definition canonical (m e : Z) : bool :=
  (0 <=? m) && (m <? 2 ^ 53) && (-1074 <=? e) && (e <=? 971)
  && ((e =? -1074) || (2 ^ 52 <=? m)).

Inductive JsNumber : Type :=
| NaN
| PosInfinity
| NegInfinity
| Finite (negative : bool) (m e : Z) (ok : canonical m e = true).

(** The finite number of a sign, a significand and an exponent that fit
    the format. *)
Definition finite (negative : bool) (m e : Z) : JsNumber :=
  match canonical m e as b return canonical m e = b -> JsNumber with
  | true => fun ok => Finite negative m e ok
  | false => fun _ => NaN
  end eq_refl.

Definition infinity (negative : bool) : JsNumber :=
  if negative then NegInfinity else PosInfinity.

(** [n / d] rounded to the nearest integer, a tie going to the even
    one. *)
Definition round_half_even (n d : Z) : Z :=
  let k := n / d in
  let r := n mod d in
  if 2 * r <? d then k
  else if d <? 2 * r then k + 1
  else if Z.even k then k else k + 1.

(** The number nearest to [p / q] (roundTiesToEven), for [p] not
    negative and [q] positive, as a significand and an exponent; [None]
    when the result is beyond the largest finite number.  [p / q] is
    counted in units of [2 ^ -1074]: below [2 ^ 53] units the unit is the
    spacing of the numbers, above it the spacing keeps 53 bits. *)
Definition nearest (p q : Z) : option (Z * Z) :=
  let n := p * 2 ^ 1074 in
  let E := Z.max 0 (Z.log2 (n / q) - 52) in
  let m := round_half_even n (q * 2 ^ E) in
  let (m, E) := if m =? 2 ^ 53 then (2 ^ 52, E + 1) else (m, E) in
  if 2045 <? E then None else Some (m, E - 1074).

(** [s * 10 ^ q] as a fraction. *)
Definition scaled (s q : Z) : Z * Z :=
  if 0 <=? q then (s * 10 ^ q, 1) else (s, 10 ^ (- q)).

(** The Number value of the decimal [s * 10 ^ q], [s] not negative. *)
Definition of_decimal (negative : bool) (s q : Z) : JsNumber :=
  let (p, d) := scaled s q in
  match nearest p d with
  | Some (m, e) => finite negative m e
  | None => infinity negative
  end.

(** The number an integer of the store arrives as. *)
Definition of_Z (z : Z) : JsNumber := of_decimal (z <? 0) (Z.abs z) 0.

(** **** Number::toString *)

(** [m * 2 ^ e] written out in full: a decimal [s * 10 ^ q]. *)
Definition exact_decimal (m e : Z) : Z * Z :=
  if 0 <=? e then (m * 2 ^ e, 0) else (m * 5 ^ (- e), e).

Fixpoint count_digits (fuel : nat) (x : Z) : nat :=
  match fuel with
  | O => 1
  | S fuel' => if x <? 10 then 1 else S (count_digits fuel' (x / 10))
  end.

(** The number of decimal digits of a positive integer. *)
Definition num_digits (x : Z) : nat := count_digits (Z.to_nat (Z.log2 x)) x.

(** Whether the decimal [s * 10 ^ q] denotes the number [m * 2 ^ e]. *)
Definition reads_as (m e s q : Z) : bool :=
  let (p, d) := scaled s q in
  match nearest p d with
  | Some (m', e') => (m' =? m) && (e' =? e)
  | None => false
  end.

Section Shortest.
(** The number [m * 2 ^ e], which in full is the [count] digits of
    [exact] times [10 ^ scale]. *)
Variables (m e exact scale : Z) (count : nat).

(** Integers [s], [n] and [k] with [k] digits in [s] such that
    [s * 10 ^ (n - k)] denotes the number and [k] is as small as
    possible: the digits of the number are dropped from the right as long
    as what is left, rounded down or up, still denotes it.  When both
    do, the one nearer to the number is taken, the even one at a tie. *)
Fixpoint shortest (drop : nat) : Z * Z * nat :=
  match drop with
  | O => (exact, Z.of_nat count + scale, count)
  | S drop' =>
      let k := (count - drop)%nat in
      let unit := 10 ^ Z.of_nat drop in
      let q := scale + Z.of_nat drop in
      let n := Z.of_nat count + scale in
      let lo := exact / unit in
      let r := exact mod unit in
      let hi := if lo + 1 =? 10 ^ Z.of_nat k
                then (10 ^ (Z.of_nat k - 1), q + 1, n + 1)
                else (lo + 1, q, n) in
      let lo_ok := reads_as m e lo q in
      let hi_ok := let '(s, q', _) := hi in reads_as m e s q' in
      let hi_nearer := (unit <? 2 * r) || ((unit =? 2 * r) && Z.odd lo) in
      if lo_ok && negb (hi_ok && hi_nearer) then (lo, n, k)
      else if hi_ok then let '(s, _, n') := hi in (s, n', k)
      else shortest drop'
  end.
End Shortest.

Definition digits_of (m e : Z) : Z * Z * nat :=
  let (exact, scale) := exact_decimal m e in
  let count := num_digits exact in
  shortest m e exact scale count (count - 1).

(** What [digits_of] is to return: [k] digits in [s], and
    [s * 10 ^ (n - k)] denotes [m * 2 ^ e]. *)
Definition denotes (m e : Z) (r : Z * Z * nat) : Prop :=
  let '(s, n, k) := r in
  (1 <= k)%nat
  /\ 10 ^ (Z.of_nat k - 1) <= s < 10 ^ Z.of_nat k
  /\ reads_as m e s (n - Z.of_nat k) = true.

Definition digit_char (d : Z) : ascii := ascii_of_N (48 + Z.to_N d).

(** The last [w] decimal digits of [x]. *)
Fixpoint digits (w : nat) (x : Z) : string :=
  match w with
  | O => ""
  | S w' => String (digit_char ((x / 10 ^ Z.of_nat w') mod 10)) (digits w' x)
  end.

Definition decimal (x : Z) : string := digits (num_digits x) x.

(** The text of [s * 10 ^ (n - k)], [s] having [k] digits: the digits
    followed by zeros, the digits around a decimal point, the digits
    after [0.] and zeros, or the exponential notation. *)
Definition format (s n : Z) (k : nat) : string :=
  let kz := Z.of_nat k in
  if (kz <=? n) && (n <=? 21) then digits k s ++ digits (Z.to_nat (n - kz)) 0
  else if (0 <? n) && (n <=? 21) then
    digits (Z.to_nat n) (s / 10 ^ (kz - n)) ++ "." ++ digits (Z.to_nat (kz - n)) s
  else if (-6 <? n) && (n <=? 0) then
    "0." ++ digits (Z.to_nat (- n)) 0 ++ digits k s
  else
    let exponent := (if n - 1 <? 0 then "-" else "+") ++ decimal (Z.abs (n - 1)) in
    match k with
    | 1%nat => digits 1 s ++ "e" ++ exponent
    | _ => digits 1 (s / 10 ^ (kz - 1)) ++ "." ++ digits (k - 1) s ++ "e" ++ exponent
    end.

(** Number::toString(x), radix 10. *)
Definition NumberToString (x : JsNumber) : string :=
  match x with
  | NaN => "NaN"
  | PosInfinity => "Infinity"
  | NegInfinity => "-Infinity"
  | Finite negative m e _ =>
      if m =? 0 then "0"
      else (if negative then "-" else "")
           ++ (let '(s, n, k) := digits_of m e in format s n k)
  end.

(** **** Reading digits *)

Definition digit_value (c : ascii) : option Z :=
  let n := Z.of_N (N_of_ascii c) in
  if (48 <=? n) && (n <=? 57) then Some (n - 48) else None.

(** The digits at the head of [s]: their value after [acc], how many
    were read after [count], and what follows them. *)
Fixpoint read_digits (acc : Z) (count : nat) (s : string) : Z * nat * string :=
  match s with
  | EmptyString => (acc, count, s)
  | String c rest =>
      match digit_value c with
      | Some d => read_digits (acc * 10 + d) (S count) rest
      | None => (acc, count, s)
      end
  end.

(** A text at whose head no digit stands. *)
Definition stops (s : string) : Prop :=
  match s with
  | EmptyString => True
  | String c _ => digit_value c = None
  end.

(** *** Values *)

Unset Elimination Schemes.

(** An array holds its elements; an object is given by the properties
    that were defined on it, in the order of their definition. *)
Inductive JsValue : Type :=
| JUndefined
| JNull
| JBool (b : bool)
| JNumber (n : JsNumber)
| JString (s : string)
| JArray (elems : list JsValue)
| JObject (props : list (string * JsValue)).

Set Elimination Schemes.

(** The own properties of an object, as OrdinaryOwnPropertyKeys lists
    them. *)
Definition JsObject : Type := list (string * JsValue).

(** Structural induction that reaches inside arrays and objects. *)
Section ValueInduction.
Variable P : JsValue -> Prop.
Hypothesis Hundef : P JUndefined.
Hypothesis Hnull : P JNull.
Hypothesis Hbool : forall b, P (JBool b).
Hypothesis Hnum : forall n, P (JNumber n).
Hypothesis Hstr : forall s, P (JString s).
Hypothesis Harr : forall l, Forall P l -> P (JArray l).
Hypothesis Hobj : forall ps, Forall (fun kv => P (snd kv)) ps -> P (JObject ps).

Fixpoint JsValue_ind (v : JsValue) : P v :=
  match v with
  | JUndefined => Hundef
  | JNull => Hnull
  | JBool b => Hbool b
  | JNumber n => Hnum n
  | JString s => Hstr s
  | JArray l =>
      Harr l (list_ind (Forall P) (Forall_nil P)
                (fun e _ IH => Forall_cons e (JsValue_ind e) IH) l)
  | JObject ps =>
      Hobj ps (list_ind (Forall (fun kv => P (snd kv))) (Forall_nil _)
                 (fun kv _ IH => Forall_cons kv (JsValue_ind (snd kv)) IH) ps)
  end.
End ValueInduction.

Definition is_undefined (v : JsValue) : bool :=
  match v with JUndefined => true | _ => false end.

(** *** Own properties *)

(** A property key that is an array index: the decimal text, without a
    leading zero, of an integer below [2 ^ 32 - 1]. *)
Definition array_index (k : string) : option Z :=
  match k with
  | EmptyString => None
  | String c rest =>
      if Ascii.eqb c "0" && negb (String.eqb rest "") then None
      else
        match read_digits 0 0 k with
        | (i, _, EmptyString) => if i <? 2 ^ 32 - 1 then Some i else None
        | _ => None
        end
  end.

Definition is_index (k : string) : bool :=
  match array_index k with Some _ => true | None => false end.

(** Whether a new property [k] is listed before the property [k'] that
    the object has: array indices come first, in ascending order, and
    the other keys follow in the order of their creation. *)
Definition precedes (k k' : string) : bool :=
  match array_index k, array_index k' with
  | Some i, Some j => i <? j
  | Some _, None => true
  | None, _ => false
  end.

(** [o[k]] restricted to own properties. *)
Fixpoint obj_get (o : JsObject) (k : string) : option JsValue :=
  match o with
  | [] => None
  | (k', v) :: o' => if String.eqb k' k then Some v else obj_get o' k
  end.

(** CreateDataProperty: overwrite the own property where it is, or add
    it at its place in the order of the keys. *)
Fixpoint obj_define {A : Type} (o : list (string * A)) (k : string) (v : A)
    : list (string * A) :=
  match o with
  | [] => [(k, v)]
  | (k', v') :: o' =>
      if String.eqb k' k then (k', v) :: o'
      else if precedes k k' then (k, v) :: o
      else (k', v') :: obj_define o' k v
  end.

(** The own properties after the given definitions, one after the
    other, on an empty object. *)
Definition own_properties {A : Type} (entries : list (string * A)) : list (string * A) :=
  fold_left (fun o kv => obj_define o (fst kv) (snd kv)) entries [].

(** Whether [k] may be listed before [k']. *)
Definition listed_before (k k' : string) : bool :=
  negb (String.eqb k k') && negb (precedes k' k).

(** Keys in the order in which an object lists them, none twice. *)
Fixpoint listed (ks : list string) : bool :=
  match ks with
  | [] => true
  | k :: ks' => forallb (listed_before k) ks' && listed ks'
  end.

(** The [[Prototype]] slot of an object under construction: the one an
    object literal starts with, [null], or a value that was assigned to
    [__proto__]. *)
Inductive Prototype : Type :=
| ObjectPrototype
| NullPrototype
| ValuePrototype (v : JsValue).

Record Ordinary : Type := mk_Ordinary { own : JsObject; prototype : Prototype }.

(** An object literal with the given properties. *)
Definition literal (props : JsObject) : Ordinary := mk_Ordinary props ObjectPrototype.

(** Whether a lookup of [__proto__] along the prototype chain ends at the
    accessor of [Object.prototype]: an object on the way that owns a
    property of that name hides it, and a [null] prototype cuts the chain.
    Arrays and objects made by [JSON.parse] inherit from
    [Object.prototype]. *)
Definition reaches_proto_accessor (p : Prototype) : bool :=
  match p with
  | ObjectPrototype => true
  | NullPrototype => false
  | ValuePrototype (JObject ps) =>
      match obj_get ps "__proto__" with
      | Some _ => false
      | None => true
      end
  | ValuePrototype _ => true
  end.

(** [o[k] = v].  Every inherited property but the [__proto__] accessor is
    a writable data property, so the assignment defines an own property;
    the accessor's setter replaces the prototype when [v] is [null] or an
    object and does nothing otherwise. *)
Definition obj_assign (o : Ordinary) (k : string) (v : JsValue) : Ordinary :=
  if String.eqb k "__proto__" && reaches_proto_accessor (prototype o) then
    match v with
    | JNull => mk_Ordinary (own o) NullPrototype
    | JArray _ | JObject _ => mk_Ordinary (own o) (ValuePrototype v)
    | _ => o
    end
  else mk_Ordinary (obj_define (own o) k v) (prototype o).

(** The assignments [o[k] = v], one after the other. *)
Definition obj_assign_all (o : Ordinary) (kvs : JsObject) : Ordinary :=
  fold_left (fun o kv => obj_assign o (fst kv) (snd kv)) kvs o.

(** A value that, once it is the prototype of an object, keeps a lookup
    of [__proto__] on that object from the accessor: [null], or an object
    that owns a property of that name. *)
Definition hides_proto_accessor (v : JsValue) : bool :=
  match v with
  | JNull => true
  | JObject ps =>
      match obj_get ps "__proto__" with
      | Some _ => true
      | None => false
      end
  | _ => false
  end.

Definition obj_keys (o : JsObject) : list string := map fst o.

End Js.
Export Js.

(** ** [JSON.stringify] and [JSON.parse] *)

Module JSON.

Definition dquote : ascii := "034"%char.
Definition backslash : ascii := "092"%char.

(** *** Serialisation *)

Definition hex_digit (n : N) : ascii :=
  ascii_of_N (if (n <? 10)%N then 48 + n else 87 + n).

(** QuoteJSONString, one code unit at a time: the quote, the backslash
    and the control characters are escaped, the rest is copied. *)
Definition escape_char (c : ascii) : string :=
  if Ascii.eqb c dquote then String backslash (String dquote "")
  else if Ascii.eqb c backslash then String backslash (String backslash "")
  else if Ascii.eqb c "008"%char then String backslash "b"
  else if Ascii.eqb c "009"%char then String backslash "t"
  else if Ascii.eqb c "010"%char then String backslash "n"
  else if Ascii.eqb c "012"%char then String backslash "f"
  else if Ascii.eqb c "013"%char then String backslash "r"
  else if (N_of_ascii c <? 32)%N then
    String backslash
      (String "u" (String "0" (String "0"
         (String (hex_digit (N_of_ascii c / 16))
            (String (hex_digit (N_of_ascii c mod 16)) "")))))
  else String c "".

Fixpoint escape (s : string) : string :=
  match s with
  | EmptyString => ""
  | String c s' => escape_char c ++ escape s'
  end.

Definition QuoteJSONString (s : string) : string :=
  String dquote (escape s ++ String dquote "").

(** The text of an integer that reached JavaScript as a number. *)
Definition Number_toString (z : Z) : string := NumberToString (of_Z z).

Fixpoint join (sep : string) (l : list string) : string :=
  match l with
  | [] => ""
  | [x] => x
  | x :: l' => x ++ sep ++ join sep l'
  end.

(** A number in a text: a number that is not finite is written
    [null]. *)
Definition number_text (n : JsNumber) : string :=
  match n with
  | Finite _ _ _ _ => NumberToString n
  | _ => "null"
  end.

(** One property in the text of an object: nothing when it holds
    [undefined]. *)
Definition entry (kt : string * option string) : list string :=
  match snd kt with
  | Some t => [QuoteJSONString (fst kt) ++ ":" ++ t]
  | None => []
  end.

(** SerializeJSONProperty for a value that is not [undefined].  Inside an
    array [undefined] is written [null]; the properties of an object are
    written in the order in which the object lists them, those that hold
    [undefined] left out. *)
Fixpoint SerializeJSON (v : JsValue) : string :=
  match v with
  | JUndefined => "null"
  | JNull => "null"
  | JBool true => "true"
  | JBool false => "false"
  | JNumber n => number_text n
  | JString s => QuoteJSONString s
  | JArray l => "[" ++ join "," (map SerializeJSON l) ++ "]"
  | JObject ps =>
      "{" ++ join ","
               (flat_map entry
                  (own_properties
                     (map (fun kv => (fst kv,
                                      if is_undefined (snd kv) then None
                                      else Some (SerializeJSON (snd kv))))
                          ps)))
          ++ "}"
  end.

(** [JSON.stringify(v)]: [None] stands for the result [undefined]. *)
Definition stringify (v : JsValue) : option string :=
  match v with
  | JUndefined => None
  | _ => Some (SerializeJSON v)
  end.

(** *** Parsing *)

Definition hex_value (c : ascii) : option N :=
  let n := N_of_ascii c in
  if ((48 <=? n) && (n <=? 57))%N then Some (n - 48)%N
  else if ((97 <=? n) && (n <=? 102))%N then Some (n - 87)%N
  else if ((65 <=? n) && (n <=? 70))%N then Some (n - 55)%N
  else None.

Definition hex4 (a b c d : ascii) : option N :=
  match hex_value a, hex_value b, hex_value c, hex_value d with
  | Some x, Some y, Some z, Some w => Some (((x * 16 + y) * 16 + z) * 16 + w)%N
  | _, _, _, _ => None
  end.

Definition push (c : ascii) (r : option (string * string)) : option (string * string) :=
  match r with
  | Some (t, rest) => Some (String c t, rest)
  | None => None
  end.

(** The characters of a string literal after its opening quote, up to and
    including the closing quote.  A code unit above 255 has no
    counterpart in [ascii] and is refused. *)
Fixpoint parse_chars (s : string) : option (string * string) :=
  match s with
  | EmptyString => None
  | String c rest =>
      if Ascii.eqb c dquote then Some ("", rest)
      else if Ascii.eqb c backslash then
        match rest with
        | String e rest1 =>
            if Ascii.eqb e dquote then push dquote (parse_chars rest1)
            else if Ascii.eqb e backslash then push backslash (parse_chars rest1)
            else if Ascii.eqb e "/" then push "/" (parse_chars rest1)
            else if Ascii.eqb e "b" then push "008" (parse_chars rest1)
            else if Ascii.eqb e "t" then push "009" (parse_chars rest1)
            else if Ascii.eqb e "n" then push "010" (parse_chars rest1)
            else if Ascii.eqb e "f" then push "012" (parse_chars rest1)
            else if Ascii.eqb e "r" then push "013" (parse_chars rest1)
            else if Ascii.eqb e "u" then
              match rest1 with
              | String h1 (String h2 (String h3 (String h4 rest2))) =>
                  match hex4 h1 h2 h3 h4 with
                  | Some n =>
                      if (n <? 256)%N then push (ascii_of_N n) (parse_chars rest2)
                      else None
                  | None => None
                  end
              | _ => None
              end
            else None
        | EmptyString => None
        end
      else if (N_of_ascii c <? 32)%N then None
      else push c (parse_chars rest)
  end.

(** The digits of a part of a number literal, one at least. *)
Definition some_digits (s : string) : option (Z * nat * string) :=
  match read_digits 0 0 s with
  | (_, O, _) => None
  | r => Some r
  end.

(** The integer part: [0], or digits that do not start with a zero. *)
Definition parse_int (s : string) : option (Z * string) :=
  match some_digits s with
  | Some (i, count, rest) =>
      match s with
      | String "0" _ => if (1 <? count)%nat then None else Some (i, rest)
      | _ => Some (i, rest)
      end
  | None => None
  end.

(** The fraction, if there is one: its digits and how many they are. *)
Definition parse_frac (s : string) : option (Z * nat * string) :=
  match s with
  | String "." rest => some_digits rest
  | _ => Some (0, O, s)
  end.

(** The exponent, if there is one. *)
Definition parse_exp (s : string) : option (Z * string) :=
  match s with
  | String ("e" | "E") rest =>
      let (negative, rest1) :=
        match rest with
        | String "-" r => (true, r)
        | String "+" r => (false, r)
        | _ => (false, rest)
        end in
      match some_digits rest1 with
      | Some (x, _, rest2) => Some (if negative then - x else x, rest2)
      | None => None
      end
  | _ => Some (0, s)
  end.

(** A number literal without its sign: the integer part, an optional
    fraction and an optional exponent; its value is the number nearest
    to the decimal it spells. *)
Definition parse_unsigned (negative : bool) (s : string) : option (JsValue * string) :=
  match parse_int s with
  | Some (i, rest) =>
      match parse_frac rest with
      | Some (f, count, rest1) =>
          match parse_exp rest1 with
          | Some (x, rest2) =>
              Some (JNumber (of_decimal negative (i * 10 ^ Z.of_nat count + f)
                                        (x - Z.of_nat count)),
                    rest2)
          | None => None
          end
      | None => None
      end
  | None => None
  end.

(** A number literal, with an optional minus sign. *)
Definition parse_number (s : string) : option (JsValue * string) :=
  match s with
  | String "-" r => parse_unsigned true r
  | _ => parse_unsigned false s
  end.

Fixpoint strip_prefix (p s : string) : option string :=
  match p, s with
  | EmptyString, _ => Some s
  | String a p', String b s' => if Ascii.eqb a b then strip_prefix p' s' else None
  | String _ _, EmptyString => None
  end.

Definition keyword (p : string) (v : JsValue) (s : string) : option (JsValue * string) :=
  match strip_prefix p s with
  | Some rest => Some (v, rest)
  | None => None
  end.

(** [closes c s]: the rest of [s] after its first character when that
    character is [c]. *)
Definition closes (c : ascii) (s : string) : option string :=
  match s with
  | String c' rest => if Ascii.eqb c' c then Some rest else None
  | EmptyString => None
  end.

Section Composite.
Variable parse_value : string -> option (JsValue * string).

(** The elements of a non-empty array, up to and including the closing
    bracket. *)
Fixpoint parse_elements (n : nat) (s : string) : option (list JsValue * string) :=
  match n with
  | O => None
  | S n' =>
      match parse_value s with
      | Some (v, String c rest) =>
          if Ascii.eqb c "," then
            match parse_elements n' rest with
            | Some (l, rest') => Some (v :: l, rest')
            | None => None
            end
          else if Ascii.eqb c "]" then Some ([v], rest)
          else None
      | _ => None
      end
  end.

(** The members of a non-empty object, up to and including the closing
    brace; a repeated key overwrites the earlier member where it is. *)
Fixpoint parse_members (n : nat) (s : string) (acc : JsObject) : option (JsObject * string) :=
  match n with
  | O => None
  | S n' =>
      match s with
      | String q s1 =>
          if Ascii.eqb q dquote then
            match parse_chars s1 with
            | Some (k, String colon s2) =>
                if Ascii.eqb colon ":" then
                  match parse_value s2 with
                  | Some (v, String c rest) =>
                      if Ascii.eqb c "," then parse_members n' rest (obj_define acc k v)
                      else if Ascii.eqb c "}" then Some (obj_define acc k v, rest)
                      else None
                  | _ => None
                  end
                else None
            | _ => None
            end
          else None
      | EmptyString => None
      end
  end.
End Composite.

Fixpoint parse_value (fuel : nat) (s : string) : option (JsValue * string) :=
  match fuel with
  | O => None
  | S fuel' =>
      match s with
      | EmptyString => None
      | String c rest =>
          if Ascii.eqb c "n" then keyword "ull" JNull rest
          else if Ascii.eqb c "t" then keyword "rue" (JBool true) rest
          else if Ascii.eqb c "f" then keyword "alse" (JBool false) rest
          else if Ascii.eqb c dquote then
            match parse_chars rest with
            | Some (t, rest') => Some (JString t, rest')
            | None => None
            end
          else if Ascii.eqb c "[" then
            match closes "]" rest with
            | Some rest' => Some (JArray [], rest')
            | None =>
                match parse_elements (parse_value fuel') fuel' rest with
                | Some (l, rest') => Some (JArray l, rest')
                | None => None
                end
            end
          else if Ascii.eqb c "{" then
            match closes "}" rest with
            | Some rest' => Some (JObject [], rest')
            | None =>
                match parse_members (parse_value fuel') fuel' rest [] with
                | Some (o, rest') => Some (JObject o, rest')
                | None => None
                end
            end
          else parse_number s
      end
  end.

(** [JSON.parse(s)] on a text without insignificant white space: [None]
    stands for a thrown [SyntaxError]. *)
Definition parse (s : string) : option JsValue :=
  match parse_value (S (String.length s)) s with
  | Some (v, EmptyString) => Some v
  | _ => None
  end.

(** *** What a value reads back as *)

(** The number [JSON.parse] rebuilds from the text of a number: a number
    that is not finite comes back as [null], the negative zero as
    zero. *)
Definition revive_number (n : JsNumber) : JsValue :=
  match n with
  | Finite _ m _ _ => if m =? 0 then JNumber (of_Z 0) else JNumber n
  | _ => JNull
  end.

(** A property as it reads back, if it is written at all. *)
Definition present (kv : string * option JsValue) : JsObject :=
  match snd kv with
  | Some v => [(fst kv, v)]
  | None => []
  end.

(** The value [JSON.parse] rebuilds from the text of a value. *)
Fixpoint revive (v : JsValue) : JsValue :=
  match v with
  | JUndefined => JNull
  | JNumber n => revive_number n
  | JArray l => JArray (map revive l)
  | JObject ps =>
      JObject (flat_map present
                 (own_properties
                    (map (fun kv => (fst kv,
                                     if is_undefined (snd kv) then None
                                     else Some (revive (snd kv))))
                         ps)))
  | _ => v
  end.

(** Finite numbers other than the negative zero. *)
Definition plain_number (n : JsNumber) : bool :=
  match n with
  | Finite negative m _ _ => negb (negative && (m =? 0))
  | _ => false
  end.

(** Values made of null, booleans, finite numbers, strings, arrays and
    objects whose properties are given in the order in which the object
    lists them. *)
Fixpoint plain (v : JsValue) : bool :=
  match v with
  | JUndefined => false
  | JNumber n => plain_number n
  | JArray l => forallb plain l
  | JObject ps => listed (map fst ps) && forallb (fun kv => plain (snd kv)) ps
  | _ => true
  end.

(** The fuel that reads the text of a value back: one unit per printed
    node. *)
Fixpoint json_size (v : JsValue) : nat :=
  match v with
  | JArray l => S (list_sum (map json_size l))
  | JObject ps =>
      S (list_sum (map snd
                     (own_properties
                        (map (fun kv => (fst kv,
                                         if is_undefined (snd kv) then O
                                         else json_size (snd kv)))
                             ps))))
  | _ => 1%nat
  end.

(** The text of one member of an object, if it is written at all. *)
Definition member (kv : string * JsValue) : list string :=
  if is_undefined (snd kv) then []
  else [QuoteJSONString (fst kv) ++ ":" ++ SerializeJSON (snd kv)].

(** The member as [JSON.parse] adds it to the object it builds. *)
Definition keep (o : JsObject) (kv : string * JsValue) : JsObject :=
  if is_undefined (snd kv) then o
  else obj_define o (fst kv) (revive (snd kv)).

Definition member_size (kv : string * JsValue) : nat :=
  if is_undefined (snd kv) then O else json_size (snd kv).

(** What may follow a value inside a text: nothing, a comma or a closing
    bracket. *)
Definition delimited (s : string) : bool :=
  match s with
  | EmptyString => true
  | String c _ => Ascii.eqb c "," || Ascii.eqb c "]" || Ascii.eqb c "}"
  end.

End JSON.

(** ** The backing store *)

Module Sql.

(** What a call can throw: a constraint failure reported by SQLite, a
    [SyntaxError] of [JSON.parse], a [TypeError] of the runtime. *)
Inductive JsError : Type :=
| SqliteError (message : string)
| SyntaxError
| TypeError.

Inductive Outcome (A : Type) : Type :=
| Return (a : A)
| Throw (e : JsError).
Arguments Return {A} a.
Arguments Throw {A} e.

Definition bind {A B : Type} (m : Outcome A) (k : A -> Outcome B) : Outcome B :=
  match m with
  | Return a => k a
  | Throw e => Throw e
  end.

Notation "x <- m ;; k" := (bind m (fun x => k))
  (at level 61, m at next level, right associativity).

(** [for (const x of l) acc = body(acc, x)], stopping at the first throw. *)
Fixpoint for_of {A S : Type} (l : list A) (body : S -> A -> Outcome S) (acc : S) : Outcome S :=
  match l with
  | [] => Return acc
  | x :: l' => acc' <- body acc x ;; for_of l' body acc'
  end.

(** The four relations of [DiamantDB.init].  Every [id] is an
    [INTEGER PRIMARY KEY AUTOINCREMENT]; the [TEXT] columns [options] and
    [value] may hold [NULL]; a time stamp is the clock reading in
    milliseconds that [toISOString] prints. *)
Record tables_rec : Type := mk_tables
  { tables_id : Z; tables_name : string; tables_created_at : Z }.

Record columns_rec : Type := mk_columns
  { columns_id : Z; columns_table_id : Z; columns_name : string;
    columns_type : string; columns_options : option string;
    columns_created_at : Z }.

Record rows_rec : Type := mk_rows
  { rows_id : Z; rows_table_id : Z; rows_position : Z; rows_created_at : Z }.

Record cells_rec : Type := mk_cells
  { cells_id : Z; cells_row_id : Z; cells_column_id : Z;
    cells_value : option string; cells_updated_at : Z }.

(** The content of the database file: each relation in the order of
    insertion, with the largest id it ever handed out
    ([sqlite_sequence]). *)
Record Database : Type := mk_Database
  { tables : list tables_rec; tables_seq : Z;
    columns : list columns_rec; columns_seq : Z;
    rows : list rows_rec; rows_seq : Z;
    cells : list cells_rec; cells_seq : Z }.

(** The order in which the engine hands out the rows of a [SELECT]: the
    language leaves it open unless the statement has an [ORDER BY]. *)
Class Engine : Type :=
  { scan : forall A : Type, list A -> list A;
    scan_Permutation : forall (A : Type) (l : list A), Permutation (scan A l) l }.
Arguments scan {Engine A} l.

(** SQLite walks a relation, or the index on its foreign key, by
    ascending rowid. *)
#[export] Instance rowid_order : Engine :=
  {| scan := fun A l => l; scan_Permutation := fun A l => Permutation_refl l |}.

(** The same walk under [PRAGMA reverse_unordered_selects]. *)
Definition reverse_order : Engine :=
  {| scan := fun A l => rev l;
     scan_Permutation := fun A l => Permutation_sym (Permutation_rev l) |}.

Fixpoint insert_by_position (r : rows_rec) (l : list rows_rec) : list rows_rec :=
  match l with
  | [] => [r]
  | r' :: l' =>
      if rows_position r <=? rows_position r' then r :: l
      else r' :: insert_by_position r l'
  end.

(** [ORDER BY position]. *)
Definition order_by_position (l : list rows_rec) : list rows_rec :=
  fold_right insert_by_position [] l.

Definition by_position (a b : rows_rec) : Prop := rows_position a <= rows_position b.

Section Statements.
Context {E : Engine}.

(** [stmt.all()] of [SELECT * FROM rel WHERE p]. *)
Definition stmt_all {A : Type} (p : A -> bool) (rel : list A) : list A :=
  scan (filter p rel).

(** [stmt.get()]: the first row of the result, if any. *)
Definition stmt_get {A : Type} (p : A -> bool) (rel : list A) : option A :=
  hd_error (stmt_all p rel).

End Statements.

Definition FOREIGN_KEY_failed : JsError := SqliteError "FOREIGN KEY constraint failed".

Definition has_table (db : Database) (id : Z) : bool :=
  existsb (fun t => tables_id t =? id) (tables db).
Definition has_column (db : Database) (id : Z) : bool :=
  existsb (fun c => columns_id c =? id) (columns db).
Definition has_row (db : Database) (id : Z) : bool :=
  existsb (fun r => rows_id r =? id) (rows db).

(** [INSERT INTO tables (name, created_at)]; the second component is
    [lastInsertRowid]. *)
Definition insert_tables (db : Database) (name : string) (created_at : Z) : Database * Z :=
  let id := tables_seq db + 1 in
  (mk_Database (tables db ++ [mk_tables id name created_at]) id
               (columns db) (columns_seq db) (rows db) (rows_seq db)
               (cells db) (cells_seq db), id).

(** [INSERT INTO columns (table_id, name, type, options, created_at)],
    refused when [table_id] references no table. *)
Definition insert_columns (db : Database) (table_id : Z) (name type : string)
    (options : option string) (created_at : Z) : Outcome (Database * Z) :=
  if has_table db table_id then
    let id := columns_seq db + 1 in
    Return (mk_Database (tables db) (tables_seq db)
              (columns db ++ [mk_columns id table_id name type options created_at]) id
              (rows db) (rows_seq db) (cells db) (cells_seq db), id)
  else Throw FOREIGN_KEY_failed.

(** [INSERT INTO rows (table_id, position, created_at)]. *)
Definition insert_rows (db : Database) (table_id position created_at : Z)
    : Outcome (Database * Z) :=
  if has_table db table_id then
    let id := rows_seq db + 1 in
    Return (mk_Database (tables db) (tables_seq db) (columns db) (columns_seq db)
              (rows db ++ [mk_rows id table_id position created_at]) id
              (cells db) (cells_seq db), id)
  else Throw FOREIGN_KEY_failed.

Definition same_cell (row_id column_id : Z) (x : cells_rec) : bool :=
  (cells_row_id x =? row_id) && (cells_column_id x =? column_id).

(** [DO UPDATE SET value = excluded.value, updated_at = excluded.updated_at]
    on the rows in conflict. *)
Definition update_cells (row_id column_id : Z) (value : option string) (updated_at : Z)
    (l : list cells_rec) : list cells_rec :=
  map (fun x =>
         if same_cell row_id column_id x
         then mk_cells (cells_id x) (cells_row_id x) (cells_column_id x) value updated_at
         else x) l.

(** [INSERT INTO cells ... ON CONFLICT(row_id, column_id) DO UPDATE ...].
    The rowid of the candidate row is drawn before the conflict is
    detected, so the sequence advances on both paths; a new row is
    refused when [row_id] or [column_id] references nothing. *)
Definition upsert_cells (db : Database) (row_id column_id : Z) (value : option string)
    (updated_at : Z) : Outcome Database :=
  let id := cells_seq db + 1 in
  if existsb (same_cell row_id column_id) (cells db) then
    Return (mk_Database (tables db) (tables_seq db) (columns db) (columns_seq db)
              (rows db) (rows_seq db)
              (update_cells row_id column_id value updated_at (cells db)) id)
  else if has_row db row_id && has_column db column_id then
    Return (mk_Database (tables db) (tables_seq db) (columns db) (columns_seq db)
              (rows db) (rows_seq db)
              (cells db ++ [mk_cells id row_id column_id value updated_at]) id)
  else Throw FOREIGN_KEY_failed.

(** [DELETE FROM tables WHERE id = ?].  The connection enforces foreign
    keys (the driver's SQLite is built with them on), so the columns and
    rows that reference the table go with it ([ON DELETE CASCADE]), and
    with them the cells that reference those rows or columns. *)
Definition delete_tables (db : Database) (id : Z) : Database :=
  let gone_columns := filter (fun c => columns_table_id c =? id) (columns db) in
  let gone_rows := filter (fun r => rows_table_id r =? id) (rows db) in
  let orphan (x : cells_rec) :=
    existsb (fun r => rows_id r =? cells_row_id x) gone_rows
    || existsb (fun c => columns_id c =? cells_column_id x) gone_columns in
  if has_table db id then
    mk_Database (filter (fun t => negb (tables_id t =? id)) (tables db)) (tables_seq db)
                (filter (fun c => negb (columns_table_id c =? id)) (columns db))
                (columns_seq db)
                (filter (fun r => negb (rows_table_id r =? id)) (rows db)) (rows_seq db)
                (filter (fun x => negb (orphan x)) (cells db)) (cells_seq db)
  else db.

End Sql.
Export Sql.

(** ** The classes of [db.js] *)

(** [text ? JSON.parse(text) : fallback] on a [TEXT] column: [NULL] and the
    empty string are falsy. *)
Definition parse_or (fallback : JsValue) (text : option string) : Outcome JsValue :=
  match text with
  | Some (String _ _ as s) =>
      match JSON.parse s with
      | Some v => Return v
      | None => Throw SyntaxError
      end
  | _ => Return fallback
  end.

Fixpoint map_outcome {A B : Type} (f : A -> Outcome B) (l : list A) : Outcome (list B) :=
  match l with
  | [] => Return []
  | x :: l' => y <- f x ;; ys <- map_outcome f l' ;; Return (y :: ys)
  end.

(** An integer column of the store as the driver hands it to JavaScript. *)
Definition number (z : Z) : JsValue := JNumber (of_Z z).

(** ** Text for the console *)

Module Console.

(** A string as the sequence of its UTF-16 code units, so that the
    characters that frame the grid can stand beside those of [string]; a
    character of [string] is the code unit of the same number. *)
Definition text : Type := list Z.

Definition units (s : string) : text :=
  map (fun c => Z.of_N (N_of_ascii c)) (list_ascii_of_string s).

(** [t.repeat(n)]. *)
Definition repeat_text (t : text) (n : nat) : text := List.concat (repeat t n).

(** [parts.join(sep)]. *)
Fixpoint join (sep : text) (parts : list text) : text :=
  match parts with
  | [] => []
  | [p] => p
  | p :: ps => p ++ sep ++ join sep ps
  end%list.

Definition is_nullish (v : JsValue) : bool :=
  match v with JUndefined | JNull => true | _ => false end.

(** [String(v)]. *)
Fixpoint ToString (v : JsValue) : string :=
  match v with
  | JUndefined => "undefined"
  | JNull => "null"
  | JBool true => "true"
  | JBool false => "false"
  | JNumber n => NumberToString n
  | JString s => s
  | JArray l => JSON.join "," (map (fun e => if is_nullish e then "" else ToString e) l)
  | JObject _ => "[object Object]"
  end.

(** [l.map((x, i) => f(x, i))], counting from [i]. *)
Fixpoint map_index {A B : Type} (f : A -> nat -> B) (l : list A) (i : nat) : list B :=
  match l with
  | [] => []
  | x :: l' => f x i :: map_index f l' (S i)
  end.

(** [Math.max(...l, 0)]. *)
Definition max_of (l : list nat) : nat := fold_right Nat.max 0%nat l.

Definition space : Z := 32.
Definition newline : string := String "010" "".

(** The length of [parts.join(sep)] from the lengths of its parts. *)
Fixpoint joined_length (sep : nat) (parts : list nat) : nat :=
  match parts with
  | [] => 0
  | [p] => p
  | p :: ps => p + sep + joined_length sep ps
  end%nat.

End Console.

Module CellData.

Record t : Type := mk
  { id : Z; rowId : Z; columnId : Z; value : JsValue; updatedAt : Z }.

(** [new CellData(db, data.id, data.row_id, data.column_id,
    data.value ? JSON.parse(data.value) : null)], then
    [cell.updatedAt = data.updated_at]. *)
Definition of_data (data : cells_rec) : Outcome t :=
  v <- parse_or JNull (cells_value data) ;;
  Return (mk (cells_id data) (cells_row_id data) (cells_column_id data) v
             (cells_updated_at data)).

Section Methods.
Context {E : Engine}.

Definition get (db : Database) (rowId columnId : Z) : Outcome (option t) :=
  match stmt_get (same_cell rowId columnId) (cells db) with
  | None => Return None
  | Some data => cell <- of_data data ;; Return (Some cell)
  end.

Definition getByRow (db : Database) (rowId : Z) : Outcome (list t) :=
  map_outcome of_data (stmt_all (fun x => cells_row_id x =? rowId) (cells db)).

(** [value !== null && value !== undefined ? JSON.stringify(value) : null];
    a text that is [undefined] cannot be bound to the statement. *)
Definition valueStr (value : JsValue) : Outcome (option string) :=
  match value with
  | JNull | JUndefined => Return None
  | _ =>
      match JSON.stringify value with
      | Some s => Return (Some s)
      | None => Throw TypeError
      end
  end.

Definition set (db : Database) (rowId columnId : Z) (value : JsValue) (now : Z)
    : Outcome t * Database :=
  let updatedAt := now in
  match valueStr value with
  | Throw e => (Throw e, db)
  | Return text =>
      match upsert_cells db rowId columnId text updatedAt with
      | Throw e => (Throw e, db)
      | Return db' =>
          (match stmt_get (same_cell rowId columnId) (cells db') with
           | None => Throw TypeError
           | Some data => of_data data
           end, db')
      end
  end.

End Methods.
End CellData.

Module TableColumn.

Record t : Type := mk
  { id : Z; tableId : Z; name : string; type : string; options : JsValue;
    createdAt : Z }.

(** [new TableColumn(db, c.id, c.table_id, c.name, c.type,
    c.options ? JSON.parse(c.options) : {})]. *)
Definition of_data (c : columns_rec) : Outcome t :=
  o <- parse_or (JObject []) (columns_options c) ;;
  Return (mk (columns_id c) (columns_table_id c) (columns_name c) (columns_type c) o
             (columns_created_at c)).

(** A default parameter takes over when the argument is [undefined]. *)
Definition default_type (type : option string) : string :=
  match type with Some s => s | None => "text" end.
Definition default_options (options : JsValue) : JsValue :=
  match options with JUndefined => JObject [] | _ => options end.

(** [col.name === k]. *)
Definition named (k : string) (col : t) : bool := String.eqb (name col) k.

Definition create (db : Database) (tableId : Z) (name : string) (type : option string)
    (options : JsValue) (now : Z) : Outcome t * Database :=
  let type := default_type type in
  let options := default_options options in
  let createdAt := now in
  match JSON.stringify options with
  | None => (Throw TypeError, db)
  | Some optionsJson =>
      match insert_columns db tableId name type (Some optionsJson) createdAt with
      | Throw e => (Throw e, db)
      | Return (db', lastInsertRowid) =>
          (Return (mk lastInsertRowid tableId name type options createdAt), db')
      end
  end.

Section Methods.
Context {E : Engine}.

Definition getByTable (db : Database) (tableId : Z) : Outcome (list t) :=
  map_outcome of_data (stmt_all (fun c => columns_table_id c =? tableId) (columns db)).

Definition get (db : Database) (id : Z) : Outcome (option t) :=
  match stmt_get (fun c => columns_id c =? id) (columns db) with
  | None => Return None
  | Some data => col <- of_data data ;; Return (Some col)
  end.

End Methods.
End TableColumn.

Module TableRow.

Record t : Type := mk { id : Z; tableId : Z; position : Z; createdAt : Z }.

Definition of_data (r : rows_rec) : t :=
  mk (rows_id r) (rows_table_id r) (rows_position r) (rows_created_at r).

(** [SELECT COUNT( * ) as count FROM rows WHERE table_id = ?]. *)
Definition count (db : Database) (tableId : Z) : Z :=
  Z.of_nat (List.length (filter (fun r => rows_table_id r =? tableId) (rows db))).

Definition create (db : Database) (tableId : Z) (position : option Z) (now : Z)
    : Outcome t * Database :=
  let position :=
    match position with
    | None => count db tableId
    | Some p => p
    end in
  let createdAt := now in
  match insert_rows db tableId position createdAt with
  | Throw e => (Throw e, db)
  | Return (db', lastInsertRowid) =>
      (Return (mk lastInsertRowid tableId position createdAt), db')
  end.

Section Methods.
Context {E : Engine}.

Definition getByTable (db : Database) (tableId : Z) : list t :=
  map of_data
      (order_by_position (stmt_all (fun r => rows_table_id r =? tableId) (rows db))).

Definition get (db : Database) (id : Z) : option t :=
  match stmt_get (fun r => rows_id r =? id) (rows db) with
  | None => None
  | Some data => Some (of_data data)
  end.

Definition setCell (this : t) (db : Database) (columnId : Z) (value : JsValue) (now : Z)
    : Outcome CellData.t * Database :=
  CellData.set db (id this) columnId value now.

Definition getCell (this : t) (db : Database) (columnId : Z) : Outcome (option CellData.t) :=
  CellData.get db (id this) columnId.

Definition getAllCells (this : t) (db : Database) : Outcome (list CellData.t) :=
  CellData.getByRow db (id this).

End Methods.
End TableRow.

Module DataTable.

Record t : Type := mk { id : Z; name : string; createdAt : Z }.

Definition of_data (d : tables_rec) : t :=
  mk (tables_id d) (tables_name d) (tables_created_at d).

Definition create (db : Database) (name : string) (now : Z) : t * Database :=
  let createdAt := now in
  let (db', lastInsertRowid) := insert_tables db name createdAt in
  (mk lastInsertRowid name createdAt, db').

Definition addColumn (this : t) (db : Database) (name : string) (type : option string)
    (options : JsValue) (now : Z) : Outcome TableColumn.t * Database :=
  TableColumn.create db (id this) name type options now.

Definition addRow (this : t) (db : Database) (position : option Z) (now : Z)
    : Outcome TableRow.t * Database :=
  TableRow.create db (id this) position now.

Definition delete (this : t) (db : Database) : Database :=
  delete_tables db (id this).

Section Methods.
Context {E : Engine}.

Definition get (db : Database) (id : Z) : option t :=
  match stmt_get (fun d => tables_id d =? id) (tables db) with
  | None => None
  | Some data => Some (of_data data)
  end.

Definition getAll (db : Database) : list t :=
  map of_data (stmt_all (fun _ => true) (tables db)).

Definition getColumns (this : t) (db : Database) : Outcome (list TableColumn.t) :=
  TableColumn.getByTable db (id this).

Definition getRows (this : t) (db : Database) : list TableRow.t :=
  TableRow.getByTable db (id this).

(** [cell ? cell.value : null]. *)
Definition value_or_null (cell : option CellData.t) : JsValue :=
  match cell with
  | Some c => CellData.value c
  | None => JNull
  end.

(** The body of the inner loop:
    [rowData[col.name] = cell ? cell.value : null]. *)
Definition put_cell (db : Database) (row : TableRow.t) (rowData : Ordinary)
    (col : TableColumn.t) : Outcome Ordinary :=
  cell <- CellData.get db (TableRow.id row) (TableColumn.id col) ;;
  Return (obj_assign rowData (TableColumn.name col) (value_or_null cell)).

(** The two properties every record starts with. *)
Definition metadata (row : TableRow.t) : JsObject :=
  [("_rowId", number (TableRow.id row)); ("_position", number (TableRow.position row))].

(** The body of the outer loop. *)
Definition row_record (db : Database) (columns : list TableColumn.t) (row : TableRow.t)
    : Outcome Ordinary :=
  let rowData := literal (metadata row) in
  for_of columns (put_cell db row) rowData.

Definition getData (this : t) (db : Database) : Outcome (list Ordinary) :=
  columns <- getColumns this db ;;
  let rows := getRows this db in
  for_of rows (fun data row => rowData <- row_record db columns row ;;
                               Return (data ++ [rowData])%list) [].

(** *** [printTable] *)

(** The value of a cell as the grid shows it: nothing for null, the JSON
    text of an array or an object, [String(value)] otherwise. *)
Definition display (value : JsValue) : JsValue :=
  match value with
  | JNull | JUndefined => JString ""
  | JArray _ | JObject _ =>
      match JSON.stringify value with
      | Some s => JString s
      | None => JUndefined
      end
  | _ => JString (Console.ToString value)
  end.

(** The callback of [rows.map]: the position, then one shown value per
    column. *)
Definition print_cells (db : Database) (columns : list TableColumn.t) (r : TableRow.t)
    : Outcome (list JsValue) :=
  for_of columns
         (fun rowData col =>
            cell <- CellData.get db (TableRow.id r) (TableColumn.id col) ;;
            Return (rowData ++ [display (value_or_null cell)])%list)
         [number (TableRow.position r)].

(** The callback of [colNames.map]: the width of column [i]. *)
Definition column_width (data : list (list JsValue)) (name : string) (i : nat) : nat :=
  let headerWidth := String.length name in
  let dataWidth :=
    Console.max_of
      (map (fun rowData => String.length (Console.ToString (nth i rowData JUndefined))) data) in
  Nat.max (Nat.max headerWidth dataWidth) 3.

(** [str + ' '.repeat(Math.max(0, width - str.length))]; without a width
    the count is NaN and nothing is repeated. *)
Definition pad (str : JsValue) (width : option nat) : Console.text :=
  let str := Console.ToString str in
  (Console.units str
   ++ Console.repeat_text [Console.space]
        (match width with
         | Some w => w - String.length str
         | None => 0
         end))%list%nat.

Section Grid.
Variable widths : list nat.

Definition bars (char : Z) : list Console.text :=
  map (fun w => Console.repeat_text [char] (w + 2)) widths.

Definition line (char cross : Z) : Console.text :=
  ([9500] ++ Console.join [cross] (bars char) ++ [9508])%list.

Definition topLine : Console.text :=
  ([9484] ++ Console.join [9516] (bars 9472) ++ [9488])%list.

Definition bottomLine : Console.text :=
  ([9492] ++ Console.join [9524] (bars 9472) ++ [9496])%list.

Definition row (cells : list JsValue) : Console.text :=
  ([9474]
   ++ Console.join [9474]
        (Console.map_index
           (fun cell i => [Console.space] ++ pad cell (nth_error widths i) ++ [Console.space])
           cells 0)
   ++ [9474])%list.
End Grid.

(** The length of every line of the grid. *)
Definition grid_width (widths : list nat) : nat :=
  (2 + Console.joined_length 1 (map (fun w => w + 2) widths))%nat.

(** The lines [printTable] hands to [console.log]. *)
Definition printTable (this : t) (db : Database) : Outcome (list Console.text) :=
  columns <- getColumns this db ;;
  let rows := getRows this db in
  match columns with
  | [] =>
      Return [Console.units ("Table " ++ String JSON.dquote (name this)
                             ++ String JSON.dquote " has no columns.")]
  | _ :: _ =>
      let colNames := "_row" :: map TableColumn.name columns in
      data <- map_outcome (print_cells db columns) rows ;;
      let widths := Console.map_index (column_width data) colNames 0 in
      Return
        ([Console.units (Console.newline ++ "Table: " ++ name this ++ " (ID: "
                         ++ JSON.Number_toString (id this) ++ ")");
          topLine widths;
          row widths (map JString colNames);
          line widths 9552 9578]
         ++ match data with
            | [] => [row widths (map (fun _ => JString "") widths)]
            | _ :: _ => map (row widths) data
            end
         ++ [bottomLine widths;
             Console.units (JSON.Number_toString (Z.of_nat (List.length data))
                            ++ " row(s)" ++ Console.newline)])%list
  end.

End Methods.
End DataTable.

(** ** Histories *)

Module DiamantDB.

(** A database file that [init] has just created. *)
Definition empty : Database := mk_Database [] 0 [] 0 [] 0 [] 0.

(** [CREATE TABLE IF NOT EXISTS] and [CREATE INDEX IF NOT EXISTS] leave
    the content of an existing file as it is. *)
Definition init (db : Database) : Database := db.

(** The calls that write to the store. *)
Inductive Call : Type :=
| create_table (name : string) (now : Z)
| add_column (tableId : Z) (name : string) (type : option string) (options : JsValue) (now : Z)
| add_row (tableId : Z) (position : option Z) (now : Z)
| set_cell (rowId columnId : Z) (value : JsValue) (now : Z)
| delete_table (tableId : Z).

Definition exec (db : Database) (c : Call) : Database :=
  match c with
  | create_table name now => snd (DataTable.create db name now)
  | add_column tableId name type options now =>
      snd (TableColumn.create db tableId name type options now)
  | add_row tableId position now => snd (TableRow.create db tableId position now)
  | set_cell rowId columnId value now => snd (CellData.set db rowId columnId value now)
  | delete_table tableId => delete_tables db tableId
  end.

(** The store after a history of calls on a fresh file. *)
Definition run (history : list Call) : Database := fold_left exec history (init empty).

End DiamantDB.

(** ** The constraints of the schema *)

Module Schema.

(** [INTEGER PRIMARY KEY AUTOINCREMENT]: the ids of a relation grow in
    the order of insertion and none is beyond the sequence. *)
Definition primary_key {A : Type} (id : A -> Z) (rel : list A) (seq : Z) : Prop :=
  StronglySorted Z.lt (map id rel) /\ Forall (fun x => id x <= seq) rel.

Definition cell_key (x : cells_rec) : Z * Z := (cells_row_id x, cells_column_id x).

(** [UNIQUE(row_id, column_id)]. *)
Definition unique_cells (rel : list cells_rec) : Prop := NoDup (map cell_key rel).

(** A [TEXT] column that holds [NULL] or what [JSON.stringify] returned. *)
Definition written (text : option string) : Prop :=
  text = None \/ exists v : JsValue, JSON.stringify v = text.

Record consistent (db : Database) : Prop := mk_consistent
  { tables_key : primary_key tables_id (tables db) (tables_seq db);
    columns_key : primary_key columns_id (columns db) (columns_seq db);
    rows_key : primary_key rows_id (rows db) (rows_seq db);
    cells_key : primary_key cells_id (cells db) (cells_seq db);
    cells_unique : unique_cells (cells db);
    columns_written : Forall (fun c => written (columns_options c)) (columns db);
    cells_written : Forall (fun x => written (cells_value x)) (cells db) }.

(** The three [FOREIGN KEY] clauses: a column and a row reference a table
    of the store, a cell a row and a column of the store. *)
Definition referential (db : Database) : Prop :=
  Forall (fun c => has_table db (columns_table_id c) = true) (columns db)
  /\ Forall (fun r => has_table db (rows_table_id r) = true) (rows db)
  /\ Forall (fun x => has_row db (cells_row_id x) = true
                      /\ has_column db (cells_column_id x) = true) (cells db).

End Schema.

(** * Facts about numbers and their texts *)

Module NumberFacts.
Import JSON.

Lemma append_assoc (a b c : string) : (a ++ b) ++ c = a ++ (b ++ c).
Proof. induction a as [|x a IH]; simpl; [reflexivity | now rewrite IH]. Qed.

Lemma length_append (a b : string) :
  String.length (a ++ b) = (String.length a + String.length b)%nat.
Proof. induction a as [|x a IH]; simpl; [reflexivity | now rewrite IH]. Qed.

Lemma append_nil_r (s : string) : s ++ "" = s.
Proof. induction s as [|c s IH]; simpl; [reflexivity | now rewrite IH]. Qed.

Lemma Finite_ext (negative : bool) (m e m' e' : Z)
    (ok : canonical m e = true) (ok' : canonical m' e' = true) :
  m = m' -> e = e' -> Finite negative m e ok = Finite negative m' e' ok'.
Proof.
  intros Hm He. subst m' e'. f_equal. apply UIP_dec. apply bool_dec.
Qed.

Lemma finite_canonical (negative : bool) (m e : Z) (ok : canonical m e = true) :
  finite negative m e = Finite negative m e ok.
Proof.
  unfold finite.
  assert (H : forall (b : bool) (Hb : canonical m e = b), b = true ->
            match b as b0 return canonical m e = b0 -> JsNumber with
            | true => fun ok0 => Finite negative m e ok0
            | false => fun _ => NaN
            end Hb = Finite negative m e ok).
  { intros b Hb Ht. destruct b; [now apply Finite_ext | discriminate Ht]. }
  now apply H.
Qed.

Lemma canonical_inv (m e : Z) :
  canonical m e = true ->
  0 <= m < 2 ^ 53 /\ -1074 <= e <= 971 /\ (e = -1074 \/ 2 ^ 52 <= m).
Proof.
  unfold canonical. rewrite !andb_true_iff, orb_true_iff.
  rewrite !Z.leb_le, Z.ltb_lt, Z.eqb_eq. tauto.
Qed.

(** **** Rounding a number to itself *)

Lemma round_half_even_exact (m d : Z) : 0 < d -> round_half_even (m * d) d = m.
Proof.
  intros Hd. unfold round_half_even. rewrite Z.div_mul, Z.mod_mul by lia.
  replace (2 * 0) with 0 by reflexivity.
  destruct (0 <? d) eqn:H; [reflexivity|]. apply Z.ltb_ge in H. lia.
Qed.

Lemma nearest_units (m E p q : Z) :
  0 < q -> 0 <= m < 2 ^ 53 -> 0 <= E <= 2045 -> E = 0 \/ 2 ^ 52 <= m ->
  p * 2 ^ 1074 = m * 2 ^ E * q ->
  nearest p q = Some (m, E - 1074).
Proof.
  intros Hq Hm HE Hnorm Hp. unfold nearest. rewrite Hp.
  rewrite Z.div_mul by lia.
  assert (Hlog : Z.max 0 (Z.log2 (m * 2 ^ E) - 52) = E).
  { destruct (Z.eq_dec m 0) as [Hz|Hz].
    - subst m. assert (E = 0) by (pose proof (Z.pow_pos_nonneg 2 52); lia). subst E.
      reflexivity.
    - rewrite Z.log2_mul_pow2 by lia. destruct Hnorm as [->|Hn].
      + assert (Z.log2 m < 53) by (apply Z.log2_lt_pow2; lia). lia.
      + assert (Z.log2 m = 52) by (apply Z.log2_unique; [lia|]; split; [exact Hn|apply Hm]).
        lia. }
  rewrite Hlog. replace (m * 2 ^ E * q) with (m * (q * 2 ^ E)) by ring.
  assert (Hpow : 0 < 2 ^ E) by (apply Z.pow_pos_nonneg; lia).
  rewrite round_half_even_exact by nia.
  assert (Hm53 : (m =? 2 ^ 53) = false) by (apply Z.eqb_neq; lia).
  rewrite Hm53.
  assert (HE' : (2045 <? E) = false) by (apply Z.ltb_ge; lia).
  now rewrite HE'.
Qed.

Lemma round_half_even_bounds (n d : Z) :
  n / d <= round_half_even n d <= n / d + 1.
Proof.
  unfold round_half_even.
  destruct (2 * (n mod d) <? d); [lia|].
  destruct (d <? 2 * (n mod d)); [lia|].
  destruct (Z.even (n / d)); lia.
Qed.

Lemma canonical_intro (m e : Z) :
  0 <= m < 2 ^ 53 -> -1074 <= e <= 971 -> e = -1074 \/ 2 ^ 52 <= m ->
  canonical m e = true.
Proof.
  intros Hm He Hn. unfold canonical. rewrite !andb_true_iff, orb_true_iff.
  rewrite !Z.leb_le, Z.ltb_lt, Z.eqb_eq. tauto.
Qed.

(** Rounding stays within the format. *)
Lemma nearest_canonical (p q m e : Z) :
  0 <= p -> 0 < q -> nearest p q = Some (m, e) -> canonical m e = true.
Proof.
  intros Hp Hq. unfold nearest.
  assert (H1074 : 0 < 2 ^ 1074) by (apply Z.pow_pos_nonneg; lia).
  set (n := p * 2 ^ 1074). assert (Hn : 0 <= n) by (unfold n; nia).
  set (N := n / q). assert (HN : 0 <= N) by (apply Z.div_pos; lia).
  set (E := Z.max 0 (Z.log2 N - 52)). assert (HE : 0 <= E) by lia.
  assert (HpE : 0 < 2 ^ E) by (apply Z.pow_pos_nonneg; lia).
  pose proof (round_half_even_bounds n (q * 2 ^ E)) as Hr.
  rewrite <- Z.div_div in Hr by lia. fold N in Hr.
  assert (HK : 0 <= N / 2 ^ E < 2 ^ 53 /\ (E = 0 \/ 2 ^ 52 <= N / 2 ^ E)).
  { destruct (Z.eq_dec N 0) as [HN0|HN0].
    - rewrite HN0 in *. unfold E. rewrite Z.log2_nonpos by lia. cbn. split; [lia | now left].
    - destruct (Z.log2_spec N ltac:(lia)) as [Hlo Hhi].
      destruct (Z.max_spec 0 (Z.log2 N - 52)) as [[Hlt HmaxE]|[Hle HmaxE]]; fold E in HmaxE.
      + assert (Hsucc : Z.succ (Z.log2 N) = 53 + E) by lia. rewrite Hsucc in Hhi.
        replace (Z.log2 N) with (52 + E) in Hlo by lia.
        rewrite Z.pow_add_r in Hlo, Hhi by lia. split; [split|right].
        * apply Z.div_pos; lia.
        * apply Z.div_lt_upper_bound; lia.
        * apply Z.div_le_lower_bound; lia.
      + rewrite HmaxE. rewrite Z.pow_0_r, Z.div_1_r. split; [|now left].
        split; [lia|]. apply Z.log2_lt_pow2; lia. }
  destruct HK as [HK Hnorm]. clearbody N n E.
  set (r := round_half_even n (q * 2 ^ E)) in *. clearbody r.
  assert (H52 : 2 ^ 53 = 2 * 2 ^ 52) by reflexivity.
  assert (Hp52 : 0 < 2 ^ 52) by (apply Z.pow_pos_nonneg; lia).
  destruct (r =? 2 ^ 53) eqn:Hr53.
  - destruct (2045 <? E + 1) eqn:Hover; [discriminate|]. apply Z.ltb_ge in Hover.
    intros [= <- <-]. apply canonical_intro; lia.
  - apply Z.eqb_neq in Hr53.
    destruct (2045 <? E) eqn:Hover; [discriminate|]. apply Z.ltb_ge in Hover.
    intros [= <- <-]. apply canonical_intro; lia.
Qed.

(** The value of a decimal is a number: finite, or an infinity. *)
Lemma of_decimal_number (negative : bool) (s q : Z) :
  0 <= s ->
  of_decimal negative s q = infinity negative
  \/ exists m e ok, of_decimal negative s q = Finite negative m e ok.
Proof.
  intros Hs. unfold of_decimal. destruct (scaled s q) as [p d] eqn:Hsc.
  assert (Hpd : 0 <= p /\ 0 < d).
  { unfold scaled in Hsc. destruct (0 <=? q) eqn:Hq; injection Hsc as <- <-.
    - apply Z.leb_le in Hq. split; [|lia]. apply Z.mul_nonneg_nonneg; [lia|].
      apply Z.pow_nonneg; lia.
    - apply Z.leb_gt in Hq. split; [lia|]. apply Z.pow_pos_nonneg; lia. }
  destruct (nearest p d) as [[m e]|] eqn:Hn; [|now left].
  right. pose proof (nearest_canonical p d m e (proj1 Hpd) (proj2 Hpd) Hn) as ok.
  exists m, e, ok. apply finite_canonical.
Qed.

(** The number is the nearest one to its own decimal expansion. *)
Lemma reads_as_exact (m e : Z) :
  canonical m e = true ->
  reads_as m e (fst (exact_decimal m e)) (snd (exact_decimal m e)) = true.
Proof.
  intros Hc. apply canonical_inv in Hc. destruct Hc as (Hm & He & Hnorm).
  assert (Hn : nearest (fst (scaled (fst (exact_decimal m e)) (snd (exact_decimal m e))))
                       (snd (scaled (fst (exact_decimal m e)) (snd (exact_decimal m e))))
               = Some (m, e)).
  { replace e with (e + 1074 - 1074) at 5 by lia.
    unfold exact_decimal. destruct (0 <=? e) eqn:H0.
    - apply Z.leb_le in H0. cbn [fst snd]. unfold scaled. cbn [Z.leb Z.compare fst snd].
      apply nearest_units; try lia.
      rewrite Z.pow_add_r by lia. rewrite Z.pow_0_r. ring.
    - apply Z.leb_gt in H0. cbn [fst snd]. unfold scaled.
      assert (Hneg : (0 <=? e) = false) by (apply Z.leb_gt; lia).
      rewrite Hneg. cbn [fst snd].
      assert (Hten : 0 < 10 ^ (- e)) by (apply Z.pow_pos_nonneg; lia).
      apply nearest_units; try lia.
      replace 10 with (2 * 5) by reflexivity. rewrite Z.pow_mul_l.
      replace (2 ^ 1074) with (2 ^ (e + 1074) * 2 ^ (- e))
        by (rewrite <- Z.pow_add_r by lia; f_equal; lia).
      ring. }
  unfold reads_as. destruct (scaled _ _) as [p d]. cbn [fst snd] in Hn. rewrite Hn.
  now rewrite !Z.eqb_refl.
Qed.

(** **** Counting digits *)

Lemma count_digits_spec (fuel : nat) :
  forall x : Z,
    0 < x < 2 ^ (Z.of_nat fuel + 1) ->
    (1 <= count_digits fuel x)%nat
    /\ 10 ^ (Z.of_nat (count_digits fuel x) - 1) <= x < 10 ^ Z.of_nat (count_digits fuel x).
Proof.
  induction fuel as [|fuel IH]; intros x Hx.
  - simpl in *. assert (x = 1) by lia. subst x. split; [lia|]. split; reflexivity || lia.
  - cbn [count_digits]. destruct (x <? 10) eqn:H10.
    + apply Z.ltb_lt in H10. split; [lia|]. change (Z.of_nat 1 - 1) with 0.
      change (10 ^ Z.of_nat 1) with 10. rewrite Z.pow_0_r. lia.
    + apply Z.ltb_ge in H10.
      assert (Hdiv : 0 < x / 10 < 2 ^ (Z.of_nat fuel + 1)).
      { split; [apply Z.div_str_pos; lia|].
        apply Z.div_lt_upper_bound; [lia|].
        replace (Z.of_nat (S fuel) + 1) with (Z.of_nat fuel + 1 + 1) in Hx by lia.
        rewrite Z.pow_add_r in Hx by lia. change (2 ^ 1) with 2 in Hx.
        assert (0 < 2 ^ (Z.of_nat fuel + 1)) by (apply Z.pow_pos_nonneg; lia). lia. }
      destruct (IH (x / 10) Hdiv) as (Hk & Hlo & Hhi). split; [lia|].
      set (K := count_digits fuel (x / 10)) in *.
      replace (Z.of_nat (S K) - 1) with (Z.of_nat K - 1 + 1) by lia.
      replace (Z.of_nat (S K)) with (Z.of_nat K + 1) by lia.
      rewrite !Z.pow_add_r by lia. change (10 ^ 1) with 10.
      pose proof (Z.div_mod x 10 ltac:(lia)) as Hdm.
      pose proof (Z.mod_pos_bound x 10 ltac:(lia)) as Hmod. lia.
Qed.

Lemma num_digits_spec (x : Z) :
  0 < x ->
  (1 <= num_digits x)%nat
  /\ 10 ^ (Z.of_nat (num_digits x) - 1) <= x < 10 ^ Z.of_nat (num_digits x).
Proof.
  intros Hx. apply count_digits_spec. split; [exact Hx|].
  rewrite Z2Nat.id by apply Z.log2_nonneg.
  destruct (Z.log2_spec x Hx) as [_ H]. exact H.
Qed.

(** **** The digits that denote a number *)

Lemma dropped_digits_range (exact : Z) (count drop : nat) :
  (drop < count)%nat ->
  10 ^ (Z.of_nat count - 1) <= exact < 10 ^ Z.of_nat count ->
  10 ^ (Z.of_nat (count - drop) - 1) <= exact / 10 ^ Z.of_nat drop
  < 10 ^ Z.of_nat (count - drop).
Proof.
  intros Hd [Hlo Hhi]. rewrite Nat2Z.inj_sub by lia.
  set (c := Z.of_nat count) in *. set (d := Z.of_nat drop) in *.
  assert (Hdc : 0 <= d < c) by lia.
  assert (Hpd : 0 < 10 ^ d) by (apply Z.pow_pos_nonneg; lia).
  split.
  - apply Z.div_le_lower_bound; [exact Hpd|].
    rewrite <- Z.pow_add_r by lia. replace (d + (c - d - 1)) with (c - 1) by lia. exact Hlo.
  - apply Z.div_lt_upper_bound; [exact Hpd|].
    rewrite <- Z.pow_add_r by lia. replace (d + (c - d)) with c by lia. exact Hhi.
Qed.

Lemma shortest_denotes (m e exact scale : Z) (count : nat) :
  (1 <= count)%nat ->
  10 ^ (Z.of_nat count - 1) <= exact < 10 ^ Z.of_nat count ->
  reads_as m e exact scale = true ->
  forall drop : nat, (drop < count)%nat ->
    denotes m e (shortest m e exact scale count drop).
Proof.
  intros Hc Hrange Hexact. induction drop as [|drop IH]; intros Hd.
  - simpl. split; [exact Hc|]. split; [exact Hrange|].
    now replace (Z.of_nat count + scale - Z.of_nat count) with scale by lia.
  - cbn [shortest].
    set (k := (count - S drop)%nat).
    set (unit := 10 ^ Z.of_nat (S drop)).
    set (q := scale + Z.of_nat (S drop)).
    set (n := Z.of_nat count + scale).
    set (lo := exact / unit).
    destruct (dropped_digits_range exact count (S drop) Hd Hrange) as [Hlo Hhi].
    fold k in Hlo, Hhi. fold unit in Hlo, Hhi. fold lo in Hlo, Hhi.
    assert (Hk : (1 <= k)%nat) by (unfold k; lia).
    assert (Hnk : n - Z.of_nat k = q) by (unfold n, k, q; lia).
    clearbody lo k n q.
    set (hi := if lo + 1 =? 10 ^ Z.of_nat k
               then (10 ^ (Z.of_nat k - 1), q + 1, n + 1) else (lo + 1, q, n)).
    destruct (reads_as m e lo q
              && negb ((let '(s, q', _) := hi in reads_as m e s q')
                       && ((unit <? 2 * (exact mod unit))
                           || (unit =? 2 * (exact mod unit)) && Z.odd lo))) eqn:Hlo_ok.
    + apply andb_prop in Hlo_ok. destruct Hlo_ok as [Hok _].
      split; [exact Hk|]. split; [split; assumption|]. now rewrite Hnk.
    + destruct (let '(s, q', _) := hi in reads_as m e s q') eqn:Hhi_ok.
      * unfold hi in *. destruct (lo + 1 =? 10 ^ Z.of_nat k) eqn:Hten.
        -- split; [exact Hk|]. split.
           ++ split; [lia|]. apply Z.pow_lt_mono_r; lia.
           ++ now replace (n + 1 - Z.of_nat k) with (q + 1) by lia.
        -- apply Z.eqb_neq in Hten. split; [exact Hk|]. split; [lia|]. now rewrite Hnk.
      * apply IH. lia.
Qed.

Lemma digits_of_denotes (m e : Z) :
  canonical m e = true -> m <> 0 -> denotes m e (digits_of m e).
Proof.
  intros Hc Hm. pose proof (reads_as_exact m e Hc) as Hexact.
  apply canonical_inv in Hc. destruct Hc as (Hm' & He & _).
  unfold digits_of. destruct (exact_decimal m e) as [exact scale] eqn:Hd.
  cbn [fst snd] in Hexact.
  assert (Hpos : 0 < exact).
  { unfold exact_decimal in Hd. destruct (0 <=? e) eqn:H0;
      [apply Z.leb_le in H0 | apply Z.leb_gt in H0]; injection Hd as <- _;
      apply Z.mul_pos_pos; try lia; apply Z.pow_pos_nonneg; lia. }
  destruct (num_digits_spec exact Hpos) as [Hk Hrange].
  apply shortest_denotes; auto. lia.
Qed.

(** **** Digits and their value *)

Lemma digit_value_char (d : Z) : 0 <= d <= 9 -> digit_value (digit_char d) = Some d.
Proof.
  intros H.
  assert (Hd : d = 0 \/ d = 1 \/ d = 2 \/ d = 3 \/ d = 4 \/ d = 5 \/ d = 6 \/ d = 7
               \/ d = 8 \/ d = 9) by lia.
  repeat (destruct Hd as [->|Hd]; [reflexivity|]). subst d. reflexivity.
Qed.

Lemma digit_range (x w : Z) : 0 <= (x / 10 ^ w) mod 10 <= 9.
Proof. pose proof (Z.mod_pos_bound (x / 10 ^ w) 10). lia. Qed.

Lemma read_digits_stop (s : string) (acc : Z) (count : nat) :
  stops s -> read_digits acc count s = (acc, count, s).
Proof. destruct s as [|c s]; simpl; [reflexivity|]. now intros ->. Qed.

Lemma read_digits_digits (w : nat) :
  forall (x acc : Z) (count : nat) (rest : string),
    read_digits acc count (digits w x ++ rest)
    = read_digits (acc * 10 ^ Z.of_nat w + x mod 10 ^ Z.of_nat w) (count + w) rest.
Proof.
  induction w as [|w IH]; intros x acc count rest.
  - cbn [digits append]. change (10 ^ Z.of_nat 0) with 1.
    rewrite Z.mod_1_r, Z.mul_1_r, Z.add_0_r, Nat.add_0_r. reflexivity.
  - cbn [digits append read_digits].
    rewrite digit_value_char by apply digit_range. rewrite IH.
    f_equal; [|lia].
    rewrite Nat2Z.inj_succ, Z.pow_succ_r by lia.
    rewrite (Z.mul_comm 10 (10 ^ Z.of_nat w)).
    assert (Hp : 0 < 10 ^ Z.of_nat w) by (apply Z.pow_pos_nonneg; lia).
    rewrite Z.rem_mul_r by lia. ring.
Qed.

(** The digits of a number that has no more of them, read back. *)
Lemma read_digits_number (w : nat) (x acc : Z) (count : nat) (rest : string) :
  0 <= x < 10 ^ Z.of_nat w -> stops rest ->
  read_digits acc count (digits w x ++ rest)
  = (acc * 10 ^ Z.of_nat w + x, (count + w)%nat, rest).
Proof.
  intros Hx Hrest. rewrite read_digits_digits, Z.mod_small by exact Hx.
  now apply read_digits_stop.
Qed.

Lemma leading_digit (k : nat) (s : Z) :
  10 ^ Z.of_nat k <= s < 10 ^ (Z.of_nat k + 1) ->
  1 <= (s / 10 ^ Z.of_nat k) mod 10 <= 9.
Proof.
  intros [Hlo Hhi].
  assert (Hp : 0 < 10 ^ Z.of_nat k) by (apply Z.pow_pos_nonneg; lia).
  assert (H1 : 1 <= s / 10 ^ Z.of_nat k) by (apply Z.div_le_lower_bound; lia).
  assert (H9 : s / 10 ^ Z.of_nat k < 10).
  { apply Z.div_lt_upper_bound; [exact Hp|].
    rewrite Z.pow_add_r in Hhi by lia. change (10 ^ 1) with 10 in Hhi. lia. }
  rewrite Z.mod_small by lia. lia.
Qed.

(** **** The parts of a number literal *)

Lemma some_digits_read (s : string) (i : Z) (count : nat) (rest : string) :
  read_digits 0 0 s = (i, S count, rest) -> some_digits s = Some (i, S count, rest).
Proof. intros H. unfold some_digits. now rewrite H. Qed.

Lemma parse_int_single (s : string) (i : Z) (rest : string) :
  read_digits 0 0 s = (i, 1%nat, rest) -> parse_int s = Some (i, rest).
Proof.
  intros H. unfold parse_int. rewrite (some_digits_read _ _ _ _ H).
  destruct s as [|c s]; [reflexivity|].
  destruct c as [[] [] [] [] [] [] [] []]; reflexivity.
Qed.

Lemma parse_int_leading (c : ascii) (s : string) (d i : Z) (count : nat) (rest : string) :
  digit_value c = Some d -> d <> 0 ->
  read_digits 0 0 (String c s) = (i, S count, rest) ->
  parse_int (String c s) = Some (i, rest).
Proof.
  intros Hc Hd H. unfold parse_int. rewrite (some_digits_read _ _ _ _ H).
  destruct c as [[] [] [] [] [] [] [] []]; try reflexivity.
  injection Hc as Hc. congruence.
Qed.

Lemma parse_number_digit (c : ascii) (s : string) (d : Z) :
  digit_value c = Some d -> parse_number (String c s) = parse_unsigned false (String c s).
Proof.
  intros Hc. destruct c as [[] [] [] [] [] [] [] []]; try reflexivity. discriminate Hc.
Qed.

Lemma delimited_follows (rest : string) :
  delimited rest = true ->
  stops rest /\ parse_frac rest = Some (0, O, rest) /\ parse_exp rest = Some (0, rest).
Proof.
  destruct rest as [|c rest]; [repeat split|].
  destruct c as [[] [] [] [] [] [] [] []]; simpl; intros H;
    try discriminate H; repeat split.
Qed.

Lemma of_decimal_scaled (negative : bool) (s q s' q' : Z) :
  scaled s q = scaled s' q' -> of_decimal negative s q = of_decimal negative s' q'.
Proof. intros H. unfold of_decimal. now rewrite H. Qed.

Lemma parse_unsigned_parts (negative : bool) (s r0 r1 r2 : string) (i f x : Z) (count : nat)
    (s' q' : Z) :
  parse_int s = Some (i, r0) -> parse_frac r0 = Some (f, count, r1) ->
  parse_exp r1 = Some (x, r2) ->
  scaled (i * 10 ^ Z.of_nat count + f) (x - Z.of_nat count) = scaled s' q' ->
  parse_unsigned negative s = Some (JNumber (of_decimal negative s' q'), r2).
Proof.
  intros Hi Hf Hx Hv. unfold parse_unsigned. rewrite Hi, Hf, Hx.
  now rewrite (of_decimal_scaled negative _ _ _ _ Hv).
Qed.

Lemma parse_exp_text (n : Z) (rest : string) :
  n <> 0 -> stops rest ->
  parse_exp ("e" ++ (if n <? 0 then "-" else "+") ++ decimal (Z.abs n) ++ rest)
  = Some (n, rest).
Proof.
  intros Hn Hrest.
  destruct (num_digits_spec (Z.abs n) ltac:(lia)) as [Hk Hrange].
  assert (Hread : read_digits 0 0 (decimal (Z.abs n) ++ rest)
                  = (Z.abs n, num_digits (Z.abs n), rest)).
  { unfold decimal. rewrite read_digits_number by (auto; lia). reflexivity. }
  destruct (num_digits (Z.abs n)) as [|count] eqn:Hcount; [lia|].
  apply some_digits_read in Hread.
  destruct (n <? 0) eqn:Hsign; cbn [append parse_exp]; rewrite Hread; f_equal; f_equal.
  - apply Z.ltb_lt in Hsign. lia.
  - apply Z.ltb_ge in Hsign. lia.
Qed.

(** **** The text of a number, read back *)

Lemma parse_unsigned_format (negative : bool) (s n : Z) (k : nat) (rest : string) :
  (1 <= k)%nat -> 10 ^ (Z.of_nat k - 1) <= s < 10 ^ Z.of_nat k ->
  delimited rest = true ->
  exists c text,
    format s n k ++ rest = String c text
    /\ digit_value c <> None
    /\ parse_unsigned negative (format s n k ++ rest)
       = Some (JNumber (of_decimal negative s (n - Z.of_nat k)), rest).
Proof.
  intros Hk Hs Hrest.
  destruct (delimited_follows rest Hrest) as (Hstop & Hfrac & Hexp).
  destruct k as [|k']; [lia|]. set (k := S k') in *.
  assert (Hlead : 1 <= (s / 10 ^ Z.of_nat k') mod 10 <= 9).
  { apply leading_digit. unfold k in Hs. rewrite Nat2Z.inj_succ in Hs.
    replace (Z.succ (Z.of_nat k') - 1) with (Z.of_nat k') in Hs by lia.
    replace (Z.of_nat k' + 1) with (Z.succ (Z.of_nat k')) by lia. exact Hs. }
  assert (Hc : digit_value (digit_char ((s / 10 ^ Z.of_nat k') mod 10))
               = Some ((s / 10 ^ Z.of_nat k') mod 10))
    by (apply digit_value_char; lia).
  assert (Hpk : 0 < 10 ^ Z.of_nat k) by (apply Z.pow_pos_nonneg; lia).
  unfold format.
  destruct ((Z.of_nat k <=? n) && (n <=? 21)) eqn:C1.
  { (* the digits, then zeros *)
    apply andb_prop in C1. destruct C1 as [C1 _]. apply Z.leb_le in C1.
    set (j := Z.to_nat (n - Z.of_nat k)).
    assert (Hj : Z.of_nat j = n - Z.of_nat k) by (unfold j; lia).
    rewrite append_assoc.
    assert (Hread : read_digits 0 0 (digits k s ++ digits j 0 ++ rest)
                    = (s * 10 ^ Z.of_nat j, (k + j)%nat, rest)).
    { rewrite read_digits_digits, Z.mod_small by lia.
      rewrite read_digits_digits, Z.mod_0_l
        by (pose proof (Z.pow_pos_nonneg 10 (Z.of_nat j)); lia).
      rewrite read_digits_stop by exact Hstop. f_equal. f_equal. ring. }
    exists (digit_char ((s / 10 ^ Z.of_nat k') mod 10)), (digits k' s ++ digits j 0 ++ rest).
    split; [reflexivity|]. split; [congruence|].
    eapply parse_unsigned_parts; [|exact Hfrac|exact Hexp|].
    - unfold k in *. cbn [digits append] in Hread |- *.
      eapply parse_int_leading; [exact Hc | lia | exact Hread].
    - unfold scaled. rewrite <- Hj. change (0 - Z.of_nat 0) with 0. cbn [Z.leb Z.compare].
      assert (H0 : (0 <=? Z.of_nat j) = true) by (apply Z.leb_le; lia).
      rewrite H0. f_equal. change (10 ^ Z.of_nat 0) with 1. change (10 ^ 0) with 1. ring. }
  assert (Hn1 : n < Z.of_nat k \/ 21 < n).
  { apply andb_false_iff in C1. destruct C1 as [C1|C1]; apply Z.leb_gt in C1; lia. }
  clear C1.
  destruct ((0 <? n) && (n <=? 21)) eqn:C2.
  { (* the digits around a decimal point *)
    apply andb_prop in C2. destruct C2 as [C2 C2']. apply Z.ltb_lt in C2.
    apply Z.leb_le in C2'.
    set (a := Z.to_nat n). set (b := Z.to_nat (Z.of_nat k - n)).
    assert (Ha : Z.of_nat a = n) by (unfold a; lia).
    assert (Hb : Z.of_nat b = Z.of_nat k - n) by (unfold b; lia).
    rewrite <- Hb. set (I := s / 10 ^ Z.of_nat b).
    assert (HI : 10 ^ (Z.of_nat a - 1) <= I < 10 ^ Z.of_nat a).
    { replace a with (k - b)%nat by lia. apply dropped_digits_range; [lia | exact Hs]. }
    destruct a as [|a'] eqn:Ea; [lia|]. destruct b as [|b'] eqn:Eb; [lia|].
    rewrite <- Ea, <- Eb in *.
    assert (HleadI : 1 <= (I / 10 ^ Z.of_nat a') mod 10 <= 9).
    { apply leading_digit. rewrite Ea, Nat2Z.inj_succ in HI.
      replace (Z.succ (Z.of_nat a') - 1) with (Z.of_nat a') in HI by lia.
      replace (Z.of_nat a' + 1) with (Z.succ (Z.of_nat a')) by lia. exact HI. }
    assert (HcI : digit_value (digit_char ((I / 10 ^ Z.of_nat a') mod 10))
                  = Some ((I / 10 ^ Z.of_nat a') mod 10))
      by (apply digit_value_char; lia).
    assert (Hpb : 0 < 10 ^ Z.of_nat b) by (apply Z.pow_pos_nonneg; lia).
    rewrite !append_assoc.
    assert (Hint : read_digits 0 0 (digits a I ++ "." ++ digits b s ++ rest)
                   = (I, a, "." ++ digits b s ++ rest)).
    { rewrite read_digits_number; [f_equal; f_equal; lia | lia | reflexivity]. }
    assert (Hfr : read_digits 0 0 (digits b s ++ rest) = (s mod 10 ^ Z.of_nat b, b, rest)).
    { rewrite read_digits_digits. now apply read_digits_stop. }
    exists (digit_char ((I / 10 ^ Z.of_nat a') mod 10)),
           (digits a' I ++ "." ++ digits b s ++ rest).
    split; [now rewrite Ea|]. split; [congruence|].
    eapply parse_unsigned_parts; [| |exact Hexp|].
    - rewrite Ea in Hint |- *. cbn [digits append] in Hint |- *.
      eapply parse_int_leading; [exact HcI | lia | exact Hint].
    - cbn [append parse_frac]. rewrite Eb in Hfr |- *. apply some_digits_read. exact Hfr.
    - rewrite <- Eb. replace (0 - Z.of_nat b) with (n - Z.of_nat k) by lia.
      f_equal. unfold I. rewrite <- Eb.
      pose proof (Z.div_mod s (10 ^ Z.of_nat b) ltac:(lia)). lia. }
  assert (Hn2 : n <= 0 \/ 21 < n).
  { apply andb_false_iff in C2. destruct C2 as [C2|C2];
      [apply Z.ltb_ge in C2 | apply Z.leb_gt in C2]; lia. }
  clear C2.
  destruct ((-6 <? n) && (n <=? 0)) eqn:C3.
  { (* the digits after zeros *)
    apply andb_prop in C3. destruct C3 as [C3 C3']. apply Z.ltb_lt in C3.
    apply Z.leb_le in C3'.
    set (z := Z.to_nat (- n)).
    assert (Hz : Z.of_nat z = - n) by (unfold z; lia).
    assert (Hfr : read_digits 0 0 (digits z 0 ++ digits k s ++ rest) = (s, (z + k)%nat, rest)).
    { rewrite read_digits_digits, Z.mod_0_l
        by (pose proof (Z.pow_pos_nonneg 10 (Z.of_nat z)); lia).
      rewrite read_digits_number; [f_equal; f_equal; lia | lia | exact Hstop]. }
    exists "0"%char, ("." ++ (digits z 0 ++ digits k s) ++ rest).
    split; [reflexivity|]. split; [discriminate|].
    eapply parse_unsigned_parts; [| |exact Hexp|].
    - apply parse_int_single. reflexivity.
    - cbn [append parse_frac]. rewrite append_assoc.
      unfold k in Hfr |- *. rewrite Nat.add_succ_r in Hfr.
      apply some_digits_read. exact Hfr.
    - f_equal; lia. }
  assert (Hn3 : n <= -6 \/ 21 < n).
  { apply andb_false_iff in C3. destruct C3 as [C3|C3];
      [apply Z.ltb_ge in C3 | apply Z.leb_gt in C3]; lia. }
  clear C3.
  (* the exponential notation *)
  assert (Hexp' : forall tail : string,
             tail = (if n - 1 <? 0 then "-" else "+") ++ decimal (Z.abs (n - 1)) ->
             parse_exp ("e" ++ tail ++ rest) = Some (n - 1, rest)).
  { intros tail ->. rewrite append_assoc. apply parse_exp_text; [lia | exact Hstop]. }
  set (tail := (if n - 1 <? 0 then "-" else "+") ++ decimal (Z.abs (n - 1))).
  destruct k' as [|k''].
  - (* one digit *)
    assert (Hs1 : 1 <= s < 10) by (unfold k in Hs; simpl in Hs; lia).
    assert (Htxt : (digits 1 s ++ "e" ++ tail) ++ rest = digits 1 s ++ "e" ++ tail ++ rest)
      by (now rewrite !append_assoc).
    unfold k. rewrite Htxt.
    assert (Hint : read_digits 0 0 (digits 1 s ++ "e" ++ tail ++ rest)
                   = (s, 1%nat, "e" ++ tail ++ rest)).
    { rewrite read_digits_number; [f_equal; f_equal; lia | simpl; lia | reflexivity]. }
    exists (digit_char ((s / 10 ^ Z.of_nat 0) mod 10)), ("e" ++ tail ++ rest).
    split; [reflexivity|]. split; [congruence|].
    eapply parse_unsigned_parts.
    + apply parse_int_single. exact Hint.
    + reflexivity.
    + apply (Hexp' tail eq_refl).
    + f_equal; simpl; lia.
  - (* a digit, a point and the other digits *)
    set (I := s / 10 ^ (Z.of_nat k - 1)).
    replace (k - 1)%nat with (S k'') by (unfold k; lia).
    assert (HkI : Z.of_nat k - 1 = Z.of_nat (S k'')) by (unfold k; lia).
    assert (Hp : 0 < 10 ^ Z.of_nat (S k'')) by (apply Z.pow_pos_nonneg; lia).
    assert (HI : 1 <= I <= 9).
    { unfold I. rewrite HkI. rewrite HkI in Hs.
      assert (H1 : 1 <= s / 10 ^ Z.of_nat (S k'')) by (apply Z.div_le_lower_bound; lia).
      assert (H9 : s / 10 ^ Z.of_nat (S k'') < 10).
      { apply Z.div_lt_upper_bound; [exact Hp|].
        replace (Z.of_nat k) with (Z.of_nat (S k'') + 1) in Hs by (unfold k; lia).
        rewrite Z.pow_add_r in Hs by lia. change (10 ^ 1) with 10 in Hs. lia. }
      lia. }
    assert (Htxt : (digits 1 I ++ "." ++ digits (S k'') s ++ "e" ++ tail) ++ rest
                   = digits 1 I ++ "." ++ digits (S k'') s ++ "e" ++ tail ++ rest)
      by (now rewrite !append_assoc).
    change (match k with 1%nat => digits 1 s ++ "e" ++ tail
                       | _ => digits 1 I ++ "." ++ digits (S k'') s ++ "e" ++ tail end)
      with (digits 1 I ++ "." ++ digits (S k'') s ++ "e" ++ tail).
    rewrite Htxt.
    assert (Hint : read_digits 0 0 (digits 1 I ++ "." ++ digits (S k'') s ++ "e" ++ tail ++ rest)
                   = (I, 1%nat, "." ++ digits (S k'') s ++ "e" ++ tail ++ rest)).
    { rewrite read_digits_number; [f_equal; f_equal; lia | simpl; lia | reflexivity]. }
    assert (Hfr : read_digits 0 0 (digits (S k'') s ++ "e" ++ tail ++ rest)
                  = (s mod 10 ^ Z.of_nat (S k''), S k'', "e" ++ tail ++ rest)).
    { rewrite read_digits_digits. now apply read_digits_stop. }
    exists (digit_char ((I / 10 ^ Z.of_nat 0) mod 10)),
           ("." ++ digits (S k'') s ++ "e" ++ tail ++ rest).
    split; [reflexivity|].
    split; [rewrite digit_value_char by apply digit_range; congruence|].
    eapply parse_unsigned_parts.
    + apply parse_int_single. exact Hint.
    + cbn [append parse_frac]. apply some_digits_read. exact Hfr.
    + apply (Hexp' tail eq_refl).
    + replace (n - 1 - Z.of_nat (S k'')) with (n - Z.of_nat k) by (unfold k; lia).
      f_equal. unfold I. rewrite HkI.
      pose proof (Z.div_mod s (10 ^ Z.of_nat (S k'')) ltac:(lia)). lia.
Qed.

(** The text of a finite number other than zero reads back as that
    number. *)
Lemma parse_number_text (negative : bool) (m e : Z) (ok : canonical m e = true)
    (rest : string) :
  m <> 0 -> delimited rest = true ->
  parse_number (NumberToString (Finite negative m e ok) ++ rest)
  = Some (JNumber (Finite negative m e ok), rest).
Proof.
  intros Hm Hrest. cbn [NumberToString].
  assert (Hz : (m =? 0) = false) by now apply Z.eqb_neq.
  rewrite Hz. pose proof (digits_of_denotes m e ok Hm) as Hd.
  destruct (digits_of m e) as [[s n] k]. destruct Hd as (Hk & Hs & Hreads).
  destruct (parse_unsigned_format negative s n k rest Hk Hs Hrest)
    as (c & text & Htext & Hc & Hparse).
  assert (Hvalue : of_decimal negative s (n - Z.of_nat k) = Finite negative m e ok).
  { unfold of_decimal. unfold reads_as in Hreads.
    destruct (scaled s (n - Z.of_nat k)) as [p d].
    destruct (nearest p d) as [[m' e']|]; [|discriminate Hreads].
    apply andb_prop in Hreads. destruct Hreads as [H1 H2].
    apply Z.eqb_eq in H1, H2. subst m' e'. apply finite_canonical. }
  rewrite Hvalue in Hparse. rewrite append_assoc.
  destruct negative; cbn [append].
  - exact Hparse.
  - rewrite Htext in Hparse |- *.
    destruct (digit_value c) as [d|] eqn:Hdc; [|congruence].
    now rewrite (parse_number_digit c text d Hdc).
Qed.

Lemma parse_number_zero (rest : string) :
  delimited rest = true ->
  parse_number ("0" ++ rest) = Some (JNumber (of_Z 0), rest).
Proof.
  intros Hrest. destruct (delimited_follows rest Hrest) as (Hstop & Hfrac & Hexp).
  cbn [append]. rewrite (parse_number_digit "0" rest 0 eq_refl).
  change (of_Z 0) with (of_decimal false 0 0).
  eapply parse_unsigned_parts with (i := 0); [|exact Hfrac|exact Hexp|reflexivity].
  apply parse_int_single.
  transitivity (read_digits 0 1 rest); [reflexivity|]. now apply read_digits_stop.
Qed.

(** The text of a finite number starts with a minus sign or a digit. *)
Lemma number_text_head (negative : bool) (m e : Z) (ok : canonical m e = true) :
  exists c text,
    NumberToString (Finite negative m e ok) = String c text
    /\ (c = "-"%char \/ digit_value c <> None).
Proof.
  cbn [NumberToString]. destruct (m =? 0) eqn:Hz.
  - exists "0"%char, "". split; [reflexivity | right; discriminate].
  - apply Z.eqb_neq in Hz. pose proof (digits_of_denotes m e ok Hz) as Hd.
    destruct (digits_of m e) as [[s n] k]. destruct Hd as (Hk & Hs & _).
    destruct (parse_unsigned_format false s n k "" Hk Hs eq_refl) as (c & text & Ht & Hc & _).
    rewrite append_nil_r in Ht. destruct negative; cbn [append].
    + exists "-"%char, (format s n k). split; [reflexivity | now left].
    + exists c, text. split; [exact Ht | now right].
Qed.

Lemma of_Z_zero : of_Z 0 = Finite false 0 (-1074) eq_refl.
Proof. vm_compute. reflexivity. Qed.

End NumberFacts.

(** * Facts about own properties *)

Module ObjectFacts.
Import NumberFacts.

Lemma existsb_eqb_In (k : string) (l : list string) :
  existsb (String.eqb k) l = true <-> In k l.
Proof.
  rewrite existsb_exists. split.
  - intros (x & Hx & He). apply String.eqb_eq in He. now subst.
  - intros H. exists k. split; [exact H | apply String.eqb_refl].
Qed.

Lemma obj_get_define (o : JsObject) (k k' : string) (v : JsValue) :
  obj_get (obj_define o k v) k' = if String.eqb k k' then Some v else obj_get o k'.
Proof.
  induction o as [|[k0 v0] o IH]; simpl.
  - reflexivity.
  - destruct (String.eqb k0 k) eqn:H0; simpl.
    + apply String.eqb_eq in H0. subst k0. destruct (String.eqb k k'); reflexivity.
    + destruct (precedes k k0); simpl.
      * destruct (String.eqb k k'); reflexivity.
      * rewrite IH. destruct (String.eqb k k') eqn:H1; [|reflexivity].
        apply String.eqb_eq in H1. subst k'. now rewrite H0.
Qed.

(** **** The order of the keys *)

Lemma listed_before_spec (k k' : string) :
  listed_before k k' = true <-> k <> k' /\ precedes k' k = false.
Proof.
  unfold listed_before. rewrite andb_true_iff, !negb_true_iff.
  now rewrite String.eqb_neq.
Qed.

Lemma precedes_index (k k' : string) : precedes k k' = true -> is_index k = true.
Proof. unfold precedes, is_index. destruct (array_index k); [reflexivity|discriminate]. Qed.

Lemma precedes_neq (k k' : string) : precedes k k' = true -> k <> k'.
Proof.
  unfold precedes. intros H <-. destruct (array_index k); [|discriminate].
  apply Z.ltb_lt in H. lia.
Qed.

(** A key that goes before [k'] goes before whatever [k'] goes before. *)
Lemma precedes_listed_before (k k' k'' : string) :
  precedes k k' = true -> listed_before k' k'' = true -> listed_before k k'' = true.
Proof.
  intros Hp Hl. apply listed_before_spec in Hl. destruct Hl as [_ Hl].
  apply listed_before_spec. unfold precedes in *.
  destruct (array_index k) as [i|] eqn:Hk; [|discriminate].
  destruct (array_index k'') as [j2|] eqn:Hk''.
  - destruct (array_index k') as [j|]; [|discriminate].
    apply Z.ltb_lt in Hp. apply Z.ltb_ge in Hl. split.
    + intros ->. rewrite Hk in Hk''. injection Hk'' as <-. lia.
    + apply Z.ltb_ge. lia.
  - split; [intros ->; congruence | reflexivity].
Qed.

Lemma listed_In (k : string) (ks : list string) :
  listed (k :: ks) = true <->
  (forall k', In k' ks -> listed_before k k' = true) /\ listed ks = true.
Proof. simpl. now rewrite andb_true_iff, forallb_forall. Qed.

Lemma obj_keys_define_In {A : Type} (o : list (string * A)) (k x : string) (v : A) :
  In x (map fst (obj_define o k v)) -> x = k \/ In x (map fst o).
Proof.
  induction o as [|[k0 v0] o IH]; simpl.
  - intros [<-|[]]. now left.
  - destruct (String.eqb k0 k) eqn:H0; simpl; [tauto|].
    destruct (precedes k k0); simpl; [intuition congruence|].
    intros [H|H]; [tauto|]. destruct (IH H); tauto.
Qed.

Lemma In_obj_keys_define {A : Type} (o : list (string * A)) (k x : string) (v : A) :
  x = k \/ In x (map fst o) -> In x (map fst (obj_define o k v)).
Proof.
  induction o as [|[k0 v0] o IH]; simpl.
  - intros [->|[]]. now left.
  - destruct (String.eqb k0 k) eqn:H0; simpl.
    + apply String.eqb_eq in H0. subst k0. intuition congruence.
    + destruct (precedes k k0); simpl; [intuition congruence|].
      intros [H|[H|H]]; auto.
Qed.

(** [CreateDataProperty] keeps the keys in the order of the listing. *)
Lemma listed_define {A : Type} (o : list (string * A)) (k : string) (v : A) :
  listed (map fst o) = true -> listed (map fst (obj_define o k v)) = true.
Proof.
  induction o as [|[k0 v0] o IH]; intros H; [reflexivity|].
  cbn [map fst] in H. pose proof H as H'. apply listed_In in H'. destruct H' as [Hk0 Ho].
  cbn [obj_define]. destruct (String.eqb k0 k) eqn:H0; [exact H|].
  apply String.eqb_neq in H0.
  destruct (precedes k k0) eqn:Hp.
  - cbn [map fst]. apply listed_In. split; [|exact H].
    intros k' [<-|Hin].
    + apply listed_before_spec. split; [now apply precedes_neq|].
      unfold precedes in *. destruct (array_index k); [|discriminate].
      destruct (array_index k0); [|reflexivity].
      apply Z.ltb_lt in Hp. apply Z.ltb_ge. lia.
    + eapply precedes_listed_before; [exact Hp | now apply Hk0].
  - cbn [map fst]. apply listed_In. split; [|now apply IH].
    intros k' Hin. apply obj_keys_define_In in Hin. destruct Hin as [->|Hin].
    + apply listed_before_spec. split; assumption.
    + now apply Hk0.
Qed.

(** A key that every key of the object may go before is added at the
    end. *)
Lemma obj_define_last {A : Type} (o : list (string * A)) (k : string) (v : A) :
  (forall k', In k' (map fst o) -> listed_before k' k = true) ->
  obj_define o k v = (o ++ [(k, v)])%list.
Proof.
  induction o as [|[k0 v0] o IH]; intros H; [reflexivity|].
  cbn [obj_define]. pose proof (H k0 (or_introl eq_refl)) as H0.
  apply listed_before_spec in H0. destruct H0 as [Hne Hp].
  apply String.eqb_neq in Hne. rewrite Hne, Hp.
  simpl. f_equal. apply IH. intros k' Hin. apply H. now right.
Qed.

Lemma listed_app_before (l1 l2 : list string) (k : string) :
  listed (l1 ++ k :: l2) = true -> forall k', In k' l1 -> listed_before k' k = true.
Proof.
  induction l1 as [|x l1 IH]; intros H k' Hin; [destruct Hin|].
  cbn [List.app] in H. apply listed_In in H. destruct H as [Hx Hl].
  destruct Hin as [<-|Hin]; [|now apply IH].
  apply Hx. apply in_or_app. right. now left.
Qed.

Lemma listed_app_remove (l1 l2 : list string) (k : string) :
  listed (l1 ++ k :: l2) = true -> listed (l1 ++ l2) = true.
Proof.
  induction l1 as [|x l1 IH]; intros H.
  - cbn [List.app] in *. apply listed_In in H. tauto.
  - cbn [List.app] in *. apply listed_In in H. destruct H as [Hx Hl].
    apply listed_In. split; [|now apply IH].
    intros k' Hin. apply Hx. apply in_app_or in Hin. apply in_or_app.
    destruct Hin; [now left | right; now right].
Qed.

Lemma listed_NoDup (ks : list string) : listed ks = true -> NoDup ks.
Proof.
  induction ks as [|k ks IH]; intros H; [constructor|].
  apply listed_In in H. destruct H as [Hk Hl]. constructor; [|now apply IH].
  intros Hin. specialize (Hk k Hin). apply listed_before_spec in Hk. now destruct Hk.
Qed.

(** The properties defined one after the other in the order of the
    listing are listed as they were defined. *)
Lemma fold_define_listed {A : Type} (ps acc : list (string * A)) :
  listed (map fst (acc ++ ps)) = true ->
  fold_left (fun o kv => obj_define o (fst kv) (snd kv)) ps acc = (acc ++ ps)%list.
Proof.
  revert acc. induction ps as [|[k v] ps IH]; intros acc H.
  - simpl. now rewrite app_nil_r.
  - cbn [fold_left fst snd]. rewrite obj_define_last.
    + rewrite IH; rewrite <- app_assoc; [reflexivity | exact H].
    + rewrite map_app in H. cbn [map fst] in H. now apply listed_app_before with (l2 := map fst ps).
Qed.

Lemma own_properties_listed {A : Type} (ps : list (string * A)) :
  listed (map fst ps) = true -> own_properties ps = ps.
Proof. intros H. unfold own_properties. now rewrite fold_define_listed. Qed.

Lemma fold_define_is_listed {A : Type} (ps acc : list (string * A)) :
  listed (map fst acc) = true ->
  listed (map fst (fold_left (fun o kv => obj_define o (fst kv) (snd kv)) ps acc)) = true.
Proof.
  revert acc. induction ps as [|[k v] ps IH]; intros acc H; [exact H|].
  cbn [fold_left]. apply IH. now apply listed_define.
Qed.

Lemma listed_own_properties {A : Type} (ps : list (string * A)) :
  listed (map fst (own_properties ps)) = true.
Proof. now apply fold_define_is_listed. Qed.

(** **** Properties and their values *)

Lemma In_obj_define {A : Type} (o : list (string * A)) (k : string) (v : A)
    (kv : string * A) :
  In kv (obj_define o k v) -> kv = (k, v) \/ In kv o.
Proof.
  induction o as [|[k0 v0] o IH]; simpl.
  - intros [<-|[]]. now left.
  - destruct (String.eqb k0 k) eqn:H0.
    + apply String.eqb_eq in H0. subst k0. simpl. intuition.
    + destruct (precedes k k0); simpl; [intuition|].
      intros [H|H]; [tauto|]. destruct (IH H); tauto.
Qed.

Lemma In_own_properties {A : Type} (ps : list (string * A)) (kv : string * A) :
  In kv (own_properties ps) -> In kv ps.
Proof.
  unfold own_properties.
  assert (H : forall acc, In kv (fold_left (fun o kv => obj_define o (fst kv) (snd kv)) ps acc)
                          -> In kv acc \/ In kv ps).
  { induction ps as [|[k v] ps IH]; intros acc Hin; [now left|].
    cbn [fold_left fst snd] in Hin. destruct (IH _ Hin) as [Hacc|Hps]; [|right; now right].
    apply In_obj_define in Hacc. destruct Hacc as [->|Hacc]; [right; now left | now left]. }
  intros Hin. destruct (H [] Hin) as [[]|Hps]. exact Hps.
Qed.

Lemma obj_define_map {A B : Type} (f : A -> B) (o : list (string * A)) (k : string) (v : A) :
  obj_define (map (fun kv => (fst kv, f (snd kv))) o) k (f v)
  = map (fun kv => (fst kv, f (snd kv))) (obj_define o k v).
Proof.
  induction o as [|[k0 v0] o IH]; [reflexivity|].
  cbn [map obj_define fst snd]. destruct (String.eqb k0 k); [reflexivity|].
  destruct (precedes k k0); [reflexivity|]. now rewrite IH.
Qed.

(** The order of the properties does not depend on what they hold. *)
Lemma own_properties_map {A B : Type} (f : A -> B) (ps : list (string * A)) :
  own_properties (map (fun kv => (fst kv, f (snd kv))) ps)
  = map (fun kv => (fst kv, f (snd kv))) (own_properties ps).
Proof.
  unfold own_properties. change (@nil (string * B)) with
    (map (fun kv : string * A => (fst kv, f (snd kv))) []).
  generalize (@nil (string * A)) as acc.
  induction ps as [|[k v] ps IH]; intros acc; [reflexivity|].
  cbn [map fold_left fst snd]. rewrite obj_define_map. apply IH.
Qed.

(** **** Where a new key goes *)

Lemma obj_keys_define_present {A : Type} (o : list (string * A)) (k : string) (v : A) :
  listed (map fst o) = true -> In k (map fst o) ->
  map fst (obj_define o k v) = map fst o.
Proof.
  induction o as [|[k0 v0] o IH]; intros Hl Hin; [destruct Hin|].
  cbn [map fst] in Hl, Hin. apply listed_In in Hl. destruct Hl as [Hk0 Ho].
  cbn [obj_define]. destruct (String.eqb k0 k) eqn:H0; [reflexivity|].
  apply String.eqb_neq in H0. destruct Hin as [Hin|Hin]; [congruence|].
  specialize (Hk0 k Hin). apply listed_before_spec in Hk0. destruct Hk0 as [_ Hp].
  rewrite Hp. cbn [map fst]. f_equal. now apply IH.
Qed.

Lemma obj_keys_define_other {A : Type} (o : list (string * A)) (k : string) (v : A) :
  is_index k = false -> ~ In k (map fst o) ->
  map fst (obj_define o k v) = (map fst o ++ [k])%list.
Proof.
  intros Hk. induction o as [|[k0 v0] o IH]; intros Hin; [reflexivity|].
  cbn [obj_define map fst] in *.
  assert (H0 : String.eqb k0 k = false)
    by (apply String.eqb_neq; intros ->; apply Hin; now left).
  rewrite H0.
  assert (Hp : precedes k k0 = false).
  { unfold precedes, is_index in *. destruct (array_index k); [discriminate|reflexivity]. }
  rewrite Hp. cbn [map fst List.app]. f_equal. apply IH. intros H. apply Hin. now right.
Qed.

Lemma obj_keys_define_index {A : Type} (o : list (string * A)) (k : string) (v : A) :
  ~ In k (map fst o) ->
  exists l1 l2, map fst o = (l1 ++ l2)%list
                /\ map fst (obj_define o k v) = (l1 ++ k :: l2)%list.
Proof.
  induction o as [|[k0 v0] o IH]; intros Hin.
  - exists [], []. split; reflexivity.
  - cbn [obj_define map fst] in *.
    assert (H0 : String.eqb k0 k = false)
      by (apply String.eqb_neq; intros ->; apply Hin; now left).
    rewrite H0. destruct (precedes k k0).
    + exists [], (k0 :: map fst o). split; reflexivity.
    + destruct IH as (l1 & l2 & H1 & H2); [intros H; apply Hin; now right|].
      exists (k0 :: l1), l2. cbn [map fst List.app]. now rewrite H1, H2.
Qed.

(** Keys in the order of the listing: the array indices first. *)
Lemma listed_split (ks : list string) :
  listed ks = true ->
  ks = (filter is_index ks ++ filter (fun k => negb (is_index k)) ks)%list.
Proof.
  induction ks as [|k ks IH]; intros H; [reflexivity|].
  apply listed_In in H. destruct H as [Hk Hl]. specialize (IH Hl).
  cbn [filter]. destruct (is_index k) eqn:Hi; cbn [negb List.app].
  - now f_equal.
  - assert (Hnone : filter is_index ks = []).
    { clear IH. induction ks as [|k' ks IHk]; [reflexivity|].
      cbn [filter]. pose proof (Hk k' (or_introl eq_refl)) as Hb.
      apply listed_before_spec in Hb. destruct Hb as [_ Hp].
      apply listed_In in Hl. destruct Hl as [_ Hl].
      destruct (is_index k') eqn:Hi'.
      - exfalso. unfold precedes, is_index in *.
        destruct (array_index k'); [|discriminate].
        destruct (array_index k); discriminate.
      - apply IHk; [|exact Hl]. intros x Hx. apply Hk. now right. }
    rewrite Hnone in IH |- *. cbn [List.app] in *. now f_equal.
Qed.

(** **** Array indices *)

Lemma digit_char_value (c : ascii) (d : Z) :
  digit_value c = Some d -> digit_char d = c /\ 0 <= d <= 9.
Proof.
  destruct c as [[] [] [] [] [] [] [] []]; intros H; try discriminate H;
    injection H as <-; split; (reflexivity || (simpl; lia)).
Qed.

Lemma digits_high (w : nat) : forall x y : Z, digits w (y * 10 ^ Z.of_nat w + x) = digits w x.
Proof.
  induction w as [|w IH]; intros x y; [reflexivity|].
  cbn [digits].
  assert (Hp : 0 < 10 ^ Z.of_nat w) by (apply Z.pow_pos_nonneg; lia).
  replace (y * 10 ^ Z.of_nat (S w) + x) with (y * 10 * 10 ^ Z.of_nat w + x)
    by (rewrite Nat2Z.inj_succ, Z.pow_succ_r by lia; ring).
  rewrite IH. f_equal. f_equal.
  rewrite Z.div_add_l by lia. rewrite Z.add_comm, Z_mod_plus_full. reflexivity.
Qed.

(** A text made of digits spells its value. *)
Lemma read_digits_all (s : string) :
  forall (acc : Z) (count : nat) (v : Z) (count' : nat),
    read_digits acc count s = (v, count', "") ->
    exists (x : Z) (len : nat),
      count' = (count + len)%nat /\ v = acc * 10 ^ Z.of_nat len + x
      /\ 0 <= x < 10 ^ Z.of_nat len /\ s = digits len x.
Proof.
  induction s as [|c s IH]; intros acc count v count' H.
  - injection H as <- <-. exists 0, O. repeat split; try reflexivity; try lia.
  - cbn [read_digits] in H. destruct (digit_value c) as [d|] eqn:Hc; [|discriminate H].
    destruct (digit_char_value c d Hc) as [Hchar Hd].
    destruct (IH _ _ _ _ H) as (x & len & -> & -> & Hx & ->).
    assert (Hp : 0 < 10 ^ Z.of_nat len) by (apply Z.pow_pos_nonneg; lia).
    exists (d * 10 ^ Z.of_nat len + x), (S len).
    rewrite Nat2Z.inj_succ, Z.pow_succ_r by lia.
    split; [lia|]. split; [ring|]. split; [nia|].
    cbn [digits]. rewrite digits_high. f_equal.
    rewrite Z.div_add_l by lia. rewrite (Z.div_small x) by lia.
    rewrite Z.add_0_r, Z.mod_small by lia. now symmetry.
Qed.

(** An array index is the decimal text of its value: [0], or digits of
    which the first is not a zero. *)
Lemma array_index_text (k : string) (i : Z) :
  array_index k = Some i ->
  exists len : nat,
    k = digits (S len) i /\ 0 <= i < 10 ^ Z.of_nat (S len)
    /\ (len = O \/ 10 ^ Z.of_nat len <= i).
Proof.
  unfold array_index. destruct k as [|c rest]; [discriminate|].
  destruct (Ascii.eqb c "0" && negb (String.eqb rest "")) eqn:Hzero; [discriminate|].
  destruct (read_digits 0 0 (String c rest)) as [[v count] tail] eqn:Hread.
  destruct tail; [|discriminate]. destruct (v <? 2 ^ 32 - 1); [|discriminate].
  intros [= ->]. destruct (read_digits_all _ _ _ _ _ Hread) as (x & len & _ & Hv & Hx & Hk).
  assert (x = i) by lia. subst x.
  destruct len as [|len]; [discriminate Hk|]. exists len.
  split; [exact Hk|]. split; [exact Hx|].
  cbn [digits] in Hk. injection Hk as Hc Hrest.
  apply andb_false_iff in Hzero. destruct Hzero as [Hzero|Hzero].
  - right. assert (Hp : 0 < 10 ^ Z.of_nat len) by (apply Z.pow_pos_nonneg; lia).
    destruct (Z.lt_ge_cases i (10 ^ Z.of_nat len)) as [Hlt|Hge]; [|exact Hge].
    rewrite Z.div_small in Hc by lia. subst c. discriminate Hzero.
  - left. apply negb_false_iff, String.eqb_eq in Hzero. subst rest.
    destruct len; [reflexivity | discriminate Hrest].
Qed.

(** Two array indices of one value are one key. *)
Lemma array_index_inj (k k' : string) (i : Z) :
  array_index k = Some i -> array_index k' = Some i -> k = k'.
Proof.
  intros H H'. destruct (array_index_text k i H) as (len & -> & Hi & Hlen).
  destruct (array_index_text k' i H') as (len' & -> & Hi' & Hlen').
  assert (len = len'); [|now subst].
  rewrite !Nat2Z.inj_succ, !Z.pow_succ_r in * by lia.
  destruct (Nat.lt_trichotomy len len') as [Hlt|[Heq|Hgt]]; [|exact Heq|]; exfalso.
  - destruct Hlen' as [->|Hlen']; [lia|].
    assert (10 ^ Z.of_nat (S len) <= 10 ^ Z.of_nat len') by (apply Z.pow_le_mono_r; lia).
    rewrite Nat2Z.inj_succ, Z.pow_succ_r in * by lia. lia.
  - destruct Hlen as [->|Hlen]; [lia|].
    assert (10 ^ Z.of_nat (S len') <= 10 ^ Z.of_nat len) by (apply Z.pow_le_mono_r; lia).
    rewrite Nat2Z.inj_succ, Z.pow_succ_r in * by lia. lia.
Qed.

(** Keys listed in order: the array indices ascend. *)
Lemma listed_ascending (ks : list string) :
  listed ks = true -> StronglySorted (fun k k' => precedes k k' = true) (filter is_index ks).
Proof.
  induction ks as [|k ks IH]; intros H; [constructor|].
  apply listed_In in H. destruct H as [Hk Hl]. cbn [filter].
  destruct (is_index k) eqn:Hi; [|now apply IH].
  constructor; [now apply IH|]. apply Forall_forall. intros k' Hin.
  apply filter_In in Hin. destruct Hin as [Hin Hi'].
  specialize (Hk k' Hin). apply listed_before_spec in Hk. destruct Hk as [Hne Hp].
  unfold precedes, is_index in *.
  destruct (array_index k) as [i|] eqn:Ei; [|discriminate].
  destruct (array_index k') as [j|] eqn:Ej; [|discriminate].
  apply Z.ltb_ge in Hp. apply Z.ltb_lt.
  destruct (Z.eq_dec i j) as [->|Hij]; [|lia].
  exfalso. apply Hne. eapply array_index_inj; eassumption.
Qed.

End ObjectFacts.

(** * Facts about the JSON codec *)

Module JSONFacts.
Import JSON.
Export NumberFacts ObjectFacts.

(** **** String literals *)

Lemma parse_chars_escape_char (c : ascii) (t : string) :
  parse_chars (escape_char c ++ t) = push c (parse_chars t).
Proof.
  destruct c as [[] [] [] [] [] [] [] []]; reflexivity.
Qed.

Lemma parse_chars_escape (s rest : string) :
  parse_chars (escape s ++ String dquote rest) = Some (s, rest).
Proof.
  induction s as [|c s IH]; simpl.
  - reflexivity.
  - rewrite append_assoc, parse_chars_escape_char, IH. reflexivity.
Qed.

Lemma parse_chars_quoted (s rest : string) :
  parse_chars (escape s ++ String dquote "" ++ rest) = Some (s, rest).
Proof. apply parse_chars_escape. Qed.

(** **** Number literals *)

Lemma parse_value_number_head (fuel : nat) (c : ascii) (text : string) :
  c = "-"%char \/ digit_value c <> None ->
  parse_value (S fuel) (String c text) = parse_number (String c text).
Proof.
  intros [->|H]; [reflexivity|].
  destruct c as [[] [] [] [] [] [] [] []]; try reflexivity; now contradiction H.
Qed.

Lemma parse_value_number (fuel : nat) (n : JsNumber) (rest : string) :
  delimited rest = true ->
  parse_value (S fuel) (number_text n ++ rest) = Some (revive_number n, rest).
Proof.
  intros Hrest. destruct n as [| | |negative m e ok]; try reflexivity.
  cbn [number_text revive_number].
  destruct (number_text_head negative m e ok) as (c & text & Ht & Hc).
  assert (Hv : parse_value (S fuel) (NumberToString (Finite negative m e ok) ++ rest)
               = parse_number (NumberToString (Finite negative m e ok) ++ rest)).
  { rewrite Ht. cbn [append]. now apply parse_value_number_head. }
  rewrite Hv. destruct (m =? 0) eqn:Hz.
  - cbn [NumberToString]. rewrite Hz. now apply parse_number_zero.
  - apply Z.eqb_neq in Hz. now apply parse_number_text.
Qed.

(** **** Arrays and objects *)

Lemma text_opens (v : JsValue) (rest : string) :
  closes "]" (SerializeJSON v ++ rest) = None.
Proof.
  destruct v as [| |[]|n|s|l|ps]; try reflexivity.
  destruct n as [| | |negative m e ok]; try reflexivity.
  cbn [SerializeJSON number_text].
  destruct (number_text_head negative m e ok) as (c & text & -> & [->|Hc]); [reflexivity|].
  cbn [append closes]. destruct (Ascii.eqb c "]") eqn:H; [|reflexivity].
  apply Ascii.eqb_eq in H. subst c. now contradiction Hc.
Qed.

Lemma join_cons (sep x : string) (l : list string) :
  join sep (x :: l) = x ++ match l with [] => "" | _ => sep ++ join sep l end.
Proof.
  destruct l; simpl; [|reflexivity].
  induction x as [|c x IH]; simpl; [reflexivity | now rewrite <- IH].
Qed.

Section Elements.
Variable pv : string -> option (JsValue * string).

Lemma parse_elements_text (l : list JsValue) :
  Forall (fun e => forall rest, delimited rest = true ->
                   pv (SerializeJSON e ++ rest) = Some (revive e, rest)) l ->
  l <> [] ->
  forall (n : nat) (rest : string),
    (List.length l <= n)%nat ->
    parse_elements pv n (join "," (map SerializeJSON l) ++ String "]" rest)
    = Some (map revive l, rest).
Proof.
  induction 1 as [|e l He Hl IH]; intros Hne n rest Hn; [congruence|].
  destruct n as [|n]; simpl in Hn; [lia|].
  cbn [map]. rewrite join_cons, append_assoc. cbn [parse_elements].
  destruct l as [|e' l].
  - simpl. rewrite He by reflexivity. reflexivity.
  - cbn [map]. cbv iota. rewrite append_assoc. rewrite He by reflexivity.
    cbn [append]. change (Ascii.eqb "," ",") with true. cbv iota.
    cbn [map] in IH. rewrite IH; [reflexivity | congruence | simpl in Hn |- *; lia].
Qed.

Lemma fold_keep_undefined (ps : JsObject) (acc : JsObject) :
  flat_map member ps = [] -> fold_left keep ps acc = acc.
Proof.
  induction ps as [|kv ps IH]; simpl; intros H; [reflexivity|].
  unfold member at 1 in H. unfold keep at 2.
  destruct (is_undefined (snd kv)); [auto | discriminate H].
Qed.

Lemma parse_members_text (ps : JsObject) :
  Forall (fun kv => is_undefined (snd kv) = false ->
                    forall rest, delimited rest = true ->
                    pv (SerializeJSON (snd kv) ++ rest) = Some (revive (snd kv), rest)) ps ->
  forall (n : nat) (rest : string) (acc : JsObject),
    flat_map member ps <> [] ->
    (List.length (flat_map member ps) <= n)%nat ->
    parse_members pv n (join "," (flat_map member ps) ++ String "}" rest) acc
    = Some (fold_left keep ps acc, rest).
Proof.
  induction 1 as [|kv ps Hkv Hps IH]; intros n rest acc Hne Hn; [now simpl in Hne|].
  cbn [flat_map fold_left] in *.
  assert (Hm : member kv = if is_undefined (snd kv) then []
                           else [QuoteJSONString (fst kv) ++ ":" ++ SerializeJSON (snd kv)])
    by reflexivity.
  assert (Hk : keep acc kv = if is_undefined (snd kv) then acc
                             else obj_define acc (fst kv) (revive (snd kv)))
    by reflexivity.
  rewrite Hk. rewrite Hm in Hne, Hn |- *. clear Hm Hk.
  destruct (is_undefined (snd kv)); [|specialize (Hkv eq_refl)].
  - simpl in *. now apply IH.
  - cbn [List.app] in *. destruct n as [|n]; simpl in Hn; [lia|].
    rewrite join_cons, !append_assoc.
    unfold QuoteJSONString. cbn [append parse_members].
    change (Ascii.eqb dquote dquote) with true. cbv iota.
    rewrite !append_assoc. rewrite parse_chars_quoted.
    change (Ascii.eqb ":" ":") with true. cbv iota.
    destruct (flat_map member ps) as [|m ms] eqn:E.
    + cbn [append]. rewrite Hkv by reflexivity.
      simpl. rewrite fold_keep_undefined by exact E. reflexivity.
    + cbn [append]. rewrite Hkv by reflexivity.
      change (Ascii.eqb "," ",") with true. cbv iota.
      apply IH; [congruence | simpl in Hn |- *; lia].
Qed.
End Elements.

(** **** An object and its properties *)

Lemma object_text (ps : JsObject) :
  SerializeJSON (JObject ps) = "{" ++ join "," (flat_map member (own_properties ps)) ++ "}".
Proof.
  cbn [SerializeJSON].
  rewrite (own_properties_map
             (fun v => if is_undefined v then None else Some (SerializeJSON v)) ps).
  do 3 f_equal. rewrite flat_map_concat_map, map_map, <- flat_map_concat_map.
  apply flat_map_ext. intros [k v]. unfold entry, member. cbn [fst snd].
  destruct (is_undefined v); reflexivity.
Qed.

Lemma object_size (ps : JsObject) :
  json_size (JObject ps) = S (list_sum (map member_size (own_properties ps))).
Proof.
  cbn [json_size].
  rewrite (own_properties_map (fun v => if is_undefined v then O else json_size v) ps).
  now rewrite map_map.
Qed.

(** The properties that are written, as they read back. *)
Lemma object_revive_listed (ps : JsObject) :
  revive (JObject ps)
  = JObject (flat_map (fun kv => if is_undefined (snd kv) then []
                                 else [(fst kv, revive (snd kv))])
                      (own_properties ps)).
Proof.
  cbn [revive].
  rewrite (own_properties_map (fun v => if is_undefined v then None else Some (revive v)) ps).
  f_equal. rewrite flat_map_concat_map, map_map, <- flat_map_concat_map.
  apply flat_map_ext. intros [k v]. unfold present. cbn [fst snd].
  destruct (is_undefined v); reflexivity.
Qed.

Lemma fold_keep_listed (ps acc : JsObject) :
  listed (map fst acc ++ map fst ps) = true ->
  fold_left keep ps acc
  = (acc ++ flat_map (fun kv => if is_undefined (snd kv) then []
                                else [(fst kv, revive (snd kv))]) ps)%list.
Proof.
  revert acc. induction ps as [|[k v] ps IH]; intros acc H.
  - simpl. now rewrite app_nil_r.
  - cbn [fold_left flat_map map fst snd] in *. unfold keep at 2. cbn [fst snd].
    destruct (is_undefined v).
    + cbn [List.app]. apply IH. now apply listed_app_remove in H.
    + rewrite obj_define_last by (now apply listed_app_before with (l2 := map fst ps)).
      rewrite IH; rewrite ?map_app, <- ?app_assoc; [reflexivity | exact H].
Qed.

(** What [JSON.parse] builds from the members of the text. *)
Lemma object_revive (ps : JsObject) :
  revive (JObject ps) = JObject (fold_left keep (own_properties ps) []).
Proof.
  rewrite object_revive_listed, fold_keep_listed; [reflexivity|].
  apply listed_own_properties.
Qed.

(** **** Fuel *)

Lemma json_size_pos (v : JsValue) : (1 <= json_size v)%nat.
Proof. destruct v; simpl; lia. Qed.

Lemma length_le_sum (l : list JsValue) :
  (List.length l <= list_sum (map json_size l))%nat.
Proof.
  induction l as [|e l IH]; simpl; [lia|].
  pose proof (json_size_pos e). lia.
Qed.

Lemma members_le_sum (ps : JsObject) :
  (List.length (flat_map member ps) <= list_sum (map member_size ps))%nat.
Proof.
  induction ps as [|kv ps IH]; simpl; [lia|].
  rewrite length_app. unfold member at 1, member_size at 1.
  destruct (is_undefined (snd kv)); simpl; [lia|].
  pose proof (json_size_pos (snd kv)). lia.
Qed.

(** **** A value and its text *)

Lemma Forall_own_properties (P : string * JsValue -> Prop) (ps : JsObject) :
  Forall P ps -> Forall P (own_properties ps).
Proof.
  rewrite !Forall_forall. intros H kv Hin. apply H. now apply In_own_properties.
Qed.

Lemma parse_value_text (v : JsValue) :
  forall (fuel : nat) (rest : string),
    (json_size v <= fuel)%nat -> delimited rest = true ->
    parse_value fuel (SerializeJSON v ++ rest) = Some (revive v, rest).
Proof.
  induction v as [| |b|n|s|l IH|ps IH] using JsValue_ind;
    intros [|fuel] rest Hfuel Hrest;
    try (pose proof (json_size_pos JNull); simpl in Hfuel; lia).
  - reflexivity.
  - reflexivity.
  - destruct b; reflexivity.
  - now apply parse_value_number.
  - cbn [SerializeJSON]. unfold QuoteJSONString.
    cbn [append parse_value]. rewrite append_assoc. cbn [append]. change (Ascii.eqb dquote "n") with false.
    change (Ascii.eqb dquote "t") with false.
    change (Ascii.eqb dquote "f") with false.
    change (Ascii.eqb dquote dquote) with true. cbv iota.
    rewrite parse_chars_escape. reflexivity.
  - cbn [SerializeJSON json_size] in *. apply le_S_n in Hfuel.
    destruct l as [|e l]; [reflexivity|].
    set (l' := e :: l) in *.
    assert (Hopen : closes "]" ((join "," (map SerializeJSON l') ++ "]") ++ rest) = None).
    { subst l'. cbn [map]. rewrite join_cons, !append_assoc. apply text_opens. }
    cbn [append parse_value]. change (Ascii.eqb "[" "n") with false.
    change (Ascii.eqb "[" "t") with false. change (Ascii.eqb "[" "f") with false.
    change (Ascii.eqb "[" dquote) with false. change (Ascii.eqb "[" "[") with true.
    cbv iota. rewrite Hopen. rewrite append_assoc. cbn [append].
    rewrite parse_elements_text; [reflexivity | | subst l'; congruence | ].
    + rewrite Forall_forall in IH |- *. intros x Hx rest' Hrest'.
      apply IH; [exact Hx | | exact Hrest'].
      apply in_split in Hx. destruct Hx as (l1 & l2 & ->).
      rewrite map_app, list_sum_app in Hfuel. simpl in Hfuel. lia.
    + pose proof (length_le_sum l'). lia.
  - rewrite object_text, object_revive. rewrite object_size in Hfuel.
    apply le_S_n in Hfuel. apply Forall_own_properties in IH.
    set (cps := own_properties ps) in *. clearbody cps.
    cbn [append parse_value]. change (Ascii.eqb "{" "n") with false.
    change (Ascii.eqb "{" "t") with false. change (Ascii.eqb "{" "f") with false.
    change (Ascii.eqb "{" dquote) with false. change (Ascii.eqb "{" "[") with false.
    change (Ascii.eqb "{" "{") with true. cbv iota.
    destruct (flat_map member cps) as [|m ms] eqn:E.
    + cbn. rewrite fold_keep_undefined by exact E. reflexivity.
    + assert (Hopen : closes "}" ((join "," (m :: ms) ++ "}") ++ rest) = None).
      { rewrite join_cons, !append_assoc.
        assert (Hin : In m (flat_map member cps)) by (rewrite E; now left).
        apply in_flat_map in Hin. destruct Hin as (kv & _ & Hin).
        unfold member in Hin. destruct (is_undefined (snd kv)); [easy|].
        destruct Hin as [<-|[]]. reflexivity. }
      rewrite Hopen. rewrite append_assoc. cbn [append]. rewrite <- E.
      rewrite parse_members_text; [reflexivity | | rewrite E; congruence | ].
      * rewrite Forall_forall in IH |- *. intros kv Hkv Hu rest' Hrest'.
        apply IH; [exact Hkv | | exact Hrest'].
        apply in_split in Hkv. destruct Hkv as (l1 & l2 & ->).
        rewrite map_app, list_sum_app in Hfuel. simpl in Hfuel.
        unfold member_size at 2 in Hfuel. rewrite Hu in Hfuel. lia.
      * pose proof (members_le_sum cps). lia.
Qed.

Lemma number_text_length (n : JsNumber) : (1 <= String.length (number_text n))%nat.
Proof.
  destruct n as [| | |negative m e ok]; try (simpl; lia).
  cbn [number_text]. destruct (number_text_head negative m e ok) as (c & text & -> & _).
  simpl. lia.
Qed.

Lemma elements_length (l : list JsValue) :
  Forall (fun e => (json_size e <= String.length (SerializeJSON e))%nat) l ->
  (list_sum (map json_size l) <= String.length (join "," (map SerializeJSON l)))%nat.
Proof.
  induction 1 as [|e l He Hl IH]; [simpl; lia|].
  cbn [map list_sum]. rewrite join_cons, length_append.
  destruct l as [|e' l]; [simpl in *; lia|].
  cbn [map] in *. cbv iota. rewrite length_append.
  unfold list_sum in *. cbn [fold_right] in *. lia.
Qed.

Lemma members_length (ps : JsObject) :
  Forall (fun kv => (json_size (snd kv) <= String.length (SerializeJSON (snd kv)))%nat) ps ->
  (list_sum (map member_size ps) <= String.length (join "," (flat_map member ps)))%nat.
Proof.
  induction 1 as [|kv ps Hkv Hps IH]; [simpl; lia|].
  cbn [map list_sum flat_map]. unfold member at 1, member_size at 1.
  destruct (is_undefined (snd kv)); [exact IH|].
  cbn [List.app]. rewrite join_cons, !length_append.
  unfold list_sum in *. cbn [fold_right] in *.
  destruct (flat_map member ps); [simpl in *; lia|].
  rewrite length_append. lia.
Qed.

Lemma json_size_le_length (v : JsValue) :
  (json_size v <= String.length (SerializeJSON v))%nat.
Proof.
  induction v as [| |b|n|s|l IH|ps IH] using JsValue_ind.
  - simpl; lia.
  - simpl; lia.
  - destruct b; simpl; lia.
  - apply number_text_length.
  - simpl; lia.
  - cbn [SerializeJSON json_size]. rewrite !length_append.
    pose proof (elements_length l IH). simpl. lia.
  - rewrite object_text, object_size. rewrite !length_append.
    apply Forall_own_properties in IH.
    pose proof (members_length (own_properties ps) IH). simpl. lia.
Qed.

(** What [JSON.parse] makes of the text [JSON.stringify] wrote. *)
Lemma parse_stringify (v : JsValue) (t : string) :
  stringify v = Some t -> parse t = Some (revive v).
Proof.
  intros Ht.
  assert (E : t = SerializeJSON v)
    by (unfold stringify in Ht; destruct v; try discriminate Ht; now injection Ht).
  subst t. unfold parse.
  pose proof (parse_value_text v (S (String.length (SerializeJSON v))) ""
                (le_S _ _ (json_size_le_length v)) eq_refl) as H.
  rewrite append_nil_r in H. now rewrite H.
Qed.

Lemma stringify_nonempty (v : JsValue) (t : string) :
  stringify v = Some t -> t <> "".
Proof.
  intros Ht ->.
  assert (E : "" = SerializeJSON v)
    by (unfold stringify in Ht; destruct v; try discriminate Ht; now injection Ht).
  pose proof (json_size_le_length v) as H. rewrite <- E in H.
  pose proof (json_size_pos v). simpl in H. lia.
Qed.

(** **** Plain values read back unchanged *)

Lemma revive_plain_number (n : JsNumber) : plain_number n = true -> revive_number n = JNumber n.
Proof.
  destruct n as [| | |negative m e ok]; try discriminate. cbn [plain_number revive_number].
  intros Hp. destruct (m =? 0) eqn:Hz; [|reflexivity].
  apply Z.eqb_eq in Hz. subst m. rewrite andb_true_r in Hp. apply negb_true_iff in Hp.
  subst negative. rewrite of_Z_zero. f_equal. apply Finite_ext; [reflexivity|].
  pose proof (canonical_inv 0 e ok) as (_ & _ & [He|He]); [now symmetry|].
  pose proof (Z.pow_pos_nonneg 2 52). lia.
Qed.

Lemma revive_plain (v : JsValue) : plain v = true -> revive v = v.
Proof.
  induction v as [| |b|n|s|l IH|ps IH] using JsValue_ind; intros Hp;
    try reflexivity; try discriminate Hp.
  - now apply revive_plain_number.
  - cbn [revive plain] in *. f_equal.
    induction IH as [|e l He Hl IHl]; [reflexivity|].
    simpl in Hp. apply andb_prop in Hp. destruct Hp as [Hpe Hpl].
    simpl. now rewrite He, IHl.
  - rewrite object_revive_listed. cbn [plain] in Hp.
    apply andb_prop in Hp. destruct Hp as [Hl Hpl].
    rewrite own_properties_listed by exact Hl. f_equal.
    clear Hl. induction IH as [|[k v] ps Hv Hps IHps]; [reflexivity|].
    simpl in Hpl. apply andb_prop in Hpl. destruct Hpl as [Hpv Hpl].
    cbn [flat_map fst snd] in *.
    assert (Hu : is_undefined v = false) by (destruct v; simpl in *; congruence).
    rewrite Hu, Hv by exact Hpv. cbn [List.app]. f_equal. now apply IHps.
Qed.

(** [setCell] of a plain value writes a text that parses back to it. *)
Lemma parse_stringify_plain (v : JsValue) :
  plain v = true -> exists t, stringify v = Some t /\ t <> "" /\ parse t = Some v.
Proof.
  intros Hp. exists (SerializeJSON v).
  assert (Hs : stringify v = Some (SerializeJSON v)) by (destruct v; try reflexivity; discriminate Hp).
  split; [exact Hs|]. split; [eapply stringify_nonempty; exact Hs|].
  rewrite (parse_stringify v _ Hs). now rewrite revive_plain.
Qed.

(** **** What is read back is plain *)

Lemma plain_revive_number (n : JsNumber) : plain (revive_number n) = true.
Proof.
  destruct n as [| | |negative m e ok]; try reflexivity. cbn [revive_number].
  destruct (m =? 0) eqn:Hz; [now rewrite of_Z_zero|].
  cbn [plain plain_number]. rewrite Hz. now rewrite andb_false_r.
Qed.

Lemma listed_kept (ps : JsObject) :
  listed (map fst ps) = true ->
  listed (map fst (flat_map (fun kv => if is_undefined (snd kv) then []
                                       else [(fst kv, revive (snd kv))]) ps)) = true.
Proof.
  induction ps as [|[k v] ps IH]; intros H; [reflexivity|].
  cbn [map fst] in H. apply listed_In in H. destruct H as [Hk Hl].
  cbn [flat_map fst snd]. destruct (is_undefined v); [now apply IH|].
  cbn [List.app map fst]. apply listed_In. split; [|now apply IH].
  intros k' Hin. apply Hk. apply in_map_iff in Hin. destruct Hin as ([k0 v0] & <- & Hin).
  apply in_flat_map in Hin. destruct Hin as ([k1 v1] & Hin1 & Hin).
  cbn [fst snd] in Hin. destruct (is_undefined v1); [destruct Hin|].
  destruct Hin as [[= <- <-]|[]]. apply in_map_iff. now exists (k1, v1).
Qed.

(** What [JSON.parse] rebuilds holds no [undefined], no number that is
    not finite and no negative zero, and lists the properties of every
    object in their order. *)
Lemma plain_revive (v : JsValue) : plain (revive v) = true.
Proof.
  induction v as [| |b|n|s|l IH|ps IH] using JsValue_ind; try reflexivity.
  - apply plain_revive_number.
  - cbn [revive plain]. rewrite forallb_forall. intros e He.
    apply in_map_iff in He. destruct He as (e0 & <- & He0).
    rewrite Forall_forall in IH. now apply IH.
  - rewrite object_revive_listed. cbn [plain].
    rewrite listed_kept by apply listed_own_properties. cbn [andb].
    apply Forall_own_properties in IH. rewrite Forall_forall in IH.
    rewrite forallb_forall. intros [k v] Hin. apply in_flat_map in Hin.
    destruct Hin as ([k1 v1] & Hin1 & Hin). cbn [fst snd] in Hin.
    destruct (is_undefined v1); [destruct Hin|]. destruct Hin as [[= <- <-]|[]].
    exact (IH _ Hin1).
Qed.

End JSONFacts.

(** * Facts about the store *)

Module StoreFacts.
Import JSON JSONFacts DiamantDB Schema.

(** **** The engine's walk *)

Section Walk.
Context {E : Engine}.

Lemma scan_nil (A : Type) : scan (@nil A) = [].
Proof. apply Permutation_nil. apply Permutation_sym, scan_Permutation. Qed.

Lemma scan_one (A : Type) (x : A) : scan [x] = [x].
Proof. apply Permutation_length_1_inv. apply Permutation_sym, scan_Permutation. Qed.

Lemma in_scan (A : Type) (l : list A) (x : A) : In x (scan l) <-> In x l.
Proof.
  split; apply Permutation_in;
    [apply scan_Permutation | apply Permutation_sym, scan_Permutation].
Qed.

Lemma length_scan (A : Type) (l : list A) : List.length (scan l) = List.length l.
Proof. apply Permutation_length, scan_Permutation. Qed.

Lemma stmt_all_In (A : Type) (p : A -> bool) (rel : list A) (x : A) :
  In x (stmt_all p rel) <-> In x rel /\ p x = true.
Proof. unfold stmt_all. rewrite in_scan. apply filter_In. Qed.

Lemma stmt_get_none (A : Type) (p : A -> bool) (rel : list A) :
  (forall x, In x rel -> p x = false) -> stmt_get p rel = None.
Proof.
  intros H. unfold stmt_get, stmt_all.
  replace (filter p rel) with (@nil A); [now rewrite scan_nil|].
  symmetry. induction rel as [|x rel IH]; [reflexivity|].
  simpl. rewrite (H x) by now left. apply IH. intros y Hy. apply H. now right.
Qed.

Lemma stmt_get_some (A : Type) (p : A -> bool) (rel : list A) (x : A) :
  stmt_get p rel = Some x -> In x rel /\ p x = true.
Proof.
  unfold stmt_get. intros H. apply stmt_all_In.
  destruct (stmt_all p rel) as [|y l]; [discriminate H|].
  injection H as ->. now left.
Qed.

Lemma stmt_get_one (A : Type) (p : A -> bool) (rel : list A) (x : A) :
  filter p rel = [x] -> stmt_get p rel = Some x.
Proof. intros H. unfold stmt_get, stmt_all. now rewrite H, scan_one. Qed.

End Walk.

(** **** Keys *)

Lemma filter_none (A : Type) (p : A -> bool) (l : list A) :
  (forall x, In x l -> p x = false) -> filter p l = [].
Proof.
  induction l as [|x l IH]; intros H; [reflexivity|].
  simpl. rewrite (H x) by now left. apply IH. intros y Hy. apply H. now right.
Qed.

(** A predicate that selects by a key without duplicates selects at most
    one row. *)
Lemma filter_key (A K : Type) (key : A -> K) (p : A -> bool) (k : K) (l : list A) :
  (forall y, p y = true <-> key y = k) ->
  NoDup (map key l) ->
  forall x, In x l -> key x = k -> filter p l = [x].
Proof.
  intros Hp. induction l as [|y l IH]; intros Hnd x Hin Hk; [destruct Hin|].
  simpl in Hnd. apply NoDup_cons_iff in Hnd. destruct Hnd as [Hy Hnd'].
  simpl. destruct Hin as [->|Hin].
  - destruct (p x) eqn:Hpx.
    + f_equal. apply filter_none. intros z Hz.
      destruct (p z) eqn:Hpz; [|reflexivity].
      exfalso. apply Hy. apply Hp in Hpz. rewrite Hk, <- Hpz.
      apply in_map. exact Hz.
    + exfalso. assert (p x = true) by now apply Hp. congruence.
  - destruct (p y) eqn:Hpy.
    + exfalso. apply Hy. apply Hp in Hpy. rewrite Hpy, <- Hk.
      apply in_map. exact Hin.
    + now apply IH.
Qed.

Lemma NoDup_map_filter (A K : Type) (key : A -> K) (p : A -> bool) (l : list A) :
  NoDup (map key l) -> NoDup (map key (filter p l)).
Proof.
  induction l as [|x l IH]; simpl; intros H; [exact H|].
  apply NoDup_cons_iff in H. destruct H as [Hx Hl].
  destruct (p x); simpl; [apply NoDup_cons|]; auto.
  intros Hin. apply Hx. apply in_map_iff in Hin. destruct Hin as (y & Hy & Hin).
  apply filter_In in Hin. apply in_map_iff. exists y. tauto.
Qed.

Lemma StronglySorted_lt_NoDup (l : list Z) : StronglySorted Z.lt l -> NoDup l.
Proof.
  induction 1 as [|x l Hl IH Hx]; constructor; [|exact IH].
  intros Hin. rewrite Forall_forall in Hx. specialize (Hx x Hin). lia.
Qed.

Lemma StronglySorted_map_filter (A : Type) (id : A -> Z) (p : A -> bool) (l : list A) :
  StronglySorted Z.lt (map id l) -> StronglySorted Z.lt (map id (filter p l)).
Proof.
  induction l as [|x l IH]; simpl; intros H; [exact H|].
  apply StronglySorted_inv in H. destruct H as [Hl Hx].
  destruct (p x); simpl; [constructor|]; auto.
  rewrite Forall_forall in Hx |- *. intros k Hk. apply Hx.
  apply in_map_iff in Hk. destruct Hk as (y & Hy & Hin).
  apply filter_In in Hin. apply in_map_iff. exists y. tauto.
Qed.

Lemma primary_key_NoDup (A : Type) (id : A -> Z) (rel : list A) (seq : Z) :
  primary_key id rel seq -> NoDup (map id rel).
Proof. intros [Hs _]. now apply StronglySorted_lt_NoDup. Qed.

Lemma primary_key_filter (A : Type) (id : A -> Z) (p : A -> bool) (rel : list A) (seq : Z) :
  primary_key id rel seq -> primary_key id (filter p rel) seq.
Proof.
  intros [Hs Hle]. split; [now apply StronglySorted_map_filter|].
  rewrite Forall_forall in Hle |- *. intros x Hx. apply filter_In in Hx. now apply Hle.
Qed.

Lemma StronglySorted_snoc (l : list Z) (k : Z) :
  StronglySorted Z.lt l -> Forall (fun x => x < k) l -> StronglySorted Z.lt (l ++ [k]).
Proof.
  induction 1 as [|x l Hl IH Hx]; intros Hk; simpl.
  - repeat constructor.
  - apply Forall_cons_iff in Hk. destruct Hk as [Hxk Hk].
    constructor; [now apply IH|].
    apply Forall_app. split; [exact Hx | now repeat constructor].
Qed.

Lemma primary_key_insert (A : Type) (id : A -> Z) (rel : list A) (seq : Z) (x : A) :
  primary_key id rel seq -> id x = seq + 1 -> primary_key id (rel ++ [x]) (seq + 1).
Proof.
  intros [Hs Hle] Hx. split.
  - rewrite map_app. simpl. apply StronglySorted_snoc; [exact Hs|].
    rewrite Forall_map. eapply Forall_impl; [|exact Hle]. simpl. intros; lia.
  - apply Forall_app. split.
    + eapply Forall_impl; [|exact Hle]. simpl. intros; lia.
    + constructor; [lia | constructor].
Qed.

Lemma primary_key_seq (A : Type) (id : A -> Z) (rel : list A) (seq seq' : Z) :
  primary_key id rel seq -> seq <= seq' -> primary_key id rel seq'.
Proof.
  intros [Hnd Hle] Hs. split; [exact Hnd|].
  eapply Forall_impl; [|exact Hle]. simpl. intros; lia.
Qed.

Lemma same_cell_key (r c : Z) (x : cells_rec) :
  same_cell r c x = true <-> cell_key x = (r, c).
Proof.
  unfold same_cell, cell_key. rewrite andb_true_iff, !Z.eqb_eq.
  split; [intros [-> ->]; reflexivity | intros [= -> ->]; auto].
Qed.

Lemma update_cells_keys (r c : Z) (text : option string) (now : Z) (l : list cells_rec) :
  map cell_key (update_cells r c text now l) = map cell_key l
  /\ map cells_id (update_cells r c text now l) = map cells_id l.
Proof.
  unfold update_cells. rewrite !map_map. split; apply map_ext; intros x;
    destruct (same_cell r c x); reflexivity.
Qed.

Lemma existsb_same_cell (r c : Z) (l : list cells_rec) :
  existsb (same_cell r c) l = false -> ~ In (r, c) (map cell_key l).
Proof.
  intros H Hin. apply in_map_iff in Hin. destruct Hin as (x & Hx & Hin).
  apply same_cell_key in Hx.
  assert (existsb (same_cell r c) l = true) by (apply existsb_exists; eauto).
  congruence.
Qed.

(** **** Every history leaves a consistent store *)

Lemma consistent_empty : consistent empty.
Proof. split; repeat constructor. Qed.

Lemma consistent_insert_tables (db : Database) (name : string) (now : Z) :
  consistent db -> consistent (fst (insert_tables db name now)).
Proof.
  intros [Ht Hc Hr Hx Hu Hcw Hxw]. split; simpl; auto.
  now apply primary_key_insert.
Qed.

Lemma consistent_insert_columns (db db' : Database) (tableId id : Z) (name type : string)
    (text : option string) (now : Z) :
  consistent db -> written text ->
  insert_columns db tableId name type text now = Return (db', id) ->
  consistent db'.
Proof.
  intros [Ht Hc Hr Hx Hu Hcw Hxw] Hw. unfold insert_columns.
  destruct (has_table db tableId); [|discriminate]. intros [= <- <-].
  split; simpl; auto.
  - now apply primary_key_insert.
  - apply Forall_app. split; [exact Hcw | constructor; [exact Hw | constructor]].
Qed.

Lemma consistent_insert_rows (db db' : Database) (tableId id position now : Z) :
  consistent db ->
  insert_rows db tableId position now = Return (db', id) ->
  consistent db'.
Proof.
  intros [Ht Hc Hr Hx Hu Hcw Hxw]. unfold insert_rows.
  destruct (has_table db tableId); [|discriminate]. intros [= <- <-].
  split; simpl; auto. now apply primary_key_insert.
Qed.

Lemma consistent_upsert_cells (db db' : Database) (r c : Z) (text : option string) (now : Z) :
  consistent db -> written text ->
  upsert_cells db r c text now = Return db' ->
  consistent db'.
Proof.
  intros [Ht Hc Hr Hx Hu Hcw Hxw] Hw. unfold upsert_cells.
  destruct (existsb (same_cell r c) (cells db)) eqn:Hex.
  - intros [= <-]. destruct (update_cells_keys r c text now (cells db)) as [Hk Hi].
    split; simpl; auto.
    + destruct Hx as [Hnd Hle]. split; [now rewrite Hi|].
      unfold update_cells. rewrite Forall_map. eapply Forall_impl; [|exact Hle].
      intros x Hxle. simpl in Hxle. destruct (same_cell r c x); simpl; lia.
    + unfold unique_cells. now rewrite Hk.
    + unfold update_cells. rewrite Forall_map. eapply Forall_impl; [|exact Hxw].
      intros x Hxx. destruct (same_cell r c x); simpl; auto.
  - destruct (has_row db r && has_column db c); [|discriminate]. intros [= <-].
    split; simpl; auto.
    + now apply primary_key_insert.
    + unfold unique_cells. rewrite map_app. simpl.
      apply NoDup_app; [exact Hu | repeat constructor; easy |].
      intros k Hk [<-|[]]. now apply existsb_same_cell in Hex.
    + apply Forall_app. split; [exact Hxw | constructor; [exact Hw | constructor]].
Qed.

Lemma consistent_delete_tables (db : Database) (id : Z) :
  consistent db -> consistent (delete_tables db id).
Proof.
  intros H. unfold delete_tables. destruct (has_table db id); [|exact H].
  destruct H as [Ht Hc Hr Hx Hu Hcw Hxw].
  split; simpl; auto using primary_key_filter.
  - now apply NoDup_map_filter.
  - rewrite Forall_forall in Hcw |- *. intros x Hin. apply filter_In in Hin. now apply Hcw.
  - rewrite Forall_forall in Hxw |- *. intros x Hin. apply filter_In in Hin. now apply Hxw.
Qed.

Lemma valueStr_written (value : JsValue) (text : option string) :
  CellData.valueStr value = Return text -> written text.
Proof.
  unfold CellData.valueStr.
  destruct value; try (intros [= <-]; now left);
    (destruct (JSON.stringify _) eqn:Hs;
     [intros [= <-]; right; eexists; exact Hs | discriminate]).
Qed.

Lemma consistent_exec (db : Database) (c : Call) :
  consistent db -> consistent (exec db c).
Proof.
  intros H. destruct c as [name now|tableId name type options now|tableId position now
                          |rowId columnId value now|tableId]; simpl.
  - apply (consistent_insert_tables db name now H).
  - unfold TableColumn.create.
    destruct (JSON.stringify (TableColumn.default_options options)) as [text|] eqn:Hs;
      [|exact H].
    destruct (insert_columns db tableId name _ (Some text) now) as [[db' id]|e] eqn:Hi;
      [|exact H].
    simpl. eapply consistent_insert_columns; [exact H | | exact Hi].
    right. eexists. exact Hs.
  - unfold TableRow.create.
    destruct (insert_rows db tableId _ now) as [[db' id]|e] eqn:Hi; [|exact H].
    simpl. eapply consistent_insert_rows; [exact H | exact Hi].
  - unfold CellData.set.
    destruct (CellData.valueStr value) as [text|e] eqn:Hv; [|exact H].
    destruct (upsert_cells db rowId columnId text now) as [db'|e] eqn:Hu; [|exact H].
    simpl. eapply consistent_upsert_cells; [exact H | | exact Hu].
    eapply valueStr_written. exact Hv.
  - now apply consistent_delete_tables.
Qed.

Lemma consistent_fold (history : list Call) (db : Database) :
  consistent db -> consistent (fold_left exec history db).
Proof.
  revert db. induction history as [|c history IH]; intros db H; [exact H|].
  simpl. apply IH. now apply consistent_exec.
Qed.

Lemma consistent_run (history : list Call) : consistent (run history).
Proof. apply consistent_fold, consistent_empty. Qed.

(** **** Reading a [TEXT] column back *)

Lemma parse_or_stringify (fallback v : JsValue) (s : string) :
  JSON.stringify v = Some s -> parse_or fallback (Some s) = Return (revive v).
Proof.
  intros Hs. pose proof (stringify_nonempty v s Hs) as Hne.
  unfold parse_or. destruct s as [|a s]; [congruence|].
  now rewrite (parse_stringify v _ Hs).
Qed.

Lemma parse_or_written (fallback : JsValue) (text : option string) :
  written text -> exists v, parse_or fallback text = Return v.
Proof.
  intros [->|[v Hv]]; [now exists fallback|].
  destruct text as [s|]; [|now exists fallback].
  exists (revive v). now apply parse_or_stringify.
Qed.

Lemma map_outcome_total (A B : Type) (f : A -> Outcome B) (l : list A) :
  Forall (fun x => exists y, f x = Return y) l ->
  exists ys, map_outcome f l = Return ys /\ Forall2 (fun x y => f x = Return y) l ys.
Proof.
  induction 1 as [|x l [y Hy] Hl [ys [IH1 IH2]]]; simpl.
  - exists []. split; [reflexivity | constructor].
  - exists (y :: ys). rewrite Hy, IH1. simpl. split; [reflexivity | now constructor].
Qed.

Lemma cell_of_data_total (x : cells_rec) :
  written (cells_value x) -> exists cell, CellData.of_data x = Return cell.
Proof.
  intros H. destruct (parse_or_written JNull _ H) as [v Hv].
  unfold CellData.of_data. rewrite Hv. simpl. eauto.
Qed.

Lemma column_of_data_total (c : columns_rec) :
  written (columns_options c) ->
  exists col, TableColumn.of_data c = Return col
              /\ TableColumn.id col = columns_id c
              /\ TableColumn.tableId col = columns_table_id c
              /\ TableColumn.name col = columns_name c.
Proof.
  intros H. destruct (parse_or_written (JObject []) _ H) as [v Hv].
  unfold TableColumn.of_data. rewrite Hv. simpl. eexists. split; [reflexivity|]. auto.
Qed.

(** The store a call leaves does not depend on the engine's walk. *)
Lemma set_store {E : Engine} (db : Database) (r c : Z) (v : JsValue) (now : Z) :
  snd (CellData.set db r c v now) = exec db (set_cell r c v now).
Proof.
  simpl. unfold CellData.set.
  destruct (CellData.valueStr v); [|reflexivity].
  destruct (upsert_cells db r c a now); reflexivity.
Qed.

End StoreFacts.

(** * The data layer against its specification *)

Module Claims.
Import JSON JSONFacts DiamantDB Schema StoreFacts.

(** **** Lookups *)

Section Lookups.
Context {E : Engine}.

Lemma stmt_get_none_iff (A : Type) (p : A -> bool) (rel : list A) :
  stmt_get p rel = None <-> existsb p rel = false.
Proof.
  split.
  - intros H. destruct (existsb p rel) eqn:Hex; [|reflexivity].
    apply existsb_exists in Hex. destruct Hex as (x & Hin & Hp).
    assert (Hx : In x (stmt_all p rel)) by (apply stmt_all_In; auto).
    unfold stmt_get in H. destruct (stmt_all p rel); [destruct Hx | discriminate H].
  - intros H. apply stmt_get_none. intros x Hin.
    destruct (p x) eqn:Hp; [|reflexivity].
    assert (existsb p rel = true) by (apply existsb_exists; eauto). congruence.
Qed.

Lemma table_get_none (db : Database) (id : Z) :
  DataTable.get db id = None <-> has_table db id = false.
Proof.
  unfold DataTable.get, has_table. rewrite <- stmt_get_none_iff.
  destruct (stmt_get _ _); split; congruence.
Qed.

Lemma row_get_none (db : Database) (id : Z) :
  TableRow.get db id = None <-> has_row db id = false.
Proof.
  unfold TableRow.get, has_row. rewrite <- stmt_get_none_iff.
  destruct (stmt_get _ _); split; congruence.
Qed.

Lemma column_get_none (db : Database) (id : Z) :
  TableColumn.get db id = Return None <-> has_column db id = false.
Proof.
  unfold TableColumn.get, has_column. rewrite <- stmt_get_none_iff.
  destruct (stmt_get _ _) as [c|]; [|tauto].
  split; [|discriminate]. destruct (TableColumn.of_data c); discriminate.
Qed.

Lemma cell_get_none (db : Database) (r c : Z) :
  CellData.get db r c = Return None <-> existsb (same_cell r c) (cells db) = false.
Proof.
  unfold CellData.get. rewrite <- stmt_get_none_iff.
  destruct (stmt_get _ _) as [x|]; [|tauto].
  split; [|discriminate]. destruct (CellData.of_data x); discriminate.
Qed.

End Lookups.

(** C9.  A get-by-id for a Table, a Column, a Row or a Cell returns the
    not-found result, and throws nothing, exactly when the id (for a Cell
    the pair of a row id and a column id) is bound to no entity of the
    store. *)
Theorem get_by_id_not_found {E : Engine} (db : Database) :
  (forall id, DataTable.get db id = None <-> has_table db id = false)
  /\ (forall id, TableColumn.get db id = Return None <-> has_column db id = false)
  /\ (forall id, TableRow.get db id = None <-> has_row db id = false)
  /\ (forall rowId columnId,
        CellData.get db rowId columnId = Return None
        <-> existsb (same_cell rowId columnId) (cells db) = false).
Proof.
  repeat split; try apply table_get_none; try apply column_get_none;
    try apply row_get_none; try apply cell_get_none.
Qed.

(** **** Deleting a table *)

Lemma key_inj (A K : Type) (key : A -> K) (l : list A) (x y : A) :
  NoDup (map key l) -> In x l -> In y l -> key x = key y -> x = y.
Proof.
  induction l as [|z l IH]; intros Hnd Hx Hy Hk; [destruct Hx|].
  simpl in Hnd. apply NoDup_cons_iff in Hnd. destruct Hnd as [Hz Hnd].
  destruct Hx as [->|Hx], Hy as [->|Hy]; auto.
  - exfalso. apply Hz. rewrite Hk. now apply in_map.
  - exfalso. apply Hz. rewrite <- Hk. now apply in_map.
Qed.

Lemma existsb_false (A : Type) (p : A -> bool) (l : list A) :
  (forall x, In x l -> p x = false) -> existsb p l = false.
Proof.
  intros H. destruct (existsb p l) eqn:Hex; [|reflexivity].
  apply existsb_exists in Hex. destruct Hex as (x & Hin & Hp).
  rewrite (H x Hin) in Hp. discriminate Hp.
Qed.

(** C5.  After [delete()] on a table of the store, [get] finds neither
    the table, nor any column or row that belonged to it, nor a cell at
    any pair whose row or whose column belonged to it; no cell of such a
    pair is left in the store, and the id of a cell that held such a pair
    is the id of no cell any more. *)
Theorem delete_cascades {E : Engine} (history : list Call) (this : DataTable.t) :
  let db := run history in
  let db' := DataTable.delete this db in
  has_table db (DataTable.id this) = true ->
  DataTable.get db' (DataTable.id this) = None
  /\ (forall c, In c (columns db) -> columns_table_id c = DataTable.id this ->
        TableColumn.get db' (columns_id c) = Return None)
  /\ (forall r, In r (rows db) -> rows_table_id r = DataTable.id this ->
        TableRow.get db' (rows_id r) = None)
  /\ (forall rowId columnId,
        (exists r, In r (rows db) /\ rows_table_id r = DataTable.id this
                   /\ rows_id r = rowId)
        \/ (exists c, In c (columns db) /\ columns_table_id c = DataTable.id this
                      /\ columns_id c = columnId) ->
        CellData.get db' rowId columnId = Return None
        /\ (forall x, In x (cells db') -> cell_key x <> (rowId, columnId))
        /\ (forall x, In x (cells db) -> cell_key x = (rowId, columnId) ->
              ~ In (cells_id x) (map cells_id (cells db')))).
Proof.
  intros db db' Hhas.
  pose proof (consistent_run history) as Hok. fold db in Hok.
  assert (Hdb' : db' = delete_tables db (DataTable.id this)) by reflexivity.
  unfold delete_tables in Hdb'. rewrite Hhas in Hdb'.
  set (T := DataTable.id this) in *.
  assert (Hcells : forall rowId columnId,
             (exists r, In r (rows db) /\ rows_table_id r = T /\ rows_id r = rowId)
             \/ (exists c, In c (columns db) /\ columns_table_id c = T
                           /\ columns_id c = columnId) ->
             forall x, In x (cells db') -> cell_key x <> (rowId, columnId)).
  { intros rowId columnId Hpair x Hx Hkey. rewrite Hdb' in Hx. simpl in Hx.
    apply filter_In in Hx. destruct Hx as [_ Hx].
    apply negb_true_iff, orb_false_iff in Hx. destruct Hx as [Hr Hc].
    unfold cell_key in Hkey. injection Hkey as Hkr Hkc.
    destruct Hpair as [(r & Hin & Ht & Hid)|(c & Hin & Ht & Hid)].
    - assert (existsb (fun r0 => rows_id r0 =? cells_row_id x)
                (filter (fun r0 => rows_table_id r0 =? T) (rows db)) = true).
      { apply existsb_exists. exists r. split.
        - apply filter_In. split; [exact Hin | now apply Z.eqb_eq].
        - apply Z.eqb_eq. congruence. }
      congruence.
    - assert (existsb (fun c0 => columns_id c0 =? cells_column_id x)
                (filter (fun c0 => columns_table_id c0 =? T) (columns db)) = true).
      { apply existsb_exists. exists c. split.
        - apply filter_In. split; [exact Hin | now apply Z.eqb_eq].
        - apply Z.eqb_eq. congruence. }
      congruence. }
  repeat split.
  - apply table_get_none. rewrite Hdb'. unfold has_table. simpl.
    apply existsb_false. intros t Ht. apply filter_In in Ht. destruct Ht as [_ Ht].
    now apply negb_true_iff in Ht.
  - intros c Hin Ht. apply column_get_none. rewrite Hdb'. unfold has_column. simpl.
    apply existsb_false. intros c' Hc'. apply filter_In in Hc'. destruct Hc' as [Hin' Ht'].
    destruct (columns_id c' =? columns_id c) eqn:Hid; [|reflexivity].
    apply Z.eqb_eq in Hid.
    assert (c' = c).
    { eapply key_inj; [|exact Hin'|exact Hin|exact Hid].
      eapply primary_key_NoDup, (columns_key db Hok). }
    subst c'. rewrite Ht, Z.eqb_refl in Ht'. discriminate Ht'.
  - intros r Hin Ht. apply row_get_none. rewrite Hdb'. unfold has_row. simpl.
    apply existsb_false. intros r' Hr'. apply filter_In in Hr'. destruct Hr' as [Hin' Ht'].
    destruct (rows_id r' =? rows_id r) eqn:Hid; [|reflexivity].
    apply Z.eqb_eq in Hid.
    assert (r' = r).
    { eapply key_inj; [|exact Hin'|exact Hin|exact Hid].
      eapply primary_key_NoDup, (rows_key db Hok). }
    subst r'. rewrite Ht, Z.eqb_refl in Ht'. discriminate Ht'.
  - apply cell_get_none. apply existsb_false. intros x Hx.
    destruct (same_cell rowId columnId x) eqn:Hs; [|reflexivity].
    apply same_cell_key in Hs. exfalso. eapply Hcells; eauto.
  - now apply Hcells.
  - intros x Hx Hkey Hid. apply in_map_iff in Hid. destruct Hid as (x' & Hid & Hx').
    assert (Hin' : In x' (cells db)).
    { rewrite Hdb' in Hx'. simpl in Hx'. apply filter_In in Hx'. tauto. }
    assert (x' = x).
    { eapply key_inj; [|exact Hin'|exact Hx|exact Hid].
      eapply primary_key_NoDup, (cells_key db Hok). }
    subst x'. eapply Hcells; eauto.
Qed.

Lemma delete_cascades_witness :
  let db := run [create_table "T" 1; add_column 1 "A" None JUndefined 2;
                 add_row 1 None 3; set_cell 1 1 (JString "a") 4] in
  let db' := DataTable.delete (DataTable.mk 1 "T" 1) db in
  has_table db 1 = true
  /\ DataTable.get db' 1 = None
  /\ TableColumn.get db' 1 = Return None
  /\ TableRow.get db' 1 = None
  /\ CellData.get db' 1 1 = Return None.
Proof.
  intros db db'. split; [reflexivity|].
  destruct (delete_cascades (E:=rowid_order)
              [create_table "T" 1; add_column 1 "A" None JUndefined 2;
               add_row 1 None 3; set_cell 1 1 (JString "a") 4]
              (DataTable.mk 1 "T" 1) eq_refl) as (Ht & Hc & Hr & Hx).
  split; [exact Ht|]. split.
  - apply (Hc (mk_columns 1 1 "A" "text" (Some "{}") 2)); [now left | reflexivity].
  - split.
    + apply (Hr (mk_rows 1 1 0 3)); [now left | reflexivity].
    + apply (Hx 1 1). left. exists (mk_rows 1 1 0 3).
      split; [now left | split; reflexivity].
Defined.

(** **** One cell per pair *)

Lemma filter_key_length (A K : Type) (key : A -> K) (p : A -> bool) (k : K) (l : list A) :
  (forall y, p y = true <-> key y = k) ->
  NoDup (map key l) -> (List.length (filter p l) <= 1)%nat.
Proof.
  intros Hp Hnd. destruct (filter p l) as [|x l'] eqn:Hf; [simpl; lia|].
  assert (Hx : In x (filter p l)) by (rewrite Hf; now left).
  apply filter_In in Hx. destruct Hx as [Hin Hpx].
  rewrite (filter_key A K key p k l Hp Hnd x Hin) in Hf by now apply Hp.
  injection Hf as <-. simpl; lia.
Qed.

(** C4.  After any history of calls the cells of the store have pairwise
    distinct (row id, column id) pairs: no pair is held by more than one
    cell.  The upsert keeps that: on a pair that is taken it rewrites the
    row in conflict, otherwise it adds one row. *)
Theorem one_cell_per_pair (history : list Call) :
  let db := run history in
  unique_cells (cells db)
  /\ forall rowId columnId,
       (List.length (filter (same_cell rowId columnId) (cells db)) <= 1)%nat.
Proof.
  intros db. pose proof (cells_unique db (consistent_run history)) as Hu.
  split; [exact Hu|]. intros r c.
  eapply filter_key_length; [|exact Hu]. intros y. apply same_cell_key.
Qed.

(** **** Appending a row *)

Lemma has_table_insert_rows (db : Database) (tableId position now : Z) :
  has_table db tableId = true ->
  insert_rows db tableId position now
  = Return (mk_Database (tables db) (tables_seq db) (columns db) (columns_seq db)
              (rows db ++ [mk_rows (rows_seq db + 1) tableId position now])
              (rows_seq db + 1) (cells db) (cells_seq db), rows_seq db + 1).
Proof. intros H. unfold insert_rows. now rewrite H. Qed.

(** [addRow()] on a table of a consistent store: the row it returns, the
    row it stores and the store it leaves. *)
Lemma addRow_default {E : Engine} (db : Database) (this : DataTable.t) (now : Z) :
  consistent db ->
  has_table db (DataTable.id this) = true ->
  let stored := filter (fun r => rows_table_id r =? DataTable.id this) (rows db) in
  exists row db',
    DataTable.addRow this db None now = (Return row, db')
    /\ TableRow.position row = Z.of_nat (List.length stored)
    /\ TableRow.id row = rows_seq db + 1
    /\ rows db' = (rows db ++ [mk_rows (TableRow.id row) (DataTable.id this)
                                (Z.of_nat (List.length stored)) now])%list
    /\ TableRow.get db' (TableRow.id row) = Some row
    /\ (forall r, TableRow.get db (TableRow.id r) = Some r ->
          TableRow.get db' (TableRow.id r) = Some r)
    /\ rows_seq db' = rows_seq db + 1
    /\ consistent db'
    /\ has_table db' (DataTable.id this) = true.
Proof.
  intros Hok H stored.
  assert (Hexec : snd (DataTable.addRow this db None now)
                  = exec db (add_row (DataTable.id this) None now)) by reflexivity.
  pose proof (consistent_exec db (add_row (DataTable.id this) None now) Hok) as Hok'.
  rewrite <- Hexec in Hok'. clear Hexec.
  unfold DataTable.addRow, TableRow.create in *.
  rewrite (has_table_insert_rows db _ _ now H) in *. cbn [snd] in Hok'.
  set (row := mk_rows (rows_seq db + 1) (DataTable.id this)
                      (TableRow.count db (DataTable.id this)) now) in *.
  set (db' := mk_Database _ _ _ _ _ _ _ _) in *.
  assert (Hget : forall r, In r (rows db') ->
                   TableRow.get db' (rows_id r) = Some (TableRow.of_data r)).
  { intros r Hin. unfold TableRow.get.
    rewrite (stmt_get_one _ _ _ r); [reflexivity|].
    eapply filter_key with (key := rows_id);
      [intros y; apply Z.eqb_eq | apply (primary_key_NoDup _ _ _ _ (rows_key db' Hok'))
       | exact Hin | reflexivity]. }
  eexists. exists db'. split; [reflexivity|]. cbn [TableRow.position TableRow.id].
  split; [reflexivity|]. split; [reflexivity|]. split; [reflexivity|].
  split; [apply (Hget row); apply in_or_app; right; now left|].
  split; [|split; [reflexivity | split; [exact Hok' | exact H]]].
  intros r Hr. unfold TableRow.get in Hr.
  destruct (stmt_get _ (rows db)) as [x|] eqn:Hx; [|discriminate Hr].
  injection Hr as <-. apply stmt_get_some in Hx. destruct Hx as [Hin _].
  apply (Hget x). apply in_or_app. now left.
Qed.

Lemma addRow_count (db db' : Database) (this : DataTable.t) (row : rows_rec) :
  rows db' = (rows db ++ [row])%list -> rows_table_id row = DataTable.id this ->
  List.length (filter (fun r => rows_table_id r =? DataTable.id this) (rows db'))
  = S (List.length (filter (fun r => rows_table_id r =? DataTable.id this) (rows db))).
Proof.
  intros -> Ht. rewrite filter_app, length_app. simpl. rewrite Ht, Z.eqb_refl. simpl. lia.
Qed.

(** C6.  [addRow()] without a position on a table of the store gives the
    new row, as it is returned and as it is stored, the number of rows
    that the store holds for that table at the call, whatever their
    positions and whatever rows other tables have; on a table without
    rows three such calls give the positions 0, 1 and 2 to rows with
    ascending ids, and each of the three is then found under its id with
    that position. *)
Theorem addRow_position_is_count {E : Engine} (history : list Call) (this : DataTable.t)
    (now1 now2 now3 : Z) :
  let db := run history in
  let stored := filter (fun r => rows_table_id r =? DataTable.id this) (rows db) in
  has_table db (DataTable.id this) = true ->
  (exists row db',
      DataTable.addRow this db None now1 = (Return row, db')
      /\ TableRow.position row = Z.of_nat (List.length stored)
      /\ rows db' = (rows db ++ [mk_rows (TableRow.id row) (DataTable.id this)
                                  (Z.of_nat (List.length stored)) now1])%list
      /\ TableRow.get db' (TableRow.id row) = Some row)
  /\ (stored = [] ->
      exists r1 db1 r2 db2 r3 db3,
        DataTable.addRow this db None now1 = (Return r1, db1)
        /\ DataTable.addRow this db1 None now2 = (Return r2, db2)
        /\ DataTable.addRow this db2 None now3 = (Return r3, db3)
        /\ TableRow.position r1 = 0 /\ TableRow.position r2 = 1
        /\ TableRow.position r3 = 2
        /\ TableRow.id r1 < TableRow.id r2 < TableRow.id r3
        /\ TableRow.get db3 (TableRow.id r1) = Some r1
        /\ TableRow.get db3 (TableRow.id r2) = Some r2
        /\ TableRow.get db3 (TableRow.id r3) = Some r3).
Proof.
  intros db stored H. pose proof (consistent_run history) as Hok. fold db in Hok.
  destruct (addRow_default db this now1 Hok H)
    as (r1 & db1 & E1 & P1 & I1 & R1 & G1 & _ & S1 & Hok1 & H1).
  fold stored in P1, R1.
  split; [exists r1, db1; auto|]. intros Hempty.
  destruct (addRow_default db1 this now2 Hok1 H1)
    as (r2 & db2 & E2 & P2 & I2 & R2 & G2 & K2 & S2 & Hok2 & H2).
  destruct (addRow_default db2 this now3 Hok2 H2)
    as (r3 & db3 & E3 & P3 & I3 & R3 & G3 & K3 & S3 & Hok3 & _).
  rewrite (addRow_count db1 db2 this _ R2 eq_refl) in P3.
  rewrite (addRow_count db db1 this _ R1 eq_refl) in P2, P3.
  fold stored in P2, P3. rewrite Hempty in P1, P2, P3. simpl in P1, P2, P3.
  exists r1, db1, r2, db2, r3, db3. repeat split; auto; lia.
Qed.

Lemma addRow_position_is_count_witness :
  let history := [create_table "T" 1; create_table "U" 2; add_row 2 None 3;
                  add_row 2 None 4; add_row 1 (Some 5) 5] in
  let db := run history in
  let this := DataTable.mk 1 "T" 1 in
  has_table db (DataTable.id this) = true
  /\ exists row db',
       DataTable.addRow this db None 6 = (Return row, db')
       /\ TableRow.position row = 1
       /\ TableRow.get db' (TableRow.id row) = Some (TableRow.mk 4 1 1 6).
Proof.
  intros history db this. split; [reflexivity|].
  destruct (proj1 (addRow_position_is_count (E:=rowid_order) history this 6 7 8 eq_refl))
    as (row & db' & Hadd & Hpos & _ & Hget).
  exists row, db'. split; [exact Hadd|]. split; [exact Hpos|].
  rewrite Hget. f_equal. vm_compute in Hadd. now injection Hadd as <- _.
Defined.

(** **** The columns of a table *)

Lemma Forall2_map_eq (A B C : Type) (f : A -> C) (g : B -> C) (l : list A) (l' : list B) :
  Forall2 (fun x y => f x = g y) l l' -> map f l = map g l'.
Proof. induction 1; simpl; congruence. Qed.

Lemma getByTable_total {E : Engine} (db : Database) (tableId : Z) :
  consistent db ->
  exists cols,
    TableColumn.getByTable db tableId = Return cols
    /\ Forall2 (fun c col => TableColumn.of_data c = Return col)
         (stmt_all (fun c => columns_table_id c =? tableId) (columns db)) cols
    /\ map TableColumn.id cols
       = map columns_id (stmt_all (fun c => columns_table_id c =? tableId) (columns db))
    /\ map TableColumn.name cols
       = map columns_name (stmt_all (fun c => columns_table_id c =? tableId) (columns db)).
Proof.
  intros Hok. unfold TableColumn.getByTable.
  set (data := stmt_all _ _).
  assert (Hw : Forall (fun c => exists col, TableColumn.of_data c = Return col) data).
  { apply Forall_forall. intros c Hc. apply stmt_all_In in Hc. destruct Hc as [Hc _].
    pose proof (columns_written db Hok) as Hcw. rewrite Forall_forall in Hcw.
    destruct (column_of_data_total c (Hcw c Hc)) as (col & Hcol & _). eauto. }
  destruct (map_outcome_total _ _ _ _ Hw) as (cols & Hcols & Hall).
  exists cols. split; [exact Hcols|]. split; [exact Hall|].
  split; symmetry; apply Forall2_map_eq; eapply Forall2_impl; [|exact Hall| |exact Hall];
    intros c col Hc; unfold TableColumn.of_data in Hc;
    destruct (parse_or _ _); simpl in Hc; try discriminate Hc;
    injection Hc as <-; reflexivity.
Qed.

(** C7, as the code has it.  [getColumns()] returns the columns of the
    table, each once, in the order in which the engine walks the relation
    (the statement has no [ORDER BY]); the ids of those columns grow in
    the order of their creation, and that is the order of the result when
    the engine walks by ascending rowid, as SQLite does. *)
Theorem getColumns_in_engine_order {E : Engine} (history : list Call) (this : DataTable.t) :
  let db := run history in
  let created := filter (fun c => columns_table_id c =? DataTable.id this) (columns db) in
  StronglySorted Z.lt (map columns_id created)
  /\ (exists cols,
        DataTable.getColumns this db = Return cols
        /\ Forall2 (fun c col => TableColumn.of_data c = Return col) (scan created) cols
        /\ Permutation (map TableColumn.id cols) (map columns_id created))
  /\ (exists cols,
        DataTable.getColumns (E:=rowid_order) this db = Return cols
        /\ map TableColumn.id cols = map columns_id created).
Proof.
  intros db created. pose proof (consistent_run history) as Hok. fold db in Hok.
  split; [|split].
  - apply StronglySorted_map_filter. apply (columns_key db Hok).
  - destruct (getByTable_total db (DataTable.id this) Hok) as (cols & Hc & Hall & Hid & _).
    exists cols. split; [exact Hc|]. split; [exact Hall|].
    rewrite Hid. apply Permutation_map. apply scan_Permutation.
  - destruct (getByTable_total (E:=rowid_order) db (DataTable.id this) Hok)
      as (cols & Hc & _ & Hid & _).
    exists cols. split; [exact Hc | exact Hid].
Qed.

(** C7 as stated fails: under an engine that walks the relation backwards
    the two columns of a table come out last created first. *)
Lemma getColumns_not_creation_order :
  let db := run [create_table "T" 1; add_column 1 "A" None JUndefined 2;
                 add_column 1 "B" None JUndefined 3] in
  ~ (forall (E : Engine) (cols : list TableColumn.t),
        DataTable.getColumns (DataTable.mk 1 "T" 1) db = Return cols ->
        StronglySorted Z.lt (map TableColumn.id cols)).
Proof.
  intros db H.
  specialize (H reverse_order _ eq_refl). simpl in H.
  apply StronglySorted_inv in H. destruct H as [_ H].
  apply Forall_inv in H. discriminate H.
Qed.

(** **** Writing a cell *)

Lemma valueStr_reads_back (v : JsValue) :
  exists text,
    CellData.valueStr v = Return text /\ written text
    /\ parse_or JNull text = Return (revive v)
    /\ (text = None <-> v = JNull \/ v = JUndefined).
Proof.
  destruct v as [| |b|n|s|l|ps];
    try (exists None; repeat split; auto; try (now left); intros _; auto; fail);
    match goal with
    | |- context [CellData.valueStr ?x] =>
        exists (Some (SerializeJSON x)); split; [reflexivity|];
        split; [right; exists x; reflexivity|];
        split; [apply parse_or_stringify; reflexivity|];
        split; [discriminate | intros [H|H]; discriminate H]
    end.
Qed.

Lemma filter_update_cells (r c : Z) (text : option string) (now : Z) (l : list cells_rec) :
  filter (same_cell r c) (update_cells r c text now l)
  = map (fun x => mk_cells (cells_id x) (cells_row_id x) (cells_column_id x) text now)
        (filter (same_cell r c) l).
Proof.
  induction l as [|x l IH]; [reflexivity|].
  simpl. destruct (same_cell r c x) eqn:Hx.
  - unfold same_cell at 1. simpl. fold (same_cell r c x). rewrite Hx. simpl. now rewrite IH.
  - rewrite Hx. exact IH.
Qed.

Lemma filter_update_other (r c r' c' : Z) (text : option string) (now : Z)
    (l : list cells_rec) :
  (r', c') <> (r, c) ->
  filter (same_cell r' c') (update_cells r c text now l) = filter (same_cell r' c') l.
Proof.
  intros Hne. induction l as [|x l IH]; [reflexivity|].
  simpl. destruct (same_cell r c x) eqn:Hx.
  - unfold same_cell at 1. simpl. fold (same_cell r' c' x).
    assert (Hx' : same_cell r' c' x = false).
    { destruct (same_cell r' c' x) eqn:H'; [|reflexivity].
      apply same_cell_key in Hx, H'. congruence. }
    rewrite Hx'. exact IH.
  - destruct (same_cell r' c' x); [f_equal|]; exact IH.
Qed.

(** What [CellData.set] does on a pair that is taken or whose row and
    column exist. *)
Lemma set_spec {E : Engine} (db : Database) (r c : Z) (v : JsValue) (now : Z) :
  consistent db ->
  existsb (same_cell r c) (cells db) = true
  \/ has_row db r && has_column db c = true ->
  exists id db',
    CellData.set db r c v now = (Return (CellData.mk id r c (revive v) now), db')
    /\ consistent db'
    /\ (exists text, filter (same_cell r c) (cells db') = [mk_cells id r c text now]
                     /\ (text = None <-> v = JNull \/ v = JUndefined))
    /\ CellData.get db' r c = Return (Some (CellData.mk id r c (revive v) now))
    /\ (forall x, In x (cells db) -> same_cell r c x = true ->
          id = cells_id x /\ List.length (cells db') = List.length (cells db))
    /\ (forall r' c', (r', c') <> (r, c) ->
          filter (same_cell r' c') (cells db') = filter (same_cell r' c') (cells db))
    /\ tables db' = tables db /\ columns db' = columns db /\ rows db' = rows db.
Proof.
  intros Hok Hpre.
  destruct (valueStr_reads_back v) as (text & Hv & Hw & Hp & Hnull).
  assert (Hup : exists id db',
             upsert_cells db r c text now = Return db'
             /\ filter (same_cell r c) (cells db') = [mk_cells id r c text now]
             /\ (forall x, In x (cells db) -> same_cell r c x = true ->
                   id = cells_id x /\ List.length (cells db') = List.length (cells db))
             /\ (forall r' c', (r', c') <> (r, c) ->
                   filter (same_cell r' c') (cells db') = filter (same_cell r' c') (cells db))
             /\ tables db' = tables db /\ columns db' = columns db /\ rows db' = rows db).
  { unfold upsert_cells. destruct (existsb (same_cell r c) (cells db)) eqn:Hex.
    - apply existsb_exists in Hex. destruct Hex as (x0 & Hin0 & Hs0).
      assert (Hf : filter (same_cell r c) (cells db) = [x0]).
      { eapply filter_key; [intros y; apply same_cell_key | apply (cells_unique db Hok)
                           | exact Hin0 | now apply same_cell_key]. }
      pose proof Hs0 as Hk0. apply same_cell_key in Hk0. injection Hk0 as Hr0 Hc0.
      exists (cells_id x0). eexists. split; [reflexivity|]. simpl.
      rewrite filter_update_cells, Hf. simpl. rewrite Hr0, Hc0.
      split; [reflexivity|]. split.
      + intros x Hin Hs. split.
        * f_equal. eapply key_inj with (key := fun y => cells_id y);
            [apply (primary_key_NoDup _ _ _ _ (cells_key db Hok)) | exact Hin0 | exact Hin |].
          assert (Hxx : In x (filter (same_cell r c) (cells db)))
            by (apply filter_In; auto).
          rewrite Hf in Hxx. destruct Hxx as [->|[]]. reflexivity.
        * unfold update_cells. now rewrite length_map.
      + split; [|auto]. intros r' c' Hne. now apply filter_update_other.
    - destruct Hpre as [Hpre|Hpre]; [discriminate Hpre|]. rewrite Hpre.
      exists (cells_seq db + 1). eexists. split; [reflexivity|]. simpl.
      rewrite filter_app. simpl. unfold same_cell at 2. simpl. rewrite !Z.eqb_refl. simpl.
      rewrite filter_none.
      2: { intros x Hx. destruct (same_cell r c x) eqn:Hs; [|reflexivity].
           assert (existsb (same_cell r c) (cells db) = true)
             by (apply existsb_exists; eauto). congruence. }
      split; [reflexivity|]. split.
      + intros x Hin Hs.
        assert (existsb (same_cell r c) (cells db) = true)
          by (apply existsb_exists; eauto). congruence.
      + split; [|auto]. intros r' c' Hne. rewrite filter_app. simpl.
        assert (Hx' : same_cell r' c' (mk_cells (cells_seq db + 1) r c text now) = false).
        { destruct (same_cell r' c' _) eqn:H'; [|reflexivity].
          apply same_cell_key in H'. unfold cell_key in H'. simpl in H'. congruence. }
        rewrite Hx'. now rewrite app_nil_r. }
  destruct Hup as (id & db' & Hu & Hf & Hsame & Hother & Ht & Hc & Hr).
  assert (Hok' : consistent db') by (eapply consistent_upsert_cells; eauto).
  assert (Hof : CellData.of_data (mk_cells id r c text now)
                = Return (CellData.mk id r c (revive v) now)).
  { unfold CellData.of_data. simpl. rewrite Hp. reflexivity. }
  exists id, db'. split.
  - unfold CellData.set. rewrite Hv, Hu. rewrite (stmt_get_one _ _ _ _ Hf). now rewrite Hof.
  - split; [exact Hok'|]. split; [exists text; auto|]. split.
    + unfold CellData.get. rewrite (stmt_get_one _ _ _ _ Hf). rewrite Hof. reflexivity.
    + auto.
Qed.

(** **** Own properties under assignment *)

(** An assignment to a key other than [__proto__] is seen by a lookup of
    that key; every other lookup is left as it was. *)
Lemma obj_get_assign (o : Ordinary) (k k' : string) (v : JsValue) :
  k' <> "__proto__" ->
  obj_get (own (obj_assign o k v)) k'
  = if String.eqb k k' then Some v else obj_get (own o) k'.
Proof.
  intros Hk'. unfold obj_assign.
  destruct (String.eqb k "__proto__" && reaches_proto_accessor (prototype o)) eqn:Hp.
  - apply andb_prop in Hp. destruct Hp as [Hp _]. apply String.eqb_eq in Hp. subst k.
    assert (Hne : String.eqb "__proto__" k' = false)
      by (apply String.eqb_neq; congruence).
    rewrite Hne. destruct v; reflexivity.
  - simpl. apply obj_get_define.
Qed.

Lemma obj_assign_other (o : Ordinary) (k : string) (v : JsValue) :
  k <> "__proto__" ->
  obj_assign o k v = mk_Ordinary (obj_define (own o) k v) (prototype o).
Proof.
  intros Hk. unfold obj_assign.
  assert (Hne : String.eqb k "__proto__" = false) by now apply String.eqb_neq.
  now rewrite Hne.
Qed.

Lemma listed_assign (o : Ordinary) (k : string) (v : JsValue) :
  listed (obj_keys (own o)) = true -> listed (obj_keys (own (obj_assign o k v))) = true.
Proof.
  intros H. unfold obj_assign.
  destruct (String.eqb k "__proto__" && reaches_proto_accessor (prototype o)).
  - destruct v; exact H.
  - simpl. now apply listed_define.
Qed.

Lemma obj_assign_all_app (o : Ordinary) (l1 l2 : JsObject) :
  obj_assign_all o (l1 ++ l2)%list = obj_assign_all (obj_assign_all o l1) l2.
Proof. apply fold_left_app. Qed.

Lemma listed_assign_all (kvs : JsObject) (o : Ordinary) :
  listed (obj_keys (own o)) = true -> listed (obj_keys (own (obj_assign_all o kvs))) = true.
Proof.
  revert o. induction kvs as [|kv kvs IH]; intros o H; [exact H|].
  apply IH. now apply listed_assign.
Qed.

(** Assignments to keys that are new, pairwise distinct and none of them
    [__proto__] add the array indices among them where the order of the
    listing has them, and the other keys at the end. *)
Lemma obj_keys_assign_all (kvs : JsObject) :
  forall o : Ordinary,
    NoDup (map fst kvs) ->
    (forall k, In k (map fst kvs) -> k <> "__proto__" /\ ~ In k (obj_keys (own o))) ->
    filter (fun k => negb (is_index k)) (obj_keys (own (obj_assign_all o kvs)))
    = (filter (fun k => negb (is_index k)) (obj_keys (own o))
       ++ filter (fun k => negb (is_index k)) (map fst kvs))%list
    /\ Permutation (filter is_index (obj_keys (own (obj_assign_all o kvs))))
                   (filter is_index (obj_keys (own o)) ++ filter is_index (map fst kvs)).
Proof.
  induction kvs as [|[k v] kvs IH]; intros o Hnd Hnew.
  - simpl. rewrite !app_nil_r. split; reflexivity.
  - cbn [map fst] in Hnd, Hnew. apply NoDup_cons_iff in Hnd. destruct Hnd as [Hk Hnd].
    destruct (Hnew k (or_introl eq_refl)) as [Hp Hfresh].
    change (obj_assign_all o ((k, v) :: kvs)) with (obj_assign_all (obj_assign o k v) kvs).
    rewrite (obj_assign_other o k v Hp).
    set (o' := mk_Ordinary (obj_define (own o) k v) (prototype o)).
    assert (Hnew' : forall k', In k' (map fst kvs) ->
               k' <> "__proto__" /\ ~ In k' (obj_keys (own o'))).
    { intros k' Hin. destruct (Hnew k' (or_intror Hin)) as [Hp' Hf']. split; [exact Hp'|].
      intros Hin'. apply obj_keys_define_In in Hin'. destruct Hin' as [->|Hin'];
        [contradiction | apply Hf'; exact Hin']. }
    destruct (IH o' Hnd Hnew') as [IH1 IH2]. rewrite IH1. clear IH1.
    cbn [map fst filter].
    destruct (is_index k) eqn:Hi; cbn [negb].
    + destruct (obj_keys_define_index (own o) k v Hfresh) as (l1 & l2 & H1 & H2).
      unfold o', obj_keys in *. cbn [own] in *. rewrite H2, H1 in *.
      rewrite !filter_app in *. cbn [filter] in *. rewrite Hi in *. cbn [negb] in *.
      split; [reflexivity|].
      rewrite IH2. rewrite <- !app_assoc. cbn [List.app].
      apply Permutation_app_head. apply Permutation_middle.
    + unfold o', obj_keys in *. cbn [own] in *.
      rewrite (obj_keys_define_other (own o) k v Hi Hfresh) in *.
      rewrite !filter_app in *. cbn [filter] in *. rewrite Hi in *. cbn [negb] in *.
      rewrite app_nil_r in IH2. split; [now rewrite <- app_assoc | exact IH2].
Qed.

(** **** Assignments to [__proto__] *)

Lemma obj_assign_all_others (kvs : JsObject) :
  forall o : Ordinary,
    Forall (fun kv => fst kv <> "__proto__") kvs ->
    prototype (obj_assign_all o kvs) = prototype o
    /\ obj_get (own (obj_assign_all o kvs)) "__proto__" = obj_get (own o) "__proto__".
Proof.
  induction kvs as [|[k v] kvs IH]; intros o H; [split; reflexivity|].
  apply Forall_cons_iff in H. destruct H as [Hk H]. cbn [fst] in Hk.
  change (obj_assign_all o ((k, v) :: kvs)) with (obj_assign_all (obj_assign o k v) kvs).
  destruct (IH (obj_assign o k v) H) as [-> ->]. rewrite (obj_assign_other o k v Hk).
  cbn [own prototype]. split; [reflexivity|]. rewrite obj_get_define.
  apply String.eqb_neq in Hk. now rewrite Hk.
Qed.

(** As long as the accessor is reached and no assigned value hides it,
    no assignment to [__proto__] makes a property. *)
Lemma obj_assign_all_setter (kvs : JsObject) :
  forall o : Ordinary,
    reaches_proto_accessor (prototype o) = true ->
    obj_get (own o) "__proto__" = None ->
    Forall (fun kv => fst kv = "__proto__" -> hides_proto_accessor (snd kv) = false) kvs ->
    reaches_proto_accessor (prototype (obj_assign_all o kvs)) = true
    /\ obj_get (own (obj_assign_all o kvs)) "__proto__" = None.
Proof.
  induction kvs as [|[k v] kvs IH]; intros o Hr Hg H; [now split|].
  apply Forall_cons_iff in H. destruct H as [Hkv H]. cbn [fst snd] in Hkv.
  change (obj_assign_all o ((k, v) :: kvs)) with (obj_assign_all (obj_assign o k v) kvs).
  apply IH; [| |exact H].
  - unfold obj_assign. destruct (String.eqb k "__proto__") eqn:Hk; cbn [andb].
    + apply String.eqb_eq in Hk. specialize (Hkv Hk). rewrite Hr.
      destruct v as [| | | | | |ps]; try exact Hr; try discriminate Hkv; try reflexivity.
      cbn [prototype reaches_proto_accessor]. cbn [hides_proto_accessor] in Hkv.
      destruct (obj_get ps "__proto__"); [discriminate Hkv | reflexivity].
    + exact Hr.
  - unfold obj_assign. destruct (String.eqb k "__proto__") eqn:Hk; cbn [andb].
    + rewrite Hr. destruct v; exact Hg.
    + cbn [own]. rewrite obj_get_define, Hk. exact Hg.
Qed.

(** Once the accessor is out of reach it stays so, and the last
    assignment to [__proto__] is the property. *)
Lemma obj_assign_all_hidden (kvs : JsObject) :
  forall o : Ordinary,
    reaches_proto_accessor (prototype o) = false ->
    reaches_proto_accessor (prototype (obj_assign_all o kvs)) = false.
Proof.
  induction kvs as [|[k v] kvs IH]; intros o Hr; [exact Hr|].
  change (obj_assign_all o ((k, v) :: kvs)) with (obj_assign_all (obj_assign o k v) kvs).
  apply IH. unfold obj_assign. rewrite Hr, andb_false_r. exact Hr.
Qed.

Lemma obj_assign_hides (o : Ordinary) (v : JsValue) :
  hides_proto_accessor v = true ->
  reaches_proto_accessor (prototype (obj_assign o "__proto__" v)) = false.
Proof.
  intros Hv. unfold obj_assign. cbn [String.eqb Ascii.eqb Bool.eqb andb].
  destruct (reaches_proto_accessor (prototype o)) eqn:Hr; [|exact Hr].
  destruct v as [| | | | | |ps]; try discriminate Hv; [reflexivity|].
  cbn [prototype reaches_proto_accessor]. cbn [hides_proto_accessor] in Hv.
  destruct (obj_get ps "__proto__"); [reflexivity | discriminate Hv].
Qed.

Lemma obj_assign_defines (o : Ordinary) (v : JsValue) :
  reaches_proto_accessor (prototype o) = false ->
  obj_get (own (obj_assign o "__proto__" v)) "__proto__" = Some v.
Proof.
  intros Hr. unfold obj_assign. rewrite Hr, andb_false_r. cbn [own].
  rewrite obj_get_define. now rewrite String.eqb_refl.
Qed.

(** **** The records of [getData] *)

Section Records.
Context {E : Engine}.

Lemma cell_get_total (db : Database) (r c : Z) :
  consistent db -> exists cell, CellData.get db r c = Return cell.
Proof.
  intros Hok. unfold CellData.get.
  destruct (stmt_get (same_cell r c) (cells db)) as [x|] eqn:Hg; [|eauto].
  apply stmt_get_some in Hg. destruct Hg as [Hin _].
  pose proof (cells_written db Hok) as Hw. rewrite Forall_forall in Hw.
  destruct (cell_of_data_total x (Hw x Hin)) as [cell Hcell].
  rewrite Hcell. simpl. eauto.
Qed.

Lemma find_snoc (A : Type) (p : A -> bool) (l : list A) (x : A) :
  find p (l ++ [x]) = match find p l with
                      | Some y => Some y
                      | None => if p x then Some x else None
                      end.
Proof.
  induction l as [|y l IH]; simpl; [reflexivity|].
  destruct (p y); [reflexivity | exact IH].
Qed.

(** The inner loop of [getData] never throws on a consistent store and
    leaves under every key other than [__proto__] the value of the last
    column of that name, or what the record held before when there is
    none. *)
Lemma inner_loop (db : Database) (row : TableRow.t) :
  consistent db ->
  forall (cols : list TableColumn.t) (o : Ordinary),
  exists rec,
    for_of cols (DataTable.put_cell db row) o = Return rec
    /\ (forall k, k <> "__proto__" ->
          match find (TableColumn.named k) (rev cols) with
          | Some col =>
              exists cell,
                CellData.get db (TableRow.id row) (TableColumn.id col) = Return cell
                /\ obj_get (own rec) k = Some (DataTable.value_or_null cell)
          | None => obj_get (own rec) k = obj_get (own o) k
          end).
Proof.
  intros Hok. induction cols as [|col cols IH]; intros o.
  - exists o. simpl. split; auto.
  - destruct (cell_get_total db (TableRow.id row) (TableColumn.id col) Hok) as [cell Hcell].
    set (o' := obj_assign o (TableColumn.name col) (DataTable.value_or_null cell)).
    destruct (IH o') as (rec & Hrec & Hget).
    exists rec. split.
    + simpl. unfold DataTable.put_cell at 1. rewrite Hcell. simpl. exact Hrec.
    + intros k Hk. specialize (Hget k Hk). simpl. rewrite find_snoc.
      destruct (find (TableColumn.named k) (rev cols)) as [col'|]; [exact Hget|].
      rewrite Hget. unfold o'. rewrite obj_get_assign by exact Hk.
      unfold TableColumn.named. destruct (String.eqb (TableColumn.name col) k); [|reflexivity].
      exists cell. split; [exact Hcell | reflexivity].
Qed.

(** The inner loop as a sequence of assignments: for each column, in
    order, its name and the value of the row's cell under it, null when
    there is no cell. *)
Lemma inner_loop_assignments (db : Database) (row : TableRow.t) :
  consistent db ->
  forall (cols : list TableColumn.t) (o : Ordinary),
  exists kvs,
    for_of cols (DataTable.put_cell db row) o = Return (obj_assign_all o kvs)
    /\ Forall2 (fun col kv =>
                  fst kv = TableColumn.name col
                  /\ exists cell,
                       CellData.get db (TableRow.id row) (TableColumn.id col) = Return cell
                       /\ snd kv = match cell with
                                   | Some c => CellData.value c
                                   | None => JNull
                                   end)
               cols kvs.
Proof.
  intros Hok. induction cols as [|col cols IH]; intros o.
  - exists []. split; [reflexivity | constructor].
  - destruct (cell_get_total db (TableRow.id row) (TableColumn.id col) Hok) as [cell Hcell].
    destruct (IH (obj_assign o (TableColumn.name col) (DataTable.value_or_null cell)))
      as (kvs & Hrec & Hall).
    exists ((TableColumn.name col, DataTable.value_or_null cell) :: kvs). split.
    + simpl. unfold DataTable.put_cell at 1. rewrite Hcell. simpl. exact Hrec.
    + constructor; [|exact Hall]. split; [reflexivity|]. exists cell.
      split; [exact Hcell | reflexivity].
Qed.

Lemma outer_loop (A B : Type) (f : A -> Outcome B) (l : list A) :
  Forall (fun x => exists y, f x = Return y) l ->
  forall acc : list B,
  exists ys,
    for_of l (fun data x => y <- f x ;; Return (data ++ [y])%list) acc
    = Return (acc ++ ys)%list
    /\ Forall2 (fun x y => f x = Return y) l ys.
Proof.
  induction 1 as [|x l [y Hy] Hl IH]; intros acc.
  - exists []. simpl. rewrite app_nil_r. split; [reflexivity | constructor].
  - destruct (IH (acc ++ [y])%list) as (ys & Hys & Hall).
    exists (y :: ys). simpl. rewrite Hy. simpl. rewrite Hys, <- app_assoc.
    split; [reflexivity | now constructor].
Qed.

(** [getData] on a consistent store: the columns are read, and every row
    of [getRows], in that order, yields the record of the inner loop. *)
Lemma getData_total (db : Database) (this : DataTable.t) :
  consistent db ->
  exists cols data,
    DataTable.getColumns this db = Return cols
    /\ DataTable.getData this db = Return data
    /\ Forall2 (fun row rec =>
                  for_of cols (DataTable.put_cell db row) (literal (DataTable.metadata row))
                  = Return rec)
         (DataTable.getRows this db) data.
Proof.
  intros Hok.
  destruct (getByTable_total db (DataTable.id this) Hok) as (cols & Hcols & _).
  assert (Hrows : Forall (fun row => exists rec, DataTable.row_record db cols row = Return rec)
                    (DataTable.getRows this db)).
  { apply Forall_forall. intros row _.
    destruct (inner_loop db row Hok cols (literal (DataTable.metadata row)))
      as (rec & Hrec & _). now exists rec. }
  destruct (outer_loop _ _ _ _ Hrows []) as (data & Hdata & Hall).
  exists cols, data. split; [exact Hcols|]. split; [|exact Hall].
  unfold DataTable.getData. unfold DataTable.getColumns. rewrite Hcols. simpl.
  exact Hdata.
Qed.

(** **** The rows of a table *)

Lemma insert_by_position_Permutation (r : rows_rec) (l : list rows_rec) :
  Permutation (insert_by_position r l) (r :: l).
Proof.
  induction l as [|r' l IH]; simpl; [reflexivity|].
  destruct (rows_position r <=? rows_position r'); [reflexivity|].
  rewrite IH. apply perm_swap.
Qed.

Lemma order_by_position_Permutation (l : list rows_rec) :
  Permutation (order_by_position l) l.
Proof.
  induction l as [|r l IH]; simpl; [reflexivity|].
  rewrite insert_by_position_Permutation. now constructor.
Qed.

Lemma insert_by_position_sorted (r : rows_rec) (l : list rows_rec) :
  StronglySorted by_position l -> StronglySorted by_position (insert_by_position r l).
Proof.
  induction 1 as [|r' l Hl IH Hr']; simpl; [repeat constructor|].
  destruct (rows_position r <=? rows_position r') eqn:Hle.
  - apply Z.leb_le in Hle. constructor; [now constructor|].
    constructor; [exact Hle|]. eapply Forall_impl; [|exact Hr'].
    unfold by_position. intros; lia.
  - apply Z.leb_gt in Hle. constructor; [exact IH|].
    eapply Permutation_Forall; [symmetry; apply insert_by_position_Permutation|].
    constructor; [unfold by_position; lia | exact Hr'].
Qed.

Lemma order_by_position_sorted (l : list rows_rec) :
  StronglySorted by_position (order_by_position l).
Proof.
  induction l as [|r l IH]; simpl; [constructor | now apply insert_by_position_sorted].
Qed.

Lemma StronglySorted_map_position (l : list rows_rec) :
  StronglySorted by_position l ->
  StronglySorted Z.le (map TableRow.position (map TableRow.of_data l)).
Proof.
  induction 1 as [|r l Hl IH Hr]; simpl; constructor; [exact IH|].
  rewrite map_map, Forall_map. exact Hr.
Qed.

(** [getRows()] returns every row of the table once, by ascending
    position. *)
Lemma getRows_sorted (db : Database) (this : DataTable.t) :
  let stored := filter (fun r => rows_table_id r =? DataTable.id this) (rows db) in
  Permutation (DataTable.getRows this db) (map TableRow.of_data stored)
  /\ StronglySorted Z.le (map TableRow.position (DataTable.getRows this db)).
Proof.
  intros stored. unfold DataTable.getRows, TableRow.getByTable. split.
  - apply Permutation_map. rewrite order_by_position_Permutation. apply scan_Permutation.
  - apply StronglySorted_map_position, order_by_position_sorted.
Qed.

Lemma find_named (k : string) (cols : list TableColumn.t) (col : TableColumn.t) :
  find (TableColumn.named k) cols = Some col ->
  In col cols /\ TableColumn.name col = k.
Proof.
  intros H. apply find_some in H. destruct H as [Hin Hn].
  split; [exact Hin | now apply String.eqb_eq].
Qed.

Lemma find_named_none (k : string) (cols : list TableColumn.t) :
  find (TableColumn.named k) cols = None <-> ~ In k (map TableColumn.name cols).
Proof.
  split.
  - intros H Hin. apply in_map_iff in Hin. destruct Hin as (col & Hn & Hin).
    pose proof (find_none _ _ H col Hin) as Hf. unfold TableColumn.named in Hf.
    rewrite Hn, String.eqb_refl in Hf. discriminate Hf.
  - intros H. destruct (find (TableColumn.named k) cols) as [col|] eqn:Hf; [|reflexivity].
    apply find_named in Hf. destruct Hf as [Hin <-]. exfalso. apply H. now apply in_map.
Qed.

Lemma names_of_columns (db : Database) (this : DataTable.t) (cols : list TableColumn.t) :
  consistent db ->
  DataTable.getColumns this db = Return cols ->
  Permutation (map TableColumn.name cols)
    (map columns_name (filter (fun c => columns_table_id c =? DataTable.id this) (columns db))).
Proof.
  intros Hok Hcols.
  destruct (getByTable_total db (DataTable.id this) Hok) as (cols' & Hc & _ & _ & Hn).
  unfold DataTable.getColumns in Hcols. rewrite Hc in Hcols. injection Hcols as <-.
  rewrite Hn. apply Permutation_map, scan_Permutation.
Qed.

End Records.

Lemma find_skip (A : Type) (p : A -> bool) (l l' : list A) (x : A) :
  Forall (fun y => p y = false) l ->
  find p (l ++ x :: l') = if p x then Some x else find p l'.
Proof.
  induction 1 as [|y l Hy Hl IH]; simpl; [reflexivity|]. now rewrite Hy.
Qed.

Lemma find_last_named (l1 l2 : list TableColumn.t) (col : TableColumn.t) :
  Forall (fun c' => TableColumn.name c' <> TableColumn.name col) l2 ->
  find (TableColumn.named (TableColumn.name col)) (rev (l1 ++ col :: l2)%list) = Some col.
Proof.
  intros H. rewrite rev_app_distr. simpl. rewrite <- app_assoc. simpl.
  rewrite find_skip.
  - unfold TableColumn.named. now rewrite String.eqb_refl.
  - apply Forall_rev. eapply Forall_impl; [|exact H].
    intros c Hc. unfold TableColumn.named. now apply String.eqb_neq.
Qed.

(** C1, as the code has it.  [getData()] returns one record per row of
    the table, in the order of [getRows()], which lists every row once by
    ascending position.  In the record of a row, each column whose name
    is not [__proto__] and is not the name of a later column has a field
    under its name that holds the value of the cell of that row and
    column, or null when there is no such cell; [_rowId] holds the row's
    id unless a column has that name, and [_position] the row's position
    likewise.  When the names of the columns are pairwise distinct and
    none of them is [_rowId], [_position] or [__proto__], the fields of
    the record are, in the order in which JavaScript lists them: the
    names that are array indices, in ascending order, then [_rowId],
    [_position] and the other names in the order of the columns. *)
Theorem getData_one_record_per_row {E : Engine} (history : list Call) (this : DataTable.t) :
  let db := run history in
  let stored := filter (fun r => rows_table_id r =? DataTable.id this) (rows db) in
  exists cols data,
    DataTable.getColumns this db = Return cols
    /\ DataTable.getData this db = Return data
    /\ List.length data = List.length stored
    /\ Permutation (DataTable.getRows this db) (map TableRow.of_data stored)
    /\ StronglySorted Z.le (map TableRow.position (DataTable.getRows this db))
    /\ Forall2
         (fun row rec =>
            (forall l1 col l2,
                cols = (l1 ++ col :: l2)%list ->
                TableColumn.name col <> "__proto__" ->
                Forall (fun c' => TableColumn.name c' <> TableColumn.name col) l2 ->
                exists cell,
                  CellData.get db (TableRow.id row) (TableColumn.id col) = Return cell
                  /\ obj_get (own rec) (TableColumn.name col) = Some (match cell with Some c => CellData.value c | None => JNull end))
            /\ (~ In "_rowId" (map TableColumn.name cols) ->
                obj_get (own rec) "_rowId" = Some (number (TableRow.id row)))
            /\ (~ In "_position" (map TableColumn.name cols) ->
                obj_get (own rec) "_position" = Some (number (TableRow.position row)))
            /\ (NoDup (map TableColumn.name cols) ->
                ~ In "_rowId" (map TableColumn.name cols) ->
                ~ In "_position" (map TableColumn.name cols) ->
                ~ In "__proto__" (map TableColumn.name cols) ->
                exists indices,
                  obj_keys (own rec)
                  = (indices ++ "_rowId" :: "_position"
                             :: filter (fun k => negb (is_index k))
                                       (map TableColumn.name cols))%list
                  /\ Permutation indices (filter is_index (map TableColumn.name cols))
                  /\ StronglySorted (fun k k' => precedes k k' = true) indices))
         (DataTable.getRows this db) data.
Proof.
  intros db stored.
  pose proof (consistent_run history) as Hok. fold db in Hok.
  destruct (getData_total db this Hok) as (cols & data & Hcols & Hdata & Hall).
  destruct (getRows_sorted db this) as [Hperm Hsorted].
  exists cols, data. split; [exact Hcols|]. split; [exact Hdata|]. split.
  { rewrite <- (Forall2_length Hall), (Permutation_length Hperm). apply length_map. }
  split; [exact Hperm|]. split; [exact Hsorted|].
  eapply Forall2_impl; [|exact Hall]. intros row rec Hrec. simpl in Hrec.
  destruct (inner_loop db row Hok cols (literal (DataTable.metadata row)))
    as (rec' & Hrec' & Hget).
  rewrite Hrec in Hrec'. injection Hrec' as <-.
  assert (Hmeta : forall k, k <> "__proto__" -> ~ In k (map TableColumn.name cols) ->
             obj_get (own rec) k = obj_get (DataTable.metadata row) k).
  { intros k Hk Hkn. specialize (Hget k Hk).
    assert (Hnone : find (TableColumn.named k) (rev cols) = None)
      by (apply find_named_none; now rewrite map_rev, <- in_rev).
    now rewrite Hnone in Hget. }
  split; [|split; [|split]].
  - intros l1 col l2 -> Hname Hl2. specialize (Hget (TableColumn.name col) Hname).
    rewrite (find_last_named l1 l2 col Hl2) in Hget.
    destruct Hget as (cell & Hcell & Hv). exists cell. split; [exact Hcell|].
    rewrite Hv. reflexivity.
  - intros Hid. apply Hmeta; [discriminate | exact Hid].
  - intros Hpos. apply Hmeta; [discriminate | exact Hpos].
  - intros Hnd Hid Hpos Hproto.
    destruct (inner_loop_assignments db row Hok cols (literal (DataTable.metadata row)))
      as (kvs & Hfold & Hkvs).
    rewrite Hrec in Hfold. injection Hfold as ->.
    assert (Hnames : map fst kvs = map TableColumn.name cols).
    { clear - Hkvs. induction Hkvs as [|col kv cols kvs [Hk _] _ IH]; simpl; congruence. }
    set (o := literal (DataTable.metadata row)) in *.
    assert (Hlisted : listed (obj_keys (own (obj_assign_all o kvs))) = true)
      by (apply listed_assign_all; reflexivity).
    destruct (obj_keys_assign_all kvs o) as [Hrest Hindex].
    { now rewrite Hnames. }
    { rewrite Hnames. intros k Hk. split; [intros ->; contradiction|].
      simpl. intros [<-|[<-|[]]]; contradiction. }
    rewrite Hnames in Hrest, Hindex.
    exists (filter is_index (obj_keys (own (obj_assign_all o kvs)))).
    split; [|split; [exact Hindex | now apply listed_ascending]].
    rewrite (listed_split _ Hlisted) at 1. now rewrite Hrest.
Qed.

Lemma getData_one_record_per_row_witness :
  let history := [create_table "Users" 1; add_column 1 "b" (Some "text") JUndefined 2;
                  add_column 1 "1" (Some "number") JUndefined 3;
                  add_column 1 "0" None JUndefined 4; add_row 1 None 5;
                  set_cell 1 1 (JString "Alice") 6;
                  set_cell 1 2 (JNumber (of_decimal false 15 (-1))) 7] in
  let db := run history in
  let this := DataTable.mk 1 "Users" 1 in
  DataTable.getData this db
  = Return [literal [("0", JNull); ("1", JNumber (of_decimal false 15 (-1)));
                     ("_rowId", number 1); ("_position", number 0);
                     ("b", JString "Alice")]]
  /\ exists cols data,
       DataTable.getColumns this db = Return cols
       /\ DataTable.getData this db = Return data
       /\ List.length data = 1%nat.
Proof.
  intros history db this. split; [vm_compute; reflexivity|].
  destruct (getData_one_record_per_row (E:=rowid_order) history this)
    as (cols & data & Hc & Hd & Hlen & _).
  exists cols, data. auto.
Defined.

(** C1 as stated fails: the value of a column named [_rowId] takes the
    place of the row's id in the record. *)
Lemma getData_column_named_rowId :
  let db := run [create_table "T" 1; add_column 1 "_rowId" None JUndefined 2;
                 add_row 1 None 3] in
  let this := DataTable.mk 1 "T" 1 in
  ~ (exists data,
        DataTable.getData this db = Return data
        /\ Forall2 (fun row rec =>
                      obj_get (own rec) "_rowId" = Some (number (TableRow.id row)))
             (DataTable.getRows this db) data).
Proof.
  intros db this (data & Hd & Hall).
  vm_compute in Hd. injection Hd as <-.
  inversion Hall as [|row rec rows recs Hrec Hrest]; subst.
  vm_compute in Hrec. discriminate Hrec.
Qed.

(** **** Names that collide *)

(** C10, as the code has it.  Every record of [getData()] has distinct
    field names.  Under every name other than [__proto__] it holds the
    value of the row's cell under the last column of that name, null
    when there is no cell, whatever stood there before, and the metadata
    value when no column has the name: a column named [_rowId] or
    [_position] replaces the metadata, and of two columns of one name
    the later is kept.  An assignment to [__proto__] goes to the
    inherited accessor instead of making a field: the record has no such
    field when no column has that name, and when of the columns of that
    name none but the last holds a value that keeps the accessor out of
    reach (null or no cell, or an object with a property [__proto__] of
    its own); once an earlier column of that name holds such a value,
    the record has a field [__proto__] with the value of the last
    one. *)
Theorem getData_last_column_wins {E : Engine} (history : list Call) (this : DataTable.t) :
  let db := run history in
  exists cols data,
    DataTable.getColumns this db = Return cols
    /\ DataTable.getData this db = Return data
    /\ Forall2
         (fun row rec =>
            NoDup (obj_keys (own rec))
            /\ (forall k, k <> "__proto__" ->
                  match find (TableColumn.named k) (rev cols) with
                  | Some col =>
                      exists cell,
                        CellData.get db (TableRow.id row) (TableColumn.id col) = Return cell
                        /\ obj_get (own rec) k = Some (match cell with Some c => CellData.value c | None => JNull end)
                  | None => obj_get (own rec) k = obj_get (DataTable.metadata row) k
                  end)
            /\ (~ In "__proto__" (map TableColumn.name cols) ->
                obj_get (own rec) "__proto__" = None)
            /\ (forall l1 col l2,
                  cols = (l1 ++ col :: l2)%list ->
                  TableColumn.name col = "__proto__" ->
                  Forall (fun c' => TableColumn.name c' <> "__proto__") l2 ->
                  Forall (fun c' =>
                            TableColumn.name c' = "__proto__" ->
                            exists cell,
                              CellData.get db (TableRow.id row) (TableColumn.id c')
                              = Return cell
                              /\ hides_proto_accessor
                                   (match cell with Some c => CellData.value c | None => JNull end) = false) l1 ->
                  obj_get (own rec) "__proto__" = None)
            /\ (forall l1 col0 l2 col l3,
                  cols = (l1 ++ col0 :: l2 ++ col :: l3)%list ->
                  TableColumn.name col0 = "__proto__" ->
                  TableColumn.name col = "__proto__" ->
                  Forall (fun c' => TableColumn.name c' <> "__proto__") l3 ->
                  (exists cell,
                      CellData.get db (TableRow.id row) (TableColumn.id col0) = Return cell
                      /\ hides_proto_accessor
                                   (match cell with Some c => CellData.value c | None => JNull end) = true) ->
                  exists cell,
                    CellData.get db (TableRow.id row) (TableColumn.id col) = Return cell
                    /\ obj_get (own rec) "__proto__" = Some (match cell with Some c => CellData.value c | None => JNull end)))
         (DataTable.getRows this db) data.
Proof.
  intros db. pose proof (consistent_run history) as Hok. fold db in Hok.
  destruct (getData_total db this Hok) as (cols & data & Hcols & Hdata & Hall).
  exists cols, data. split; [exact Hcols|]. split; [exact Hdata|].
  eapply Forall2_impl; [|exact Hall]. intros row rec Hrec. simpl in Hrec.
  destruct (inner_loop db row Hok cols (literal (DataTable.metadata row)))
    as (rec' & Hrec' & Hget).
  rewrite Hrec in Hrec'. injection Hrec' as <-.
  destruct (inner_loop_assignments db row Hok cols (literal (DataTable.metadata row)))
    as (kvs & Hfold & Hkvs).
  rewrite Hrec in Hfold. injection Hfold as ->.
  set (o := literal (DataTable.metadata row)) in *.
  assert (Hnames : forall cs ks,
             Forall2 (fun col kv =>
                        fst kv = TableColumn.name col
                        /\ exists cell,
                             CellData.get db (TableRow.id row) (TableColumn.id col)
                             = Return cell /\ snd kv = match cell with Some c => CellData.value c | None => JNull end) cs ks ->
             forall P : string -> Prop,
               Forall (fun c' => P (TableColumn.name c')) cs -> Forall (fun kv => P (fst kv)) ks).
  { intros cs ks H2 P HP. induction H2 as [|c kv cs ks [Hk _] _ IH]; [constructor|].
    apply Forall_cons_iff in HP. destruct HP as [Hc HP].
    constructor; [now rewrite Hk | now apply IH]. }
  split; [|split; [|split; [|split]]].
  - apply listed_NoDup, listed_assign_all. reflexivity.
  - intros k Hk. specialize (Hget k Hk).
    destruct (find (TableColumn.named k) (rev cols)) as [col|]; [|exact Hget].
    destruct Hget as (cell & Hcell & Hv). exists cell. split; [exact Hcell|].
    rewrite Hv. reflexivity.
  - intros Hnone.
    destruct (obj_assign_all_others kvs o) as [_ ->]; [|reflexivity].
    apply (Hnames cols kvs Hkvs (fun k => k <> "__proto__")).
    apply Forall_forall. intros c Hc Heq. apply Hnone. rewrite <- Heq. now apply in_map.
  - intros l1 col l2 Hsplit Hcol Hl2 Hl1. subst cols.
    apply Forall2_app_inv_l in Hkvs. destruct Hkvs as (k1 & krest & H1 & Hrest & ->).
    inversion Hrest as [|c kv cs k2 [Hk _] H2]; subst.
    rewrite obj_assign_all_app.
    destruct (obj_assign_all_setter k1 o eq_refl eq_refl) as [Hr Hg].
    { clear - H1 Hl1. induction H1 as [|c kv cs ks [Hk (cell & Hcell & Hv)] _ IH];
        [constructor|].
      apply Forall_cons_iff in Hl1. destruct Hl1 as [Hc Hl1].
      constructor; [|now apply IH]. intros Hp. rewrite Hk in Hp.
      destruct (Hc Hp) as (cell' & Hcell' & Hh). rewrite Hcell in Hcell'.
      injection Hcell' as <-. now rewrite Hv. }
    change (obj_assign_all (obj_assign_all o k1) (kv :: k2))
      with (obj_assign_all (obj_assign (obj_assign_all o k1) (fst kv) (snd kv)) k2).
    destruct (obj_assign_all_others k2 (obj_assign (obj_assign_all o k1) (fst kv) (snd kv)))
      as [_ ->].
    { apply (Hnames l2 k2 H2 (fun k => k <> "__proto__")). exact Hl2. }
    rewrite Hk, Hcol. unfold obj_assign. cbn [String.eqb Ascii.eqb Bool.eqb andb].
    rewrite Hr. destruct (snd kv); exact Hg.
  - intros l1 col0 l2 col l3 Hsplit Hcol0 Hcol Hl3 (cell0 & Hcell0 & Hh). subst cols.
    apply Forall2_app_inv_l in Hkvs. destruct Hkvs as (k1 & krest & H1 & Hrest & ->).
    inversion Hrest as [|c kv0 cs krest' [Hk0 (cell0' & Hcell0' & Hv0)] Hrest']; subst.
    apply Forall2_app_inv_l in Hrest'. destruct Hrest' as (k2 & krest2 & H2 & Hrest2 & ->).
    inversion Hrest2 as [|c2 kv cs2 k3 [Hk (cell & Hcell & Hv)] H3]; subst.
    rewrite Hcell0 in Hcell0'. injection Hcell0' as <-.
    exists cell. split; [exact Hcell|].
    rewrite obj_assign_all_app.
    change (obj_assign_all (obj_assign_all o k1) (kv0 :: (k2 ++ kv :: k3)%list))
      with (obj_assign_all (obj_assign (obj_assign_all o k1) (fst kv0) (snd kv0))
                           (k2 ++ kv :: k3)%list).
    rewrite obj_assign_all_app.
    set (o1 := obj_assign (obj_assign_all o k1) (fst kv0) (snd kv0)).
    assert (Hr1 : reaches_proto_accessor (prototype o1) = false).
    { unfold o1. rewrite Hk0, Hcol0. apply obj_assign_hides. now rewrite Hv0. }
    pose proof (obj_assign_all_hidden k2 o1 Hr1) as Hr2.
    change (obj_assign_all (obj_assign_all o1 k2) (kv :: k3))
      with (obj_assign_all (obj_assign (obj_assign_all o1 k2) (fst kv) (snd kv)) k3).
    destruct (obj_assign_all_others k3 (obj_assign (obj_assign_all o1 k2) (fst kv) (snd kv)))
      as [_ ->].
    { apply (Hnames l3 k3 H3 (fun k => k <> "__proto__")). exact Hl3. }
    rewrite Hk, Hcol, <- Hv. now apply obj_assign_defines.
Qed.

(** C10 as stated fails: two columns named [__proto__] whose cells hold
    numbers leave no field of that name in the record. *)
Lemma getData_columns_named_proto :
  let db := run [create_table "T" 1; add_column 1 "__proto__" None JUndefined 2;
                 add_column 1 "__proto__" None JUndefined 3; add_row 1 None 4;
                 set_cell 1 1 (number 7) 5; set_cell 1 2 (number 8) 6] in
  let this := DataTable.mk 1 "T" 1 in
  ~ (exists data,
        DataTable.getData this db = Return data
        /\ Forall (fun rec => obj_get (own rec) "__proto__" = Some (number 8)) data)
  /\ DataTable.getData this db
     = Return [literal [("_rowId", number 1); ("_position", number 0)]].
Proof.
  intros db this. split; [|vm_compute; reflexivity].
  intros (data & Hd & Hall).
  vm_compute in Hd. injection Hd as <-.
  apply Forall_inv in Hall. vm_compute in Hall. discriminate Hall.
Qed.

(** **** Rows and columns that exist *)

Section Existing.
Context {E : Engine}.

Lemma getRows_has_row (db : Database) (this : DataTable.t) (row : TableRow.t) :
  In row (DataTable.getRows this db) -> has_row db (TableRow.id row) = true.
Proof.
  intros Hin. destruct (getRows_sorted db this) as [Hperm _].
  eapply Permutation_in in Hin; [|exact Hperm].
  apply in_map_iff in Hin. destruct Hin as (r & <- & Hr). apply filter_In in Hr.
  unfold has_row. apply existsb_exists. exists r. split; [tauto|]. simpl. apply Z.eqb_refl.
Qed.

Lemma getColumns_has_column (db : Database) (this : DataTable.t)
    (cols : list TableColumn.t) (col : TableColumn.t) :
  consistent db -> DataTable.getColumns this db = Return cols -> In col cols ->
  has_column db (TableColumn.id col) = true.
Proof.
  intros Hok Hcols Hin.
  destruct (getByTable_total db (DataTable.id this) Hok) as (cols' & Hc & _ & Hid & _).
  unfold DataTable.getColumns in Hcols. rewrite Hc in Hcols. injection Hcols as ->.
  assert (Hi : In (TableColumn.id col) (map TableColumn.id cols)) by now apply in_map.
  rewrite Hid in Hi. apply in_map_iff in Hi. destruct Hi as (c & Hci & Hcin).
  apply stmt_all_In in Hcin. unfold has_column. apply existsb_exists.
  exists c. split; [tauto|]. now apply Z.eqb_eq.
Qed.

(** What [getData] shows for a pair whose column is the last of its name. *)
Lemma projection_of_pair (db : Database) (this : DataTable.t) (rowId : Z)
    (l1 l2 : list TableColumn.t) (col : TableColumn.t) (cell : option CellData.t) :
  consistent db ->
  DataTable.getColumns this db = Return (l1 ++ col :: l2)%list ->
  TableColumn.name col <> "__proto__" ->
  Forall (fun c' => TableColumn.name c' <> TableColumn.name col) l2 ->
  CellData.get db rowId (TableColumn.id col) = Return cell ->
  exists data,
    DataTable.getData this db = Return data
    /\ Forall2 (fun row rec =>
                  TableRow.id row = rowId ->
                  obj_get (own rec) (TableColumn.name col)
                  = Some (DataTable.value_or_null cell))
         (DataTable.getRows this db) data.
Proof.
  intros Hok Hcols Hname Hl2 Hcell.
  destruct (getData_total db this Hok) as (cols & data & Hcols' & Hdata & Hall).
  rewrite Hcols in Hcols'. injection Hcols' as <-.
  exists data. split; [exact Hdata|].
  eapply Forall2_impl; [|exact Hall]. intros row rec Hrec Hid. simpl in Hrec.
  destruct (inner_loop db row Hok (l1 ++ col :: l2)%list (literal (DataTable.metadata row)))
    as (rec' & Hrec' & Hget).
  rewrite Hrec in Hrec'. injection Hrec' as <-.
  specialize (Hget (TableColumn.name col) Hname).
  rewrite (find_last_named l1 l2 col Hl2) in Hget.
  destruct Hget as (cell' & Hc' & Hv). rewrite Hid, Hcell in Hc'. now injection Hc' as <-.
Qed.

End Existing.

(** C8, as the code has it.  Take a row of the table and a column whose
    name is not [__proto__] and is not the name of a column that
    [getColumns()] lists after it.  If no cell was stored for the pair,
    [getCell] finds nothing and the row's record in [getData()] holds null
    under the column's name.  After [setCell(columnId, null)] the store
    holds a cell for the pair, [getCell] returns it with the value null,
    and the row's record holds null under the column's name all the
    same. *)
Theorem null_cell_and_missing_cell {E : Engine} (history : list Call) (this : DataTable.t)
    (row : TableRow.t) (l1 l2 : list TableColumn.t) (col : TableColumn.t) (now : Z) :
  let db := run history in
  In row (DataTable.getRows this db) ->
  DataTable.getColumns this db = Return (l1 ++ col :: l2)%list ->
  TableColumn.name col <> "__proto__" ->
  Forall (fun c' => TableColumn.name c' <> TableColumn.name col) l2 ->
  (existsb (same_cell (TableRow.id row) (TableColumn.id col)) (cells db) = false ->
   TableRow.getCell row db (TableColumn.id col) = Return None
   /\ exists data,
        DataTable.getData this db = Return data
        /\ Forall2 (fun row' rec =>
                      TableRow.id row' = TableRow.id row ->
                      obj_get (own rec) (TableColumn.name col) = Some JNull)
             (DataTable.getRows this db) data)
  /\ exists cell db',
       TableRow.setCell row db (TableColumn.id col) JNull now = (Return cell, db')
       /\ CellData.value cell = JNull
       /\ existsb (same_cell (TableRow.id row) (TableColumn.id col)) (cells db') = true
       /\ TableRow.getCell row db' (TableColumn.id col) = Return (Some cell)
       /\ In row (DataTable.getRows this db')
       /\ exists data,
            DataTable.getData this db' = Return data
            /\ Forall2 (fun row' rec =>
                          TableRow.id row' = TableRow.id row ->
                          obj_get (own rec) (TableColumn.name col) = Some JNull)
                 (DataTable.getRows this db') data.
Proof.
  intros db Hrow Hcols Hname Hl2.
  pose proof (consistent_run history) as Hok. fold db in Hok.
  split.
  - intros Hnone. apply cell_get_none in Hnone. split; [exact Hnone|].
    exact (projection_of_pair db this (TableRow.id row) l1 l2 col None
             Hok Hcols Hname Hl2 Hnone).
  - assert (Hpre : existsb (same_cell (TableRow.id row) (TableColumn.id col)) (cells db) = true
                   \/ has_row db (TableRow.id row) && has_column db (TableColumn.id col) = true).
    { right. rewrite (getRows_has_row db this row Hrow).
      rewrite (getColumns_has_column db this _ col Hok Hcols); [reflexivity|].
      apply in_or_app. right. now left. }
    destruct (set_spec db (TableRow.id row) (TableColumn.id col) JNull now Hok Hpre)
      as (id & db' & Hset & Hok' & (text & Hf & _) & Hget & _ & _ & _ & Hc & Hr).
    exists (CellData.mk id (TableRow.id row) (TableColumn.id col) JNull now), db'.
    split; [exact Hset|]. split; [reflexivity|]. split.
    { apply existsb_exists. eexists. split.
      - eapply (proj1 (filter_In _ _ _)). rewrite Hf. now left.
      - unfold same_cell. simpl. now rewrite !Z.eqb_refl. }
    split; [exact Hget|].
    assert (Hrows' : DataTable.getRows this db' = DataTable.getRows this db)
      by (unfold DataTable.getRows, TableRow.getByTable; now rewrite Hr).
    assert (Hcols' : DataTable.getColumns this db' = Return (l1 ++ col :: l2)%list)
      by (unfold DataTable.getColumns, TableColumn.getByTable in *; now rewrite Hc).
    split; [now rewrite Hrows'|].
    exact (projection_of_pair db' this (TableRow.id row) l1 l2 col _
             Hok' Hcols' Hname Hl2 Hget).
Qed.

Lemma null_cell_and_missing_cell_witness :
  let history := [create_table "T" 1; add_column 1 "A" None JUndefined 2;
                  add_column 1 "B" None JUndefined 3; add_row 1 None 4] in
  let db := run history in
  let this := DataTable.mk 1 "T" 1 in
  let row := TableRow.mk 1 1 0 4 in
  let col := TableColumn.mk 1 1 "A" "text" (JObject []) 2 in
  let l2 := [TableColumn.mk 2 1 "B" "text" (JObject []) 3] in
  (In row (DataTable.getRows this db)
   /\ DataTable.getColumns this db = Return ([] ++ col :: l2)%list
   /\ TableColumn.name col <> "__proto__"
   /\ Forall (fun c' => TableColumn.name c' <> TableColumn.name col) l2
   /\ existsb (same_cell (TableRow.id row) (TableColumn.id col)) (cells db) = false)
  /\ TableRow.getCell row db (TableColumn.id col) = Return None
  /\ exists cell db',
       TableRow.setCell row db (TableColumn.id col) JNull 5 = (Return cell, db')
       /\ CellData.value cell = JNull
       /\ TableRow.getCell row db' (TableColumn.id col) = Return (Some cell).
Proof.
  intros history db this row col l2.
  assert (H1 : In row (DataTable.getRows this db)) by (now left).
  assert (H2 : DataTable.getColumns this db = Return ([] ++ col :: l2)%list) by reflexivity.
  assert (H3 : TableColumn.name col <> "__proto__") by discriminate.
  assert (H4 : Forall (fun c' => TableColumn.name c' <> TableColumn.name col) l2)
    by (repeat constructor; discriminate).
  assert (H5 : existsb (same_cell (TableRow.id row) (TableColumn.id col)) (cells db) = false)
    by reflexivity.
  split; [auto|].
  destruct (null_cell_and_missing_cell (E:=rowid_order) history this row [] l2 col 5
              H1 H2 H3 H4) as (Hmiss & cell & db' & Hset & Hv & _ & Hget & _).
  split; [exact (proj1 (Hmiss H5))|].
  exists cell, db'. auto.
Defined.

(** C8 as stated fails: with two columns of one name, the pair of the
    first column is set to null and the row's record shows the value of
    the second. *)
Lemma getData_null_cell_hidden :
  let db := run [create_table "T" 1; add_column 1 "x" None JUndefined 2;
                 add_column 1 "x" None JUndefined 3; add_row 1 None 4;
                 set_cell 1 1 JNull 5; set_cell 1 2 (number 5) 6] in
  let this := DataTable.mk 1 "T" 1 in
  CellData.get db 1 1 = Return (Some (CellData.mk 1 1 1 JNull 5))
  /\ ~ (exists data,
          DataTable.getData this db = Return data
          /\ Forall (fun rec => obj_get (own rec) "x" = Some JNull) data).
Proof.
  intros db this. split; [reflexivity|].
  intros (data & Hd & Hall).
  vm_compute in Hd. injection Hd as <-.
  apply Forall_inv in Hall. vm_compute in Hall. discriminate Hall.
Qed.

(** **** Writing and reading a cell *)

(** C2, as the code has it.  On a row and a column of the store,
    [setCell(columnId, v)] followed by [getCell(columnId)] returns the cell
    that [setCell] returned, whose value is what [JSON.parse] rebuilds from
    the text of [v].  That value is [v] itself exactly when [v] is made
    of null, booleans, strings, finite numbers other than the negative
    zero (integers or not), arrays, and objects given by their properties
    in the order in which JavaScript lists them. *)
Theorem setCell_getCell_round_trip {E : Engine} (history : list Call) (this : TableRow.t)
    (columnId : Z) (v : JsValue) (now : Z) :
  let db := run history in
  has_row db (TableRow.id this) = true ->
  has_column db columnId = true ->
  exists cell db',
    TableRow.setCell this db columnId v now = (Return cell, db')
    /\ TableRow.getCell this db' columnId = Return (Some cell)
    /\ CellData.value cell = revive v
    /\ (CellData.value cell = v <-> plain v = true).
Proof.
  intros db Hrow Hcol. pose proof (consistent_run history) as Hok. fold db in Hok.
  assert (Hpre : existsb (same_cell (TableRow.id this) columnId) (cells db) = true
                 \/ has_row db (TableRow.id this) && has_column db columnId = true)
    by (right; now rewrite Hrow, Hcol).
  destruct (set_spec db (TableRow.id this) columnId v now Hok Hpre)
    as (id & db' & Hset & _ & _ & Hget & _).
  eexists. exists db'. split; [exact Hset|]. split; [exact Hget|].
  split; [reflexivity|]. simpl. split.
  - intros Hv. rewrite <- Hv. apply plain_revive.
  - intros Hp. now apply revive_plain.
Qed.

Lemma setCell_getCell_round_trip_witness :
  let history := [create_table "T" 1; add_column 1 "A" None JUndefined 2;
                  add_row 1 None 3] in
  let db := run history in
  let this := TableRow.mk 1 1 0 3 in
  let v := JObject [("7", JNumber (of_decimal false 15 (-1)));
                    ("tags", JArray [JString "a"; number (-12); JNull; JBool true;
                                     JNumber (of_decimal false 1 (-7));
                                     JNumber (of_decimal true 25 20)]);
                    ("nested", JObject [("empty", JArray [])])] in
  (has_row db (TableRow.id this) = true /\ has_column db 1 = true /\ plain v = true)
  /\ JSON.stringify v
     = Some ("{" ++ String JSON.dquote "7" ++ String JSON.dquote ":1.5,"
                 ++ String JSON.dquote "tags" ++ String JSON.dquote ":["
                 ++ String JSON.dquote "a" ++ String JSON.dquote ",-12,null,true,1e-7,-2.5e+21],"
                 ++ String JSON.dquote "nested" ++ String JSON.dquote ":{"
                 ++ String JSON.dquote "empty" ++ String JSON.dquote ":[]}}")
  /\ exists cell db',
       TableRow.setCell this db 1 v 4 = (Return cell, db')
       /\ TableRow.getCell this db' 1 = Return (Some cell)
       /\ CellData.value cell = v.
Proof.
  intros history db this v.
  assert (Hp : plain v = true) by (vm_compute; reflexivity).
  split; [repeat split; try reflexivity; exact Hp|].
  split; [vm_compute; reflexivity|].
  destruct (setCell_getCell_round_trip (E:=rowid_order) history this 1 v 4 eq_refl eq_refl)
    as (cell & db' & Hset & Hget & _ & Hv).
  exists cell, db'. split; [exact Hset|]. split; [exact Hget|]. now apply Hv.
Defined.

(** C2 as stated fails: the float NaN is stored as the text [null] and
    read back as null. *)
Lemma setCell_NaN_reads_null :
  let db := run [create_table "T" 1; add_column 1 "A" None JUndefined 2;
                 add_row 1 None 3] in
  let this := TableRow.mk 1 1 0 3 in
  let db' := snd (TableRow.setCell this db 1 (JNumber NaN) 4) in
  TableRow.getCell this db' 1 = Return (Some (CellData.mk 1 1 1 JNull 4))
  /\ ~ (exists cell,
          TableRow.getCell this db' 1 = Return (Some cell)
          /\ CellData.value cell = JNumber NaN).
Proof.
  intros db this db'. split; [reflexivity|].
  intros (cell & Hget & Hv). vm_compute in Hget. injection Hget as <-.
  discriminate Hv.
Qed.

(** C3, as the code has it.  On a row and a column of the store, two
    [setCell] calls on the pair leave one cell for it: the second call
    rewrites the cell of the first (same id, no row added), which then
    holds what [JSON.parse] rebuilds from the text of [v2] and, as
    updatedAt, the clock reading of the second call, while the first call
    had left the reading of the first. *)
Theorem setCell_twice_is_upsert {E : Engine} (history : list Call) (this : TableRow.t)
    (columnId : Z) (v1 v2 : JsValue) (now1 now2 : Z) :
  let db := run history in
  has_row db (TableRow.id this) = true ->
  has_column db columnId = true ->
  exists c1 db1 c2 db2,
    TableRow.setCell this db columnId v1 now1 = (Return c1, db1)
    /\ TableRow.setCell this db1 columnId v2 now2 = (Return c2, db2)
    /\ List.length (filter (same_cell (TableRow.id this) columnId) (cells db2)) = 1%nat
    /\ TableRow.getCell this db2 columnId = Return (Some c2)
    /\ CellData.value c2 = revive v2
    /\ (plain v2 = true -> CellData.value c2 = v2)
    /\ CellData.id c2 = CellData.id c1
    /\ List.length (cells db2) = List.length (cells db1)
    /\ CellData.updatedAt c1 = now1
    /\ CellData.updatedAt c2 = now2.
Proof.
  intros db Hrow Hcol. pose proof (consistent_run history) as Hok. fold db in Hok.
  set (r := TableRow.id this) in *.
  assert (Hpre : existsb (same_cell r columnId) (cells db) = true
                 \/ has_row db r && has_column db columnId = true)
    by (right; now rewrite Hrow, Hcol).
  destruct (set_spec db r columnId v1 now1 Hok Hpre)
    as (id1 & db1 & Hset1 & Hok1 & (t1 & Hf1 & _) & _).
  assert (Hin1 : In (mk_cells id1 r columnId t1 now1) (cells db1)
                 /\ same_cell r columnId (mk_cells id1 r columnId t1 now1) = true)
    by (apply filter_In; rewrite Hf1; now left).
  destruct Hin1 as [Hin1 Hs1].
  assert (Hpre1 : existsb (same_cell r columnId) (cells db1) = true
                  \/ has_row db1 r && has_column db1 columnId = true)
    by (left; apply existsb_exists; eauto).
  destruct (set_spec db1 r columnId v2 now2 Hok1 Hpre1)
    as (id2 & db2 & Hset2 & _ & (t2 & Hf2 & _) & Hget2 & Hsame & _).
  destruct (Hsame _ Hin1 Hs1) as [Hid Hlen]. simpl in Hid.
  do 2 eexists. exists (CellData.mk id2 r columnId (revive v2) now2), db2.
  split; [exact Hset1|]. split; [exact Hset2|].
  split; [now rewrite Hf2|]. split; [exact Hget2|].
  split; [reflexivity|]. split; [simpl; intros Hp; now apply revive_plain|].
  split; [exact Hid|]. split; [exact Hlen|]. split; reflexivity.
Qed.

Lemma setCell_twice_is_upsert_witness :
  let history := [create_table "T" 1; add_column 1 "A" None JUndefined 2;
                  add_row 1 None 3] in
  let db := run history in
  let this := TableRow.mk 1 1 0 3 in
  (has_row db (TableRow.id this) = true /\ has_column db 1 = true)
  /\ exists c1 db1 c2 db2,
       TableRow.setCell this db 1 (number 28) 10 = (Return c1, db1)
       /\ TableRow.setCell this db1 1 (number 29) 11 = (Return c2, db2)
       /\ List.length (filter (same_cell (TableRow.id this) 1) (cells db2)) = 1%nat
       /\ CellData.value c2 = number 29
       /\ CellData.updatedAt c1 < CellData.updatedAt c2.
Proof.
  intros history db this. split; [split; reflexivity|].
  destruct (setCell_twice_is_upsert (E:=rowid_order) history this 1 (number 28) (number 29)
              10 11 eq_refl eq_refl)
    as (c1 & db1 & c2 & db2 & H1 & H2 & Hone & _ & _ & Hv & _ & _ & Ht1 & Ht2).
  exists c1, db1, c2, db2. split; [exact H1|]. split; [exact H2|].
  split; [exact Hone|]. split; [now apply Hv|]. rewrite Ht1, Ht2. reflexivity.
Defined.

(** C3 as stated fails: two writes that read the same millisecond off the
    clock leave updatedAt where the first write put it. *)
Lemma setCell_twice_same_millisecond :
  let db := run [create_table "T" 1; add_column 1 "A" None JUndefined 2;
                 add_row 1 None 3] in
  let this := TableRow.mk 1 1 0 3 in
  let first := TableRow.setCell this db 1 (number 28) 10 in
  let second := TableRow.setCell this (snd first) 1 (number 29) 10 in
  fst first = Return (CellData.mk 1 1 1 (number 28) 10)
  /\ fst second = Return (CellData.mk 1 1 1 (number 29) 10)
  /\ ~ (exists c1 c2,
          fst first = Return c1 /\ fst second = Return c2
          /\ CellData.updatedAt c1 < CellData.updatedAt c2).
Proof.
  intros db this first second. split; [reflexivity|]. split; [reflexivity|].
  intros (c1 & c2 & H1 & H2 & Hlt).
  vm_compute in H1, H2. injection H1 as <-. injection H2 as <-.
  simpl in Hlt. lia.
Qed.

End Claims.

(** * Further properties of the data layer *)

Module Extras.
Import JSON JSONFacts DiamantDB Schema StoreFacts Claims.

(** **** Referential integrity *)

Lemma existsb_app_l (A : Type) (p : A -> bool) (l l' : list A) :
  existsb p l = true -> existsb p (l ++ l') = true.
Proof. intros H. rewrite existsb_app, H. reflexivity. Qed.

Lemma referential_empty : referential empty.
Proof. repeat split; constructor. Qed.

Lemma referential_insert_tables (db : Database) (name : string) (now : Z) :
  referential db -> referential (fst (insert_tables db name now)).
Proof.
  intros (Hc & Hr & Hx). repeat split; simpl; try exact Hx.
  - eapply Forall_impl; [|exact Hc]. intros c H. now apply existsb_app_l.
  - eapply Forall_impl; [|exact Hr]. intros r H. now apply existsb_app_l.
Qed.

Lemma referential_insert_columns (db db' : Database) (tableId id : Z) (name type : string)
    (text : option string) (now : Z) :
  referential db ->
  insert_columns db tableId name type text now = Return (db', id) ->
  referential db'.
Proof.
  intros (Hc & Hr & Hx). unfold insert_columns.
  destruct (has_table db tableId) eqn:Ht; [|discriminate]. intros [= <- <-].
  repeat split; simpl.
  - apply Forall_app. split; [exact Hc | constructor; [exact Ht | constructor]].
  - exact Hr.
  - eapply Forall_impl; [|exact Hx]. intros x [H1 H2]. split; [exact H1|].
    now apply existsb_app_l.
Qed.

Lemma referential_insert_rows (db db' : Database) (tableId id position now : Z) :
  referential db ->
  insert_rows db tableId position now = Return (db', id) ->
  referential db'.
Proof.
  intros (Hc & Hr & Hx). unfold insert_rows.
  destruct (has_table db tableId) eqn:Ht; [|discriminate]. intros [= <- <-].
  repeat split; simpl.
  - exact Hc.
  - apply Forall_app. split; [exact Hr | constructor; [exact Ht | constructor]].
  - eapply Forall_impl; [|exact Hx]. intros x [H1 H2]. split; [|exact H2].
    now apply existsb_app_l.
Qed.

Lemma referential_upsert_cells (db db' : Database) (r c : Z) (text : option string) (now : Z) :
  referential db ->
  upsert_cells db r c text now = Return db' ->
  referential db'.
Proof.
  intros (Hc & Hr & Hx). unfold upsert_cells.
  destruct (existsb (same_cell r c) (cells db)).
  - intros [= <-]. repeat split; simpl; auto.
    unfold update_cells. rewrite Forall_map. eapply Forall_impl; [|exact Hx].
    intros x H. destruct (same_cell r c x); exact H.
  - destruct (has_row db r && has_column db c) eqn:Hrc; [|discriminate]. intros [= <-].
    apply andb_prop in Hrc. repeat split; simpl; auto.
    apply Forall_app. split; [exact Hx | constructor; [exact Hrc | constructor]].
Qed.

Lemma referential_delete_tables (db : Database) (id : Z) :
  referential db -> referential (delete_tables db id).
Proof.
  intros (Hc & Hr & Hx). unfold delete_tables.
  destruct (has_table db id); [|repeat split; assumption].
  assert (Hkeep : forall k, (k =? id) = false -> has_table db k = true ->
            existsb (fun t => tables_id t =? k)
              (filter (fun t => negb (tables_id t =? id)) (tables db)) = true).
  { intros k Hk Hhas. apply existsb_exists in Hhas. destruct Hhas as (t & Hin & Ht).
    apply existsb_exists. exists t. split; [|exact Ht].
    apply filter_In. split; [exact Hin|]. apply Z.eqb_eq in Ht. now rewrite Ht, Hk. }
  rewrite Forall_forall in Hc, Hr, Hx.
  repeat split; unfold has_table, has_row, has_column; simpl; apply Forall_forall.
  - intros c Hin. apply filter_In in Hin. destruct Hin as [Hin Hne].
    apply Hkeep; [now apply negb_true_iff | now apply Hc].
  - intros r Hin. apply filter_In in Hin. destruct Hin as [Hin Hne].
    apply Hkeep; [now apply negb_true_iff | now apply Hr].
  - intros x Hin. apply filter_In in Hin. destruct Hin as [Hin Hor].
    apply negb_true_iff, orb_false_iff in Hor. destruct Hor as [Hor Hoc].
    destruct (Hx x Hin) as [Hhr Hhc]. split.
    + apply existsb_exists in Hhr. destruct Hhr as (r & Hrin & Hrid).
      apply existsb_exists. exists r. split; [|exact Hrid].
      apply filter_In. split; [exact Hrin|].
      destruct (rows_table_id r =? id) eqn:Ht; [|reflexivity].
      assert (existsb (fun r0 => rows_id r0 =? cells_row_id x)
                (filter (fun r0 => rows_table_id r0 =? id) (rows db)) = true)
        by (apply existsb_exists; exists r; split; [apply filter_In; auto | exact Hrid]).
      congruence.
    + apply existsb_exists in Hhc. destruct Hhc as (c & Hcin & Hcid).
      apply existsb_exists. exists c. split; [|exact Hcid].
      apply filter_In. split; [exact Hcin|].
      destruct (columns_table_id c =? id) eqn:Ht; [|reflexivity].
      assert (existsb (fun c0 => columns_id c0 =? cells_column_id x)
                (filter (fun c0 => columns_table_id c0 =? id) (columns db)) = true)
        by (apply existsb_exists; exists c; split; [apply filter_In; auto | exact Hcid]).
      congruence.
Qed.

Lemma referential_exec (db : Database) (c : Call) :
  referential db -> referential (exec db c).
Proof.
  intros H. destruct c as [name now|tableId name type options now|tableId position now
                          |rowId columnId value now|tableId]; simpl.
  - apply (referential_insert_tables db name now H).
  - unfold TableColumn.create.
    destruct (JSON.stringify (TableColumn.default_options options)) as [text|]; [|exact H].
    destruct (insert_columns db tableId name _ (Some text) now) as [[db' id]|e] eqn:Hi;
      [|exact H].
    simpl. eapply referential_insert_columns; [exact H | exact Hi].
  - unfold TableRow.create.
    destruct (insert_rows db tableId _ now) as [[db' id]|e] eqn:Hi; [|exact H].
    simpl. eapply referential_insert_rows; [exact H | exact Hi].
  - unfold CellData.set.
    destruct (CellData.valueStr value) as [text|e]; [|exact H].
    destruct (upsert_cells db rowId columnId text now) as [db'|e] eqn:Hu; [|exact H].
    simpl. eapply referential_upsert_cells; [exact H | exact Hu].
  - now apply referential_delete_tables.
Qed.

(** X1.  After any history of calls every column and every row of the
    store references a table of the store, and every cell references a
    row and a column of the store: neither the creations nor the cascade
    of a deletion leave a dangling reference. *)
Theorem references_never_dangle (history : list Call) : referential (run history).
Proof.
  unfold run. assert (H : referential (init empty)) by exact referential_empty.
  revert H. generalize (init empty).
  induction history as [|c history IH]; intros db H; [exact H|].
  simpl. apply IH. now apply referential_exec.
Qed.

Lemma referential_fold (history : list Call) (db : Database) :
  referential db -> referential (fold_left exec history db).
Proof.
  revert db. induction history as [|c history IH]; intros db H; [exact H|].
  simpl. apply IH. now apply referential_exec.
Qed.

Lemma referential_run (history : list Call) : referential (run history).
Proof. apply referential_fold, referential_empty. Qed.

(** **** Creations that reference nothing *)

Lemma stringify_default_options (options : JsValue) :
  JSON.stringify (TableColumn.default_options options)
  = Some (SerializeJSON (TableColumn.default_options options)).
Proof. destruct options; reflexivity. Qed.

(** X2.  A column or a row created for a table id that the store does
    not hold, and a cell set for a row id or a column id that the store
    does not hold, are refused with the engine's foreign-key error, and
    the store is left as it was. *)
Theorem missing_parent_is_refused {E : Engine} (history : list Call) :
  let db := run history in
  (forall tableId name type options now,
      has_table db tableId = false ->
      TableColumn.create db tableId name type options now = (Throw FOREIGN_KEY_failed, db))
  /\ (forall tableId position now,
        has_table db tableId = false ->
        TableRow.create db tableId position now = (Throw FOREIGN_KEY_failed, db))
  /\ (forall rowId columnId value now,
        has_row db rowId = false \/ has_column db columnId = false ->
        CellData.set db rowId columnId value now = (Throw FOREIGN_KEY_failed, db)).
Proof.
  intros db. split; [|split].
  - intros tableId name type options now H. unfold TableColumn.create.
    rewrite stringify_default_options. unfold insert_columns. now rewrite H.
  - intros tableId position now H. unfold TableRow.create, insert_rows. now rewrite H.
  - intros r c v now H.
    assert (Hfree : existsb (same_cell r c) (cells db) = false).
    { apply existsb_false. intros x Hx.
      destruct (same_cell r c x) eqn:Hs; [|reflexivity].
      apply same_cell_key in Hs. injection Hs as Hr Hc.
      destruct (referential_run history) as (_ & _ & Href). fold db in Href.
      rewrite Forall_forall in Href. destruct (Href x Hx) as [H1 H2].
      rewrite Hr in H1. rewrite Hc in H2. destruct H; congruence. }
    unfold CellData.set.
    destruct (valueStr_reads_back v) as (text & Hv & _). rewrite Hv.
    unfold upsert_cells. rewrite Hfree.
    destruct H as [H|H]; rewrite H; [|rewrite andb_false_r]; reflexivity.
Qed.

(** **** What a write leaves alone *)

Lemma upsert_cells_frame (db db' : Database) (r c : Z) (text : option string) (now : Z) :
  upsert_cells db r c text now = Return db' ->
  tables db' = tables db /\ columns db' = columns db /\ rows db' = rows db
  /\ forall r' c', (r', c') <> (r, c) ->
       filter (same_cell r' c') (cells db') = filter (same_cell r' c') (cells db).
Proof.
  unfold upsert_cells. destruct (existsb (same_cell r c) (cells db)).
  - intros [= <-]. simpl. repeat split. intros r' c' Hne. now apply filter_update_other.
  - destruct (has_row db r && has_column db c); [|discriminate]. intros [= <-]. simpl.
    repeat split. intros r' c' Hne. rewrite filter_app. simpl.
    assert (Hx : same_cell r' c' (mk_cells (cells_seq db + 1) r c text now) = false).
    { destruct (same_cell r' c' _) eqn:H'; [|reflexivity].
      apply same_cell_key in H'. unfold cell_key in H'. simpl in H'. congruence. }
    rewrite Hx. apply app_nil_r.
Qed.

Lemma set_frame {E : Engine} (db : Database) (r c : Z) (v : JsValue) (now : Z) :
  let db' := snd (CellData.set db r c v now) in
  tables db' = tables db /\ columns db' = columns db /\ rows db' = rows db
  /\ forall r' c', (r', c') <> (r, c) ->
       filter (same_cell r' c') (cells db') = filter (same_cell r' c') (cells db).
Proof.
  unfold CellData.set. destruct (CellData.valueStr v) as [text|e]; [|simpl; auto].
  destruct (upsert_cells db r c text now) as [db'|e] eqn:Hu; [|simpl; auto].
  simpl. now apply (upsert_cells_frame db db' r c text now).
Qed.

(** X3.  [setCell] on one pair changes the cell of no other pair:
    whether it succeeds or throws, [getCell] answers for every other
    (row, column) pair as before, and the tables, columns and rows of
    the store are the same. *)
Theorem setCell_leaves_other_pairs {E : Engine} (db : Database) (this : TableRow.t)
    (columnId : Z) (v : JsValue) (now : Z) (rowId' columnId' : Z) :
  (rowId', columnId') <> (TableRow.id this, columnId) ->
  let db' := snd (TableRow.setCell this db columnId v now) in
  CellData.get db' rowId' columnId' = CellData.get db rowId' columnId'
  /\ tables db' = tables db /\ columns db' = columns db /\ rows db' = rows db.
Proof.
  intros Hne db'. subst db'. unfold TableRow.setCell.
  destruct (set_frame db (TableRow.id this) columnId v now) as (Ht & Hc & Hr & Hx).
  split; [|auto].
  unfold CellData.get, stmt_get, stmt_all. now rewrite (Hx _ _ Hne).
Qed.

Lemma setCell_leaves_other_pairs_witness :
  let db := run [create_table "T" 1; add_column 1 "A" None JUndefined 2;
                 add_column 1 "B" None JUndefined 3; add_row 1 None 4;
                 set_cell 1 2 (JString "b") 5] in
  let this := TableRow.mk 1 1 0 4 in
  let db' := snd (TableRow.setCell this db 1 (JString "a") 6) in
  (1, 2) <> (TableRow.id this, 1)
  /\ CellData.get db' 1 2 = Return (Some (CellData.mk 1 1 2 (JString "b") 5)).
Proof.
  intros db this db'. split; [discriminate|].
  refine (eq_trans (proj1 (setCell_leaves_other_pairs db this 1 (JString "a") 6 1 2 _)) _);
    [discriminate | reflexivity].
Defined.

(** **** What a deletion leaves alone *)

Lemma filter_filter_sub (A : Type) (p q : A -> bool) (l : list A) :
  (forall x, In x l -> p x = true -> q x = true) ->
  filter p (filter q l) = filter p l.
Proof.
  induction l as [|x l IH]; intros H; [reflexivity|].
  simpl. destruct (q x) eqn:Hq; simpl.
  - rewrite IH; [reflexivity|]. intros y Hy. apply H. now right.
  - destruct (p x) eqn:Hp.
    + rewrite (H x (or_introl eq_refl) Hp) in Hq. discriminate Hq.
    + apply IH. intros y Hy. apply H. now right.
Qed.

Lemma for_of_ext (A S : Type) (l : list A) (body body' : S -> A -> Outcome S) :
  (forall acc x, In x l -> body acc x = body' acc x) ->
  forall acc, for_of l body acc = for_of l body' acc.
Proof.
  induction l as [|x l IH]; intros H acc; [reflexivity|].
  simpl. rewrite (H acc x (or_introl eq_refl)).
  destruct (body' acc x) as [acc'|e]; [|reflexivity].
  simpl. apply IH. intros a y Hy. apply H. now right.
Qed.

Lemma Forall2_in_r (A B : Type) (R : A -> B -> Prop) (l : list A) (l' : list B) (y : B) :
  Forall2 R l l' -> In y l' -> exists x, In x l /\ R x y.
Proof.
  induction 1 as [|x y' l l' Hxy Hl IH]; intros Hin; [destruct Hin|].
  destruct Hin as [->|Hin]; [exists x; split; [now left | exact Hxy]|].
  destruct (IH Hin) as (x' & Hx' & HR). exists x'. split; [now right | exact HR].
Qed.

Section Members.
Context {E : Engine}.

(** A column that [getColumns] returns is a column of the store that
    references the table. *)
Lemma getColumns_member (db : Database) (this : DataTable.t) (cols : list TableColumn.t)
    (col : TableColumn.t) :
  DataTable.getColumns this db = Return cols -> In col cols ->
  exists c, In c (columns db) /\ columns_table_id c = DataTable.id this
            /\ TableColumn.of_data c = Return col.
Proof.
  unfold DataTable.getColumns, TableColumn.getByTable.
  set (data := stmt_all _ _).
  assert (Hdata : forall c, In c data ->
             In c (columns db) /\ columns_table_id c = DataTable.id this).
  { intros c Hc. apply stmt_all_In in Hc. destruct Hc as [Hc Ht].
    split; [exact Hc | now apply Z.eqb_eq]. }
  clearbody data. revert cols. induction data as [|c data IH]; intros cols Hcols Hin.
  - simpl in Hcols. injection Hcols as <-. destruct Hin.
  - simpl in Hcols. destruct (TableColumn.of_data c) as [col0|e] eqn:Hc; [|discriminate].
    simpl in Hcols. destruct (map_outcome TableColumn.of_data data) as [cols0|e] eqn:Hm;
      [|discriminate].
    simpl in Hcols. injection Hcols as <-. destruct Hin as [<-|Hin].
    + exists c. destruct (Hdata c (or_introl eq_refl)). auto.
    + apply (IH (fun c' Hc' => Hdata c' (or_intror Hc')) cols0 eq_refl Hin).
Qed.

Lemma column_of_data_id (c : columns_rec) (col : TableColumn.t) :
  TableColumn.of_data c = Return col -> TableColumn.id col = columns_id c.
Proof.
  unfold TableColumn.of_data. destruct (parse_or _ _); simpl; [|discriminate].
  now intros [= <-].
Qed.

(** A row that [getRows] returns is a row of the store that references
    the table. *)
Lemma getRows_member (db : Database) (this : DataTable.t) (row : TableRow.t) :
  In row (DataTable.getRows this db) ->
  exists r, In r (rows db) /\ rows_table_id r = DataTable.id this
            /\ TableRow.of_data r = row.
Proof.
  intros Hin. destruct (getRows_sorted db this) as [Hperm _].
  eapply Permutation_in in Hin; [|exact Hperm].
  apply in_map_iff in Hin. destruct Hin as (r & Hr & Hin). apply filter_In in Hin.
  exists r. destruct Hin as [Hin Ht]. apply Z.eqb_eq in Ht. auto.
Qed.

End Members.

Lemma delete_tables_other (db : Database) (T O : Z) :
  consistent db -> O <> T ->
  let db' := delete_tables db T in
  filter (fun t => tables_id t =? O) (tables db') = filter (fun t => tables_id t =? O) (tables db)
  /\ filter (fun c => columns_table_id c =? O) (columns db')
     = filter (fun c => columns_table_id c =? O) (columns db)
  /\ filter (fun r => rows_table_id r =? O) (rows db')
     = filter (fun r => rows_table_id r =? O) (rows db)
  /\ forall r c rowId columnId,
       In r (rows db) -> rows_table_id r = O -> rows_id r = rowId ->
       In c (columns db) -> columns_table_id c = O -> columns_id c = columnId ->
       filter (same_cell rowId columnId) (cells db')
       = filter (same_cell rowId columnId) (cells db).
Proof.
  intros Hok Hne db'. subst db'. unfold delete_tables.
  destruct (has_table db T); [|repeat split; reflexivity].
  assert (Hkeep : forall k, (k =? O) = true -> negb (k =? T) = true).
  { intros k Hk. apply Z.eqb_eq in Hk. subst k. apply negb_true_iff. now apply Z.eqb_neq. }
  simpl. split; [|split; [|split]].
  - apply filter_filter_sub. intros t _. apply Hkeep.
  - apply filter_filter_sub. intros c _. apply Hkeep.
  - apply filter_filter_sub. intros r _. apply Hkeep.
  - intros r c rowId columnId Hr Hrt Hrid Hc Hct Hcid.
    apply filter_filter_sub. intros x Hx Hs.
    apply same_cell_key in Hs. injection Hs as Hxr Hxc.
    apply negb_true_iff, orb_false_iff. split; apply existsb_false.
    + intros r' Hr'. apply filter_In in Hr'. destruct Hr' as [Hin' Ht'].
      destruct (rows_id r' =? cells_row_id x) eqn:Hid; [|reflexivity].
      apply Z.eqb_eq in Hid. apply Z.eqb_eq in Ht'.
      assert (r' = r).
      { apply (key_inj _ _ rows_id (rows db)); [|exact Hin'|exact Hr|congruence].
        eapply primary_key_NoDup, (rows_key db Hok). }
      subst r'. congruence.
    + intros c' Hc'. apply filter_In in Hc'. destruct Hc' as [Hin' Ht'].
      destruct (columns_id c' =? cells_column_id x) eqn:Hid; [|reflexivity].
      apply Z.eqb_eq in Hid. apply Z.eqb_eq in Ht'.
      assert (c' = c).
      { apply (key_inj _ _ columns_id (columns db)); [|exact Hin'|exact Hc|congruence].
        eapply primary_key_NoDup, (columns_key db Hok). }
      subst c'. congruence.
Qed.

(** X4.  Deleting a table leaves every other table as it was: [get],
    [getColumns], [getRows] and [getData] of a table with another id
    return after the deletion what they returned before. *)
Theorem delete_leaves_other_tables {E : Engine} (history : list Call)
    (this other : DataTable.t) :
  let db := run history in
  let db' := DataTable.delete this db in
  DataTable.id other <> DataTable.id this ->
  DataTable.get db' (DataTable.id other) = DataTable.get db (DataTable.id other)
  /\ DataTable.getColumns other db' = DataTable.getColumns other db
  /\ DataTable.getRows other db' = DataTable.getRows other db
  /\ DataTable.getData other db' = DataTable.getData other db.
Proof.
  intros db db' Hne. pose proof (consistent_run history) as Hok. fold db in Hok.
  destruct (delete_tables_other db (DataTable.id this) (DataTable.id other) Hok Hne)
    as (Ht & Hc & Hr & Hx).
  change (delete_tables db (DataTable.id this)) with db' in Ht, Hc, Hr, Hx.
  assert (Hcols : DataTable.getColumns other db' = DataTable.getColumns other db).
  { unfold DataTable.getColumns, TableColumn.getByTable, stmt_all. now rewrite Hc. }
  assert (Hrows : DataTable.getRows other db' = DataTable.getRows other db).
  { unfold DataTable.getRows, TableRow.getByTable, stmt_all. now rewrite Hr. }
  split; [|split; [exact Hcols|split; [exact Hrows|]]].
  - unfold DataTable.get, stmt_get, stmt_all. now rewrite Ht.
  - unfold DataTable.getData. rewrite Hcols, Hrows.
    destruct (DataTable.getColumns other db) as [cols|e] eqn:Hg; [|reflexivity].
    simpl. apply for_of_ext. intros data row Hrow.
    f_equal. unfold DataTable.row_record. apply for_of_ext. intros o col Hcol.
    unfold DataTable.put_cell. f_equal.
    destruct (getRows_member db other row Hrow) as (r & Hrin & Hrt & Hrd).
    destruct (getColumns_member db other cols col Hg Hcol) as (c & Hcin & Hct & Hcd).
    unfold CellData.get, stmt_get, stmt_all.
    rewrite (Hx r c (TableRow.id row) (TableColumn.id col) Hrin Hrt
               ltac:(now rewrite <- Hrd) Hcin Hct
               ltac:(symmetry; now apply column_of_data_id)).
    reflexivity.
Qed.

Lemma delete_leaves_other_tables_witness :
  let history := [create_table "T" 1; create_table "U" 2;
                  add_column 2 "A" None JUndefined 3; add_row 2 None 4;
                  set_cell 1 1 (number 7) 5] in
  let db := run history in
  let this := DataTable.mk 1 "T" 1 in
  let other := DataTable.mk 2 "U" 2 in
  DataTable.id other <> DataTable.id this
  /\ DataTable.getData other (DataTable.delete this db)
     = Return [literal [("_rowId", number 1); ("_position", number 0); ("A", number 7)]].
Proof.
  intros history db this other. split; [discriminate|].
  refine (eq_trans (proj2 (proj2 (proj2
            (delete_leaves_other_tables (E:=rowid_order) history this other _)))) _);
    [discriminate | reflexivity].
Defined.

(** X5.  A table object outlives its table: after [delete()] on a table
    of the store, [getColumns], [getRows] and [getData] on the same
    object return empty sequences and throw nothing. *)
Theorem deleted_table_reads_empty {E : Engine} (db : Database) (this : DataTable.t) :
  has_table db (DataTable.id this) = true ->
  let db' := DataTable.delete this db in
  DataTable.getColumns this db' = Return []
  /\ DataTable.getRows this db' = []
  /\ DataTable.getData this db' = Return [].
Proof.
  intros Hhas db'.
  assert (Hc : filter (fun c => columns_table_id c =? DataTable.id this) (columns db') = []).
  { subst db'. unfold DataTable.delete, delete_tables. rewrite Hhas. simpl.
    apply filter_none. intros c Hc. apply filter_In in Hc. destruct Hc as [_ Hc].
    now apply negb_true_iff in Hc. }
  assert (Hr : filter (fun r => rows_table_id r =? DataTable.id this) (rows db') = []).
  { subst db'. unfold DataTable.delete, delete_tables. rewrite Hhas. simpl.
    apply filter_none. intros r Hr. apply filter_In in Hr. destruct Hr as [_ Hr].
    now apply negb_true_iff in Hr. }
  assert (Hcols : DataTable.getColumns this db' = Return []).
  { unfold DataTable.getColumns, TableColumn.getByTable, stmt_all.
    now rewrite Hc, scan_nil. }
  assert (Hrows : DataTable.getRows this db' = []).
  { unfold DataTable.getRows, TableRow.getByTable, stmt_all. now rewrite Hr, scan_nil. }
  split; [exact Hcols|]. split; [exact Hrows|].
  unfold DataTable.getData. now rewrite Hcols, Hrows.
Qed.

Lemma deleted_table_reads_empty_witness :
  let db := run [create_table "T" 1; add_column 1 "A" None JUndefined 2;
                 add_row 1 None 3; set_cell 1 1 (number 7) 4] in
  let this := DataTable.mk 1 "T" 1 in
  has_table db (DataTable.id this) = true
  /\ DataTable.getData this db
     = Return [literal [("_rowId", number 1); ("_position", number 0); ("A", number 7)]]
  /\ DataTable.getData this (DataTable.delete this db) = Return [].
Proof.
  intros db this. split; [reflexivity|]. split; [reflexivity|].
  exact (proj2 (proj2 (deleted_table_reads_empty (E:=rowid_order) db this eq_refl))).
Defined.

(** **** Ids and what they name *)

Ltac exec_cases c :=
  destruct c; simpl;
  unfold TableColumn.create, TableRow.create, CellData.set, insert_columns, insert_rows,
    upsert_cells, delete_tables;
  repeat match goal with
         | |- context [match ?x with _ => _ end] =>
             lazymatch x with
             | context [match _ with _ => _ end] => fail
             | _ => destruct x eqn:?; simpl
             end
         end.

Ltac old_or_new :=
  intros H;
  try (now left);
  try (apply in_app_or in H; destruct H as [H|[<-|[]]]; [now left | now right]);
  try (apply filter_In in H; now left).

Lemma exec_tables_step (db : Database) (c : Call) (t : tables_rec) :
  In t (tables (exec db c)) -> In t (tables db) \/ tables_id t = tables_seq db + 1.
Proof. exec_cases c; old_or_new. Qed.

Lemma exec_columns_step (db : Database) (c : Call) (x : columns_rec) :
  In x (columns (exec db c)) -> In x (columns db) \/ columns_id x = columns_seq db + 1.
Proof. exec_cases c; old_or_new. Qed.

Lemma exec_rows_step (db : Database) (c : Call) (r : rows_rec) :
  In r (rows (exec db c)) -> In r (rows db) \/ rows_id r = rows_seq db + 1.
Proof. exec_cases c; old_or_new. Qed.

Lemma exec_seq_monotone (db : Database) (c : Call) :
  tables_seq db <= tables_seq (exec db c)
  /\ columns_seq db <= columns_seq (exec db c)
  /\ rows_seq db <= rows_seq (exec db c)
  /\ cells_seq db <= cells_seq (exec db c).
Proof. exec_cases c; lia. Qed.

Lemma run_app (history later : list Call) :
  run (history ++ later) = fold_left exec later (run history).
Proof. unfold run. apply fold_left_app. Qed.

(** Whatever a later store holds under an id that an earlier store had
    handed out is held by the earlier store too. *)
Lemma old_ids_are_old (later : list Call) (db : Database) :
  consistent db ->
  let db' := fold_left exec later db in
  tables_seq db <= tables_seq db' /\ columns_seq db <= columns_seq db'
  /\ rows_seq db <= rows_seq db'
  /\ (forall t, In t (tables db') -> tables_id t <= tables_seq db -> In t (tables db))
  /\ (forall x, In x (columns db') -> columns_id x <= columns_seq db -> In x (columns db))
  /\ (forall r, In r (rows db') -> rows_id r <= rows_seq db -> In r (rows db)).
Proof.
  intros Hok. induction later as [|c later IH] using rev_ind; simpl.
  - repeat split; auto; lia.
  - rewrite fold_left_app. simpl. set (mid := fold_left exec later db) in *.
    destruct IH as (St & Sc & Sr & Ht & Hc & Hr).
    destruct (exec_seq_monotone mid c) as (Mt & Mc & Mr & _).
    split; [lia|]. split; [lia|]. split; [lia|]. split; [|split].
    + intros t Hin Hle. apply exec_tables_step in Hin. destruct Hin as [Hin|Hnew];
        [now apply Ht | lia].
    + intros x Hin Hle. apply exec_columns_step in Hin. destruct Hin as [Hin|Hnew];
        [now apply Hc | lia].
    + intros r Hin Hle. apply exec_rows_step in Hin. destruct Hin as [Hin|Hnew];
        [now apply Hr | lia].
Qed.

Lemma In_le_seq (A : Type) (id : A -> Z) (rel : list A) (seq : Z) (x : A) :
  primary_key id rel seq -> In x rel -> id x <= seq.
Proof. intros [_ H] Hin. rewrite Forall_forall in H. now apply H. Qed.

(** X6.  A table, a column and a row never change once created: whatever
    a later store holds under the id of an entity of an earlier store is
    that entity, with the same name, type, options text, position and
    time stamp. *)
Theorem entities_are_immutable (history later : list Call) :
  let before := run history in
  let after := run (history ++ later) in
  (forall t t', In t (tables before) -> In t' (tables after) ->
                tables_id t' = tables_id t -> t' = t)
  /\ (forall c c', In c (columns before) -> In c' (columns after) ->
                   columns_id c' = columns_id c -> c' = c)
  /\ (forall r r', In r (rows before) -> In r' (rows after) ->
                   rows_id r' = rows_id r -> r' = r).
Proof.
  intros before after. pose proof (consistent_run history) as Hok. fold before in Hok.
  destruct (old_ids_are_old later before Hok) as (_ & _ & _ & Ht & Hc & Hr).
  unfold after. rewrite run_app. fold before.
  split; [|split].
  - intros t t' Hin Hin' Hid.
    apply (key_inj _ _ tables_id (tables before)); auto.
    + eapply primary_key_NoDup, (tables_key before Hok).
    + apply Ht; [exact Hin'|]. rewrite Hid.
      eapply In_le_seq; [apply (tables_key before Hok) | exact Hin].
  - intros c c' Hin Hin' Hid.
    apply (key_inj _ _ columns_id (columns before)); auto.
    + eapply primary_key_NoDup, (columns_key before Hok).
    + apply Hc; [exact Hin'|]. rewrite Hid.
      eapply In_le_seq; [apply (columns_key before Hok) | exact Hin].
  - intros r r' Hin Hin' Hid.
    apply (key_inj _ _ rows_id (rows before)); auto.
    + eapply primary_key_NoDup, (rows_key before Hok).
    + apply Hr; [exact Hin'|]. rewrite Hid.
      eapply In_le_seq; [apply (rows_key before Hok) | exact Hin].
Qed.

(** X7.  An id is handed out once: the table, column or row that a
    creation returns, however many calls later, has an id greater than
    that of every table, column or row an earlier store held, also of
    those that were deleted since. *)
Theorem ids_are_never_reused (history later : list Call) :
  let before := run history in
  let db := run (history ++ later) in
  (forall t0 name now,
      In t0 (tables before) ->
      tables_id t0 < DataTable.id (fst (DataTable.create db name now)))
  /\ (forall c0 tableId name type options now col db',
        In c0 (columns before) ->
        TableColumn.create db tableId name type options now = (Return col, db') ->
        columns_id c0 < TableColumn.id col)
  /\ (forall r0 tableId position now row db',
        In r0 (rows before) ->
        TableRow.create db tableId position now = (Return row, db') ->
        rows_id r0 < TableRow.id row).
Proof.
  intros before db. pose proof (consistent_run history) as Hok. fold before in Hok.
  destruct (old_ids_are_old later before Hok) as (St & Sc & Sr & _).
  unfold db. rewrite run_app. fold before.
  set (now_db := fold_left exec later before) in *.
  split; [|split].
  - intros t0 name now Hin. simpl.
    pose proof (In_le_seq _ _ _ _ _ (tables_key before Hok) Hin). lia.
  - intros c0 tableId name type options now col db' Hin.
    unfold TableColumn.create. rewrite stringify_default_options. unfold insert_columns.
    destruct (has_table now_db tableId); [|discriminate]. intros [= <- _]. simpl.
    pose proof (In_le_seq _ _ _ _ _ (columns_key before Hok) Hin). lia.
  - intros r0 tableId position now row db' Hin.
    unfold TableRow.create, insert_rows.
    destruct (has_table now_db tableId); [|discriminate]. intros [= <- _]. simpl.
    pose proof (In_le_seq _ _ _ _ _ (rows_key before Hok) Hin). lia.
Qed.

(** **** Creating and finding again *)

Lemma filter_true (A : Type) (l : list A) : filter (fun _ => true) l = l.
Proof. induction l as [|x l IH]; simpl; [reflexivity | now rewrite IH]. Qed.

Lemma filter_fresh_id (A : Type) (id : A -> Z) (rel : list A) (seq : Z) :
  primary_key id rel seq -> filter (fun x => id x =? seq + 1) rel = [].
Proof.
  intros Hk. apply filter_none. intros x Hx. apply Z.eqb_neq.
  pose proof (In_le_seq _ _ _ _ _ Hk Hx). lia.
Qed.

Lemma snoc_Permutation {E : Engine} (A : Type) (l : list A) (x : A) :
  Permutation (scan (l ++ [x])) (x :: scan l).
Proof.
  rewrite scan_Permutation, <- Permutation_cons_append.
  constructor. symmetry. apply scan_Permutation.
Qed.

(** X8.  [DataTable.create] returns a table under an id that named
    nothing before; [get] on that id then returns the same table, [get]
    on every other id answers as before, and [getAll] lists the new table
    beside the tables it listed before.  Names are not checked, so a
    name may repeat. *)
Theorem table_create_then_get {E : Engine} (history : list Call) (name : string) (now : Z) :
  let db := run history in
  let t := fst (DataTable.create db name now) in
  let db' := snd (DataTable.create db name now) in
  DataTable.get db (DataTable.id t) = None
  /\ DataTable.get db' (DataTable.id t) = Some t
  /\ DataTable.name t = name
  /\ (forall id0, id0 <> DataTable.id t -> DataTable.get db' id0 = DataTable.get db id0)
  /\ Permutation (DataTable.getAll db') (t :: DataTable.getAll db).
Proof.
  intros db t db'. pose proof (tables_key db (consistent_run history)) as Hk.
  pose proof (filter_fresh_id _ _ _ _ Hk) as Hfresh.
  simpl in t, db'. subst t db'. simpl. split; [|split; [|split; [|split]]].
  - unfold DataTable.get, stmt_get, stmt_all. now rewrite Hfresh, scan_nil.
  - unfold DataTable.get. simpl.
    rewrite (stmt_get_one _ _ _ (mk_tables (tables_seq db + 1) name now)); [reflexivity|].
    rewrite filter_app, Hfresh. simpl. now rewrite Z.eqb_refl.
  - reflexivity.
  - intros id0 Hne. unfold DataTable.get, stmt_get, stmt_all. simpl.
    rewrite filter_app. simpl.
    assert (Hn : (tables_seq db + 1 =? id0) = false) by (apply Z.eqb_neq; congruence).
    now rewrite Hn, app_nil_r.
  - unfold DataTable.getAll, stmt_all. simpl. rewrite !filter_true.
    change (DataTable.mk (tables_seq db + 1) name now)
      with (DataTable.of_data (mk_tables (tables_seq db + 1) name now)).
    rewrite <- map_cons. apply Permutation_map, snoc_Permutation.
Qed.

Lemma map_outcome_app (A B : Type) (f : A -> Outcome B) (l l' : list A) (ys ys' : list B) :
  map_outcome f l = Return ys -> map_outcome f l' = Return ys' ->
  map_outcome f (l ++ l') = Return (ys ++ ys')%list.
Proof.
  revert ys. induction l as [|x l IH]; intros ys Hl Hl'; simpl in *.
  - injection Hl as <-. exact Hl'.
  - destruct (f x) as [y|e]; [|discriminate]. simpl in *.
    destruct (map_outcome f l) as [ys0|e]; [|discriminate]. simpl in *.
    injection Hl as <-. now rewrite (IH ys0 eq_refl Hl').
Qed.

(** X9.  [TableColumn.create] on a table of the store returns a column
    under a new id that carries the arguments as given, with [text] for
    an omitted type and an empty object for omitted options.  [get] on
    the id then returns the column with its options as they read back
    from their JSON text, which is the same column when the options are
    made of null, booleans, integers, strings, arrays and objects; and
    [getByTable], walking by rowid, lists it after the columns the table
    had. *)
Theorem column_create_then_get {E : Engine} (history : list Call) (tableId : Z)
    (name : string) (type : option string) (options : JsValue) (now : Z) :
  let db := run history in
  has_table db tableId = true ->
  exists col db',
    TableColumn.create db tableId name type options now = (Return col, db')
    /\ col = TableColumn.mk (TableColumn.id col) tableId name (TableColumn.default_type type)
               (TableColumn.default_options options) now
    /\ TableColumn.get db (TableColumn.id col) = Return None
    /\ TableColumn.get db' (TableColumn.id col)
       = Return (Some (TableColumn.mk (TableColumn.id col) tableId name
                         (TableColumn.default_type type)
                         (revive (TableColumn.default_options options)) now))
    /\ (plain (TableColumn.default_options options) = true ->
        TableColumn.get db' (TableColumn.id col) = Return (Some col))
    /\ exists cols read,
         TableColumn.getByTable (E:=rowid_order) db tableId = Return cols
         /\ TableColumn.get db' (TableColumn.id col) = Return (Some read)
         /\ TableColumn.getByTable (E:=rowid_order) db' tableId = Return (cols ++ [read])%list.
Proof.
  intros db Hhas. pose proof (consistent_run history) as Hok. fold db in Hok.
  pose proof (filter_fresh_id _ _ _ _ (columns_key db Hok)) as Hfresh.
  set (opts := TableColumn.default_options options).
  set (ty := TableColumn.default_type type).
  set (c := mk_columns (columns_seq db + 1) tableId name ty
              (Some (SerializeJSON opts)) now).
  assert (Hof : TableColumn.of_data c
                = Return (TableColumn.mk (columns_seq db + 1) tableId name ty (revive opts) now)).
  { unfold TableColumn.of_data, c. cbn [columns_options]. unfold opts.
    rewrite (parse_or_stringify _ _ _ (stringify_default_options options)). reflexivity. }
  unfold TableColumn.create. rewrite stringify_default_options. unfold insert_columns.
  rewrite Hhas. fold opts ty c. eexists. eexists. split; [reflexivity|]. simpl.
  assert (Hget : TableColumn.get
                   (mk_Database (tables db) (tables_seq db) (columns db ++ [c])
                      (columns_seq db + 1) (rows db) (rows_seq db) (cells db) (cells_seq db))
                   (columns_seq db + 1)
                 = Return (Some (TableColumn.mk (columns_seq db + 1) tableId name ty
                                   (revive opts) now))).
  { unfold TableColumn.get. simpl. rewrite (stmt_get_one _ _ _ c).
    - rewrite Hof. reflexivity.
    - rewrite filter_app, Hfresh. simpl. now rewrite Z.eqb_refl. }
  split; [reflexivity|]. split; [|split; [exact Hget|split]].
  - unfold TableColumn.get, stmt_get, stmt_all. now rewrite Hfresh, scan_nil.
  - intros Hp. rewrite Hget. now rewrite (revive_plain _ Hp).
  - destruct (getByTable_total (E:=rowid_order) db tableId Hok) as (cols & Hcols & _).
    exists cols. eexists. split; [exact Hcols|]. split; [exact Hget|].
    unfold TableColumn.getByTable, stmt_all in *. simpl in *.
    rewrite filter_app. simpl. rewrite Z.eqb_refl.
    apply map_outcome_app; [exact Hcols|]. simpl. rewrite Hof. reflexivity.
Qed.

Lemma column_create_then_get_witness :
  let db := run [create_table "T" 1; add_column 1 "A" None JUndefined 2] in
  has_table db 1 = true
  /\ exists col db',
       TableColumn.create db 1 "Owner" (Some "reference")
         (JObject [("referenceTableId", number 1)]) 3 = (Return col, db')
       /\ TableColumn.get db' (TableColumn.id col) = Return (Some col).
Proof.
  intros db. split; [reflexivity|].
  destruct (column_create_then_get (E:=rowid_order)
              [create_table "T" 1; add_column 1 "A" None JUndefined 2] 1 "Owner"
              (Some "reference") (JObject [("referenceTableId", number 1)]) 3 eq_refl)
    as (col & db' & Hc & _ & _ & _ & Hp & _).
  exists col, db'. split; [exact Hc | now apply Hp].
Defined.

(** X10.  [TableRow.create] on a table of the store returns a row under a
    new id, at the position given when one is given; [get] on the id then
    returns the same row, the table counts one row more, and
    [getByTable] lists the new row among the rows it listed before. *)
Theorem row_create_then_get {E : Engine} (history : list Call) (tableId : Z)
    (position : option Z) (now : Z) :
  let db := run history in
  has_table db tableId = true ->
  exists row db',
    TableRow.create db tableId position now = (Return row, db')
    /\ TableRow.tableId row = tableId
    /\ (forall p, position = Some p -> TableRow.position row = p)
    /\ TableRow.get db (TableRow.id row) = None
    /\ TableRow.get db' (TableRow.id row) = Some row
    /\ TableRow.count db' tableId = TableRow.count db tableId + 1
    /\ Permutation (TableRow.getByTable db' tableId) (row :: TableRow.getByTable db tableId).
Proof.
  intros db Hhas. pose proof (consistent_run history) as Hok. fold db in Hok.
  pose proof (filter_fresh_id _ _ _ _ (rows_key db Hok)) as Hfresh.
  unfold TableRow.create.
  set (p := match position with Some p => p | None => TableRow.count db tableId end).
  rewrite (has_table_insert_rows db tableId p now Hhas).
  eexists. eexists. split; [reflexivity|]. simpl.
  split; [reflexivity|]. split; [intros q Hq; subst p; now rewrite Hq|].
  split; [|split; [|split]].
  - unfold TableRow.get, stmt_get, stmt_all. now rewrite Hfresh, scan_nil.
  - unfold TableRow.get. simpl.
    rewrite (stmt_get_one _ _ _ (mk_rows (rows_seq db + 1) tableId p now)); [reflexivity|].
    rewrite filter_app, Hfresh. simpl. now rewrite Z.eqb_refl.
  - unfold TableRow.count. simpl. rewrite filter_app, length_app. simpl.
    rewrite Z.eqb_refl. simpl. lia.
  - unfold TableRow.getByTable, stmt_all. simpl. rewrite filter_app. simpl.
    rewrite Z.eqb_refl.
    change (TableRow.mk (rows_seq db + 1) tableId p now)
      with (TableRow.of_data (mk_rows (rows_seq db + 1) tableId p now)).
    rewrite <- map_cons. apply Permutation_map.
    rewrite !order_by_position_Permutation. apply snoc_Permutation.
Qed.

Lemma row_create_then_get_witness :
  let db := run [create_table "T" 1; add_row 1 None 2] in
  has_table db 1 = true
  /\ exists row db',
       TableRow.create db 1 (Some (-3)) 3 = (Return row, db')
       /\ TableRow.position row = -3
       /\ TableRow.get db' (TableRow.id row) = Some row.
Proof.
  intros db. split; [reflexivity|].
  destruct (row_create_then_get (E:=rowid_order) [create_table "T" 1; add_row 1 None 2]
              1 (Some (-3)) 3 eq_refl)
    as (row & db' & Hc & _ & Hp & _ & Hg & _).
  exists row, db'. split; [exact Hc|]. split; [now apply Hp | exact Hg].
Defined.

(** **** All the cells of a row *)

Lemma Forall2_in_l (A B : Type) (R : A -> B -> Prop) (l : list A) (l' : list B) (x : A) :
  Forall2 R l l' -> In x l -> exists y, In y l' /\ R x y.
Proof.
  induction 1 as [|x' y l l' Hxy Hl IH]; intros Hin; [destruct Hin|].
  destruct Hin as [->|Hin]; [exists y; split; [now left | exact Hxy]|].
  destruct (IH Hin) as (y' & Hy' & HR). exists y'. split; [now right | exact HR].
Qed.

Lemma cell_of_data_fields (x : cells_rec) (cell : CellData.t) :
  CellData.of_data x = Return cell ->
  CellData.rowId cell = cells_row_id x /\ CellData.columnId cell = cells_column_id x.
Proof.
  unfold CellData.of_data. destruct (parse_or _ _); simpl; [|discriminate].
  intros [= <-]. split; reflexivity.
Qed.

Lemma row_columns_NoDup (l : list cells_rec) (r : Z) :
  unique_cells l ->
  NoDup (map cells_column_id (filter (fun x => cells_row_id x =? r) l)).
Proof.
  intros Hu. apply (NoDup_map_filter _ _ cell_key (fun x => cells_row_id x =? r)) in Hu.
  apply (NoDup_map_inv (fun c : Z => (r, c))). rewrite map_map.
  erewrite map_ext_in; [exact Hu|].
  intros x Hx. apply filter_In in Hx. destruct Hx as [_ Hx]. apply Z.eqb_eq in Hx.
  unfold cell_key. now rewrite Hx.
Qed.

(** X11.  [getAllCells] on a row returns, each once, exactly the cells
    that [getCell] finds for that row: a cell is in the result if and
    only if [getCell] on its column id returns it, and no two cells of
    the result have the same column id. *)
Theorem getAllCells_lists_the_row {E : Engine} (history : list Call) (this : TableRow.t) :
  let db := run history in
  exists all,
    TableRow.getAllCells this db = Return all
    /\ NoDup (map CellData.columnId all)
    /\ forall cell,
         In cell all
         <-> TableRow.getCell this db (CellData.columnId cell) = Return (Some cell).
Proof.
  intros db. pose proof (consistent_run history) as Hok. fold db in Hok.
  set (r := TableRow.id this).
  set (data := stmt_all (fun x => cells_row_id x =? r) (cells db)).
  assert (Hw : Forall (fun x => exists cell, CellData.of_data x = Return cell) data).
  { apply Forall_forall. intros x Hx. apply stmt_all_In in Hx. destruct Hx as [Hx _].
    pose proof (cells_written db Hok) as Hcw. rewrite Forall_forall in Hcw.
    now apply cell_of_data_total, Hcw. }
  destruct (map_outcome_total _ _ _ _ Hw) as (all & Hall & Hrel).
  assert (Hone : forall x, In x data ->
             stmt_get (same_cell r (cells_column_id x)) (cells db) = Some x).
  { intros x Hx. apply stmt_all_In in Hx. destruct Hx as [Hin Hr]. apply Z.eqb_eq in Hr.
    apply stmt_get_one.
    eapply filter_key; [intros y; apply same_cell_key | apply (cells_unique db Hok)
                       | exact Hin | unfold cell_key; now rewrite Hr]. }
  exists all. split; [exact Hall|]. split.
  - assert (Hmap : map CellData.columnId all = map cells_column_id data).
    { symmetry. apply Forall2_map_eq. eapply Forall2_impl; [|exact Hrel].
      intros x cell Hx. symmetry. now apply cell_of_data_fields. }
    rewrite Hmap. eapply Permutation_NoDup.
    + symmetry. apply Permutation_map. apply scan_Permutation.
    + apply row_columns_NoDup. apply (cells_unique db Hok).
  - intros cell. unfold TableRow.getCell, CellData.get. fold r. split.
    + intros Hin. destruct (Forall2_in_r _ _ _ _ _ _ Hrel Hin) as (x & Hx & Hof).
      destruct (cell_of_data_fields x cell Hof) as [_ Hc].
      rewrite Hc, (Hone x Hx), Hof. reflexivity.
    + intros Hget.
      destruct (stmt_get (same_cell r (CellData.columnId cell)) (cells db)) as [x|] eqn:Hg;
        [|discriminate].
      destruct (CellData.of_data x) as [cell'|e] eqn:Hof; [|discriminate].
      simpl in Hget. injection Hget as ->.
      apply stmt_get_some in Hg. destruct Hg as [Hin Hs].
      assert (Hx : In x data).
      { apply stmt_all_In. split; [exact Hin|].
        apply same_cell_key in Hs. injection Hs as Hr _. now apply Z.eqb_eq. }
      destruct (Forall2_in_l _ _ _ _ _ _ Hrel Hx) as (cell' & Hin' & Hof').
      rewrite Hof in Hof'. injection Hof' as <-. exact Hin'.
Qed.

(** **** What is read is plain *)

Lemma written_reads_plain (fallback : JsValue) (text : option string) (v : JsValue) :
  plain fallback = true -> written text -> parse_or fallback text = Return v ->
  plain v = true.
Proof.
  intros Hf [->|[v0 Hv0]] Hp.
  - simpl in Hp. now injection Hp as <-.
  - destruct text as [s|]; [|simpl in Hp; now injection Hp as <-].
    rewrite (parse_or_stringify fallback v0 s Hv0) in Hp. injection Hp as <-.
    apply plain_revive.
Qed.

(** X12.  Whatever a history stored, the value of a cell that [getCell]
    returns is made of null, booleans, strings, finite numbers other than
    the negative zero, arrays, and objects that list their properties in
    JavaScript's order, so it holds no [undefined] and no NaN or
    infinity; written again with [setCell], on any row and column of the
    store, it reads back as the same value. *)
Theorem read_values_are_plain {E : Engine} (history : list Call) (rowId columnId : Z)
    (cell : CellData.t) :
  let db := run history in
  CellData.get db rowId columnId = Return (Some cell) ->
  plain (CellData.value cell) = true
  /\ forall row columnId' now,
       has_row db (TableRow.id row) = true -> has_column db columnId' = true ->
       exists copy db',
         TableRow.setCell row db columnId' (CellData.value cell) now = (Return copy, db')
         /\ CellData.value copy = CellData.value cell
         /\ TableRow.getCell row db' columnId' = Return (Some copy).
Proof.
  intros db Hget. pose proof (consistent_run history) as Hok. fold db in Hok.
  assert (Hp : plain (CellData.value cell) = true).
  { unfold CellData.get in Hget.
    destruct (stmt_get (same_cell rowId columnId) (cells db)) as [x|] eqn:Hg; [|discriminate].
    apply stmt_get_some in Hg. destruct Hg as [Hin _].
    pose proof (cells_written db Hok) as Hw. rewrite Forall_forall in Hw.
    unfold CellData.of_data in Hget.
    destruct (parse_or JNull (cells_value x)) as [v|e] eqn:Hv; [|discriminate].
    simpl in Hget. injection Hget as <-. simpl.
    apply (written_reads_plain JNull (cells_value x) v eq_refl (Hw x Hin) Hv). }
  split; [exact Hp|]. intros row columnId' now Hrow Hcol.
  assert (Hpre : existsb (same_cell (TableRow.id row) columnId') (cells db) = true
                 \/ has_row db (TableRow.id row) && has_column db columnId' = true)
    by (right; now rewrite Hrow, Hcol).
  destruct (set_spec db (TableRow.id row) columnId' (CellData.value cell) now Hok Hpre)
    as (id & db' & Hset & _ & _ & Hget' & _).
  rewrite (revive_plain _ Hp) in Hset, Hget'.
  eexists. exists db'. split; [exact Hset|]. split; [reflexivity | exact Hget'].
Qed.

Lemma read_values_are_plain_witness :
  let history := [create_table "T" 1; add_column 1 "A" None JUndefined 2;
                  add_row 1 None 3;
                  set_cell 1 1 (JArray [JNumber NaN; JUndefined; number 1;
                                        JNumber (of_decimal false 15 (-1));
                                        JNumber (of_decimal true 0 0);
                                        JObject [("b", JNull); ("1", JNull)]]) 4] in
  let db := run history in
  let cell := CellData.mk 1 1 1 (JArray [JNull; JNull; number 1;
                                         JNumber (of_decimal false 15 (-1)); number 0;
                                         JObject [("1", JNull); ("b", JNull)]]) 4 in
  CellData.get db 1 1 = Return (Some cell)
  /\ plain (CellData.value cell) = true.
Proof.
  intros history db cell.
  assert (Hget : CellData.get (E:=rowid_order) db 1 1 = Return (Some cell))
    by (vm_compute; reflexivity).
  split; [exact Hget|].
  exact (proj1 (read_values_are_plain (E:=rowid_order) history 1 1 cell Hget)).
Defined.

(** **** Rows that were only ever appended *)

Lemma exec_rows_of_table (db : Database) (c : Call) (T : Z) :
  (forall p now, c <> add_row T (Some p) now) ->
  let stored := filter (fun r => rows_table_id r =? T) (rows db) in
  let stored' := filter (fun r => rows_table_id r =? T) (rows (exec db c)) in
  stored' = stored
  \/ stored' = []
  \/ exists id now,
       stored' = (stored ++ [mk_rows id T (Z.of_nat (List.length stored)) now])%list.
Proof.
  intros Hc. destruct c as [name now|tableId name type options now|tableId position now
                           |rowId columnId value now|tableId]; simpl.
  - now left.
  - left. unfold TableColumn.create. rewrite stringify_default_options.
    unfold insert_columns. destruct (has_table db tableId); reflexivity.
  - unfold TableRow.create, insert_rows.
    destruct (has_table db tableId); [|now left]. simpl. rewrite filter_app. simpl.
    destruct (tableId =? T) eqn:Ht; [|left; apply app_nil_r].
    apply Z.eqb_eq in Ht. subst tableId.
    destruct position as [p|]; [exfalso; now apply (Hc p now)|].
    right. right. exists (rows_seq db + 1), now. unfold TableRow.count. reflexivity.
  - left. now rewrite (proj1 (proj2 (proj2 (set_frame db rowId columnId value now)))).
  - unfold delete_tables. destruct (has_table db tableId); [|now left]. simpl.
    destruct (tableId =? T) eqn:Ht.
    + right. left. apply Z.eqb_eq in Ht. subst tableId.
      apply filter_none. intros r Hr. apply filter_In in Hr. destruct Hr as [_ Hr].
      now apply negb_true_iff in Hr.
    + left. apply filter_filter_sub. intros r _ Hr. apply Z.eqb_eq in Hr.
      apply negb_true_iff. now rewrite Hr, Z.eqb_sym.
Qed.

Lemma order_by_position_sorted_id (l : list rows_rec) :
  StronglySorted by_position l -> order_by_position l = l.
Proof.
  induction 1 as [|r l Hl IH Hr]; [reflexivity|].
  simpl. rewrite IH. destruct l as [|r' l]; [reflexivity|].
  simpl. apply Forall_inv in Hr. unfold by_position in Hr.
  apply Z.leb_le in Hr. now rewrite Hr.
Qed.

Lemma numbered_sorted (l : list rows_rec) (k : nat) :
  map rows_position l = map Z.of_nat (seq k (List.length l)) ->
  StronglySorted by_position l.
Proof.
  revert k. induction l as [|r l IH]; intros k H; [constructor|].
  simpl in H. injection H as Hr Hl. constructor; [now apply (IH (S k))|].
  apply Forall_forall. intros r' Hr'. unfold by_position. rewrite Hr.
  assert (Hin : In (rows_position r') (map Z.of_nat (seq (S k) (List.length l))))
    by (rewrite <- Hl; now apply in_map).
  apply in_map_iff in Hin. destruct Hin as (n & <- & Hn). apply in_seq in Hn. lia.
Qed.

(** X13.  While every row of a table is added without a position, the
    positions of its rows are 0, 1, 2, ... in the order of their
    creation, whatever else the history does; [getRows], walking by
    rowid, then returns the rows in the order of their creation. *)
Theorem appended_rows_are_numbered (history : list Call) (tableId : Z) :
  (forall p now, ~ In (add_row tableId (Some p) now) history) ->
  let db := run history in
  let stored := filter (fun r => rows_table_id r =? tableId) (rows db) in
  map rows_position stored = map Z.of_nat (seq 0 (List.length stored))
  /\ TableRow.getByTable (E:=rowid_order) db tableId = map TableRow.of_data stored.
Proof.
  intros Hh db stored.
  assert (Hpos : map rows_position stored = map Z.of_nat (seq 0 (List.length stored))).
  { subst stored db. induction history as [|c history IH] using rev_ind; [reflexivity|].
    rewrite run_app. simpl.
    assert (Hh' : forall p now, ~ In (add_row tableId (Some p) now) history).
    { intros p now Hin. apply (Hh p now). apply in_or_app. now left. }
    specialize (IH Hh').
    assert (Hc : forall p now, c <> add_row tableId (Some p) now).
    { intros p now ->. apply (Hh p now). apply in_or_app. right. now left. }
    destruct (exec_rows_of_table (run history) c tableId Hc) as [->|[->|(id & now & ->)]].
    - exact IH.
    - reflexivity.
    - rewrite map_app, length_app, IH. simpl. rewrite Nat.add_1_r, seq_S, map_app.
      reflexivity. }
  split; [exact Hpos|].
  unfold TableRow.getByTable, stmt_all. simpl. fold stored.
  now rewrite (order_by_position_sorted_id stored (numbered_sorted stored 0 Hpos)).
Qed.

Lemma appended_rows_are_numbered_witness :
  let history := [create_table "T" 1; create_table "U" 2; add_row 1 None 3;
                  add_row 2 (Some 9) 4; add_row 1 None 5; add_row 1 None 6] in
  (forall p now, ~ In (add_row 1 (Some p) now) history)
  /\ map TableRow.position (TableRow.getByTable (E:=rowid_order) (run history) 1) = [0; 1; 2].
Proof.
  intros history.
  assert (H : forall p now, ~ In (add_row 1 (Some p) now) history).
  { intros p now Hin. simpl in Hin.
    repeat (destruct Hin as [Hin|Hin]; [discriminate Hin|]). exact Hin. }
  split; [exact H|].
  rewrite (proj2 (appended_rows_are_numbered history 1 H)). reflexivity.
Defined.

(** **** A written cell in the projection *)

(** X15.  After [setCell(columnId, v)] on a row of the table and a column
    of it whose name is not [__proto__] and is not the name of a column
    that [getColumns()] lists after it, the row's record in [getData()]
    holds under the column's name the value [v] as it reads back from its
    JSON text, and [getRows()] lists the rows it listed before. *)
Theorem setCell_shows_in_getData {E : Engine} (history : list Call) (this : DataTable.t)
    (row : TableRow.t) (l1 l2 : list TableColumn.t) (col : TableColumn.t)
    (v : JsValue) (now : Z) :
  let db := run history in
  In row (DataTable.getRows this db) ->
  DataTable.getColumns this db = Return (l1 ++ col :: l2)%list ->
  TableColumn.name col <> "__proto__" ->
  Forall (fun c' => TableColumn.name c' <> TableColumn.name col) l2 ->
  exists cell db',
    TableRow.setCell row db (TableColumn.id col) v now = (Return cell, db')
    /\ DataTable.getRows this db' = DataTable.getRows this db
    /\ exists data,
         DataTable.getData this db' = Return data
         /\ Forall2 (fun row' rec =>
                       TableRow.id row' = TableRow.id row ->
                       obj_get (own rec) (TableColumn.name col) = Some (revive v))
              (DataTable.getRows this db') data.
Proof.
  intros db Hrow Hcols Hname Hl2.
  pose proof (consistent_run history) as Hok. fold db in Hok.
  assert (Hpre : existsb (same_cell (TableRow.id row) (TableColumn.id col)) (cells db) = true
                 \/ has_row db (TableRow.id row) && has_column db (TableColumn.id col) = true).
  { right. rewrite (getRows_has_row db this row Hrow).
    rewrite (getColumns_has_column db this _ col Hok Hcols); [reflexivity|].
    apply in_or_app. right. now left. }
  destruct (set_spec db (TableRow.id row) (TableColumn.id col) v now Hok Hpre)
    as (id & db' & Hset & Hok' & _ & Hget & _ & _ & _ & Hc & Hr).
  eexists. exists db'. split; [exact Hset|].
  assert (Hrows' : DataTable.getRows this db' = DataTable.getRows this db)
    by (unfold DataTable.getRows, TableRow.getByTable; now rewrite Hr).
  assert (Hcols' : DataTable.getColumns this db' = Return (l1 ++ col :: l2)%list)
    by (unfold DataTable.getColumns, TableColumn.getByTable in *; now rewrite Hc).
  split; [exact Hrows'|].
  exact (projection_of_pair db' this (TableRow.id row) l1 l2 col _
           Hok' Hcols' Hname Hl2 Hget).
Qed.

Lemma setCell_shows_in_getData_witness :
  let history := [create_table "Users" 1; add_column 1 "Name" None JUndefined 2;
                  add_column 1 "Age" None JUndefined 3; add_row 1 None 4] in
  let db := run history in
  let this := DataTable.mk 1 "Users" 1 in
  let row := TableRow.mk 1 1 0 4 in
  let col := TableColumn.mk 2 1 "Age" "text" (JObject []) 3 in
  let l1 := [TableColumn.mk 1 1 "Name" "text" (JObject []) 2] in
  (In row (DataTable.getRows this db)
   /\ DataTable.getColumns this db = Return (l1 ++ col :: [])%list
   /\ TableColumn.name col <> "__proto__"
   /\ Forall (fun c' => TableColumn.name c' <> TableColumn.name col) [])
  /\ exists cell db' data,
       TableRow.setCell row db (TableColumn.id col) (number 30) 5 = (Return cell, db')
       /\ DataTable.getData this db' = Return data.
Proof.
  intros history db this row col l1.
  assert (H1 : In row (DataTable.getRows this db)) by (now left).
  assert (H2 : DataTable.getColumns this db = Return (l1 ++ col :: [])%list) by reflexivity.
  assert (H3 : TableColumn.name col <> "__proto__") by discriminate.
  assert (H4 : Forall (fun c' => TableColumn.name c' <> TableColumn.name col) [])
    by constructor.
  split; [auto|].
  destruct (setCell_shows_in_getData (E:=rowid_order) history this row l1 [] col
              (number 30) 5 H1 H2 H3 H4) as (cell & db' & Hset & _ & data & Hd & _).
  exists cell, db', data. auto.
Defined.

(** **** The grid of [printTable] *)

Section Grid.
Import Console.

Lemma length_join (sep : text) (parts : list text) :
  List.length (join sep parts)
  = joined_length (List.length sep) (map (@List.length Z) parts).
Proof.
  induction parts as [|p parts IH]; [reflexivity|].
  destruct parts as [|q parts]; [reflexivity|].
  change (join sep (p :: q :: parts)) with (p ++ sep ++ join sep (q :: parts))%list.
  rewrite !length_app, IH. cbn [map joined_length]. lia.
Qed.

Lemma length_repeat_text (c : Z) (n : nat) : List.length (repeat_text [c] n) = n.
Proof.
  unfold repeat_text. induction n as [|n IH]; simpl; [reflexivity | now rewrite IH].
Qed.

Lemma length_units (s : string) : List.length (units s) = String.length s.
Proof.
  unfold units. rewrite length_map.
  induction s as [|c s IH]; simpl; [reflexivity | now rewrite IH].
Qed.

Lemma length_pad (cell : JsValue) (w : nat) :
  (String.length (ToString cell) <= w)%nat ->
  List.length (DataTable.pad cell (Some w)) = w.
Proof.
  intros H. unfold DataTable.pad. rewrite length_app, length_units, length_repeat_text. lia.
Qed.

Lemma bars_lengths (widths : list nat) (c : Z) :
  map (@List.length Z) (DataTable.bars widths c) = map (fun w => w + 2)%nat widths.
Proof.
  unfold DataTable.bars. rewrite map_map. apply map_ext. intros w.
  apply length_repeat_text.
Qed.

(** A row whose cells fit their columns is as long as the lines that
    frame it. *)
Lemma row_parts_lengths (pre ws : list nat) (cells : list JsValue) :
  Forall2 (fun cell w => (String.length (ToString cell) <= w)%nat) cells ws ->
  map (@List.length Z)
      (map_index (fun cell i => [space] ++ DataTable.pad cell (nth_error (pre ++ ws) i)
                                        ++ [space])%list
                 cells (List.length pre))
  = map (fun w => w + 2)%nat ws.
Proof.
  intros H. revert pre. induction H as [|cell w cells ws Hw Hall IH]; intros pre;
    [reflexivity|].
  simpl. f_equal.
  - rewrite nth_error_app2 by lia. rewrite Nat.sub_diag. simpl.
    rewrite length_app, length_pad by exact Hw. simpl. lia.
  - specialize (IH (pre ++ [w])%list). rewrite <- app_assoc, length_app in IH. simpl in IH.
    rewrite Nat.add_1_r in IH. exact IH.
Qed.

Lemma length_row (widths : list nat) (cells : list JsValue) :
  Forall2 (fun cell w => (String.length (ToString cell) <= w)%nat) cells widths ->
  List.length (DataTable.row widths cells) = DataTable.grid_width widths.
Proof.
  intros H. unfold DataTable.row, DataTable.grid_width.
  rewrite !length_app, length_join.
  assert (Hparts :
            map (@List.length Z)
                (map_index (fun cell i => [space] ++ DataTable.pad cell (nth_error widths i)
                                                  ++ [space])%list cells 0)
            = map (fun w => w + 2)%nat widths)
    by exact (row_parts_lengths [] widths cells H).
  rewrite Hparts. simpl. lia.
Qed.

Lemma length_frame (widths : list nat) :
  List.length (DataTable.topLine widths) = DataTable.grid_width widths
  /\ List.length (DataTable.bottomLine widths) = DataTable.grid_width widths
  /\ forall char cross, List.length (DataTable.line widths char cross) = DataTable.grid_width widths.
Proof.
  unfold DataTable.topLine, DataTable.bottomLine, DataTable.line, DataTable.grid_width.
  repeat split; intros; rewrite !length_app, length_join, bars_lengths; simpl; lia.
Qed.

Lemma max_of_ge (l : list nat) (n : nat) : In n l -> (n <= max_of l)%nat.
Proof.
  induction l as [|m l IH]; intros Hin; [destruct Hin|].
  simpl. destruct Hin as [->|Hin]; [lia|]. specialize (IH Hin). lia.
Qed.

(** Every column is at least as wide as each of its cells. *)
Lemma cells_fit (data : list (list JsValue)) (rowData : list JsValue) :
  In rowData data ->
  forall (names : list string) (k : nat) (cells : list JsValue),
    List.length cells = List.length names ->
    (forall j cell, nth_error cells j = Some cell -> nth (k + j) rowData JUndefined = cell) ->
    Forall2 (fun cell w => (String.length (ToString cell) <= w)%nat) cells
            (map_index (DataTable.column_width data) names k).
Proof.
  intros Hin. induction names as [|name names IH]; intros k cells Hlen Hnth.
  - destruct cells; [constructor | discriminate Hlen].
  - destruct cells as [|cell cells]; [discriminate Hlen|]. simpl. constructor.
    + unfold DataTable.column_width.
      assert (Hc : nth k rowData JUndefined = cell)
        by (rewrite <- (Nat.add_0_r k); now apply Hnth).
      assert (Hm : (String.length (ToString cell)
                    <= max_of (map (fun r => String.length (ToString (nth k r JUndefined)))
                                   data))%nat).
      { apply max_of_ge. apply in_map_iff. exists rowData. now rewrite Hc. }
      lia.
    + apply IH; [simpl in Hlen; lia|]. intros j c Hj.
      replace (S k + j)%nat with (k + S j)%nat by lia. now apply (Hnth (S j)).
Qed.

Lemma names_fit (data : list (list JsValue)) (names : list string) (k : nat) :
  Forall2 (fun cell w => (String.length (ToString cell) <= w)%nat) (map JString names)
          (map_index (DataTable.column_width data) names k).
Proof.
  revert k. induction names as [|name names IH]; intros k; simpl; constructor; [|apply IH].
  unfold DataTable.column_width. simpl. lia.
Qed.

Lemma blanks_fit (ws : list nat) :
  Forall2 (fun cell w => (String.length (ToString cell) <= w)%nat)
          (map (fun _ => JString "") ws) ws.
Proof. induction ws as [|w ws IH]; simpl; constructor; [simpl; lia | exact IH]. Qed.

Lemma length_map_index (A B : Type) (f : A -> nat -> B) (l : list A) (k : nat) :
  List.length (map_index f l k) = List.length l.
Proof. revert k. induction l as [|x l IH]; intros k; simpl; [reflexivity | now rewrite IH]. Qed.

End Grid.

Lemma widths_from_three (data : list (list JsValue)) (names : list string) (k : nat) :
  Forall (fun w => (3 <= w)%nat) (Console.map_index (DataTable.column_width data) names k).
Proof.
  revert k. induction names as [|n ns IH]; intros k; simpl; constructor; [|apply IH].
  unfold DataTable.column_width. lia.
Qed.

Lemma print_cells_from {E : Engine} (db : Database) (r : TableRow.t) :
  consistent db ->
  forall (cols : list TableColumn.t) (acc : list JsValue),
  exists rowData,
    for_of cols
      (fun rowData col =>
         cell <- CellData.get db (TableRow.id r) (TableColumn.id col) ;;
         Return (rowData ++ [DataTable.display (DataTable.value_or_null cell)])%list)
      acc = Return rowData
    /\ List.length rowData = (List.length acc + List.length cols)%nat.
Proof.
  intros Hok. induction cols as [|col cols IH]; intros acc.
  - exists acc. simpl. split; [reflexivity | lia].
  - destruct (cell_get_total db (TableRow.id r) (TableColumn.id col) Hok) as [cell Hcell].
    simpl. rewrite Hcell. simpl.
    destruct (IH (acc ++ [DataTable.display (DataTable.value_or_null cell)])%list)
      as (rowData & Hr & Hlen).
    exists rowData. split; [exact Hr|]. rewrite Hlen, length_app. simpl. lia.
Qed.

(** X14.  [printTable] on a table without columns logs the one line that
    says so.  Otherwise it logs a title, a grid and a count of rows: the
    grid is the top line, the header, the separator, one line per row of
    [getRows] (a blank row when there is none) and the bottom line, and
    all of them have the same length, one more than the sum over the
    columns (the position column first) of the width plus three, where
    no width is below three. *)
Theorem printTable_grid_is_aligned {E : Engine} (history : list Call) (this : DataTable.t) :
  let db := run history in
  let rows := DataTable.getRows this db in
  exists cols,
    DataTable.getColumns this db = Return cols
    /\ match cols with
       | [] =>
           DataTable.printTable this db
           = Return [Console.units ("Table " ++ String JSON.dquote (DataTable.name this)
                                    ++ String JSON.dquote " has no columns.")]
       | _ :: _ =>
           exists title widths grid,
             DataTable.printTable this db
             = Return (title :: grid
                         ++ [Console.units
                               (JSON.Number_toString (Z.of_nat (List.length rows))
                                ++ " row(s)" ++ Console.newline)])%list
             /\ List.length widths = S (List.length cols)
             /\ Forall (fun w => (3 <= w)%nat) widths
             /\ List.length grid = (4 + Nat.max 1 (List.length rows))%nat
             /\ Forall (fun l => List.length l = DataTable.grid_width widths) grid
       end.
Proof.
  intros db rows. pose proof (consistent_run history) as Hok. fold db in Hok.
  destruct (getByTable_total db (DataTable.id this) Hok) as (cols & Hcols & _).
  exists cols. split; [exact Hcols|].
  destruct cols as [|col cols].
  { unfold DataTable.printTable, DataTable.getColumns. rewrite Hcols. reflexivity. }
  set (columns := col :: cols) in *.
  assert (Hrows : Forall (fun r => exists rowData,
                            DataTable.print_cells db columns r = Return rowData) rows).
  { apply Forall_forall. intros r _.
    destruct (print_cells_from db r Hok columns [number (TableRow.position r)])
      as (rowData & Hr & _). now exists rowData. }
  destruct (map_outcome_total _ _ _ _ Hrows) as (data & Hdata & Hall).
  assert (Hlens : forall rowData, In rowData data ->
             List.length rowData = S (List.length columns)).
  { intros rowData Hin. destruct (Forall2_in_r _ _ _ _ _ _ Hall Hin) as (r & _ & Hr).
    destruct (print_cells_from db r Hok columns [number (TableRow.position r)])
      as (rowData' & Hr' & Hlen).
    unfold DataTable.print_cells in Hr. rewrite Hr' in Hr. injection Hr as <-.
    exact Hlen. }
  set (colNames := "_row" :: map TableColumn.name columns).
  set (widths := Console.map_index (DataTable.column_width data) colNames 0).
  assert (Hw : List.length widths = S (List.length columns)).
  { unfold widths. rewrite length_map_index. unfold colNames. simpl. now rewrite length_map. }
  set (body := match data with
               | [] => [DataTable.row widths (map (fun _ => JString "") widths)]
               | _ :: _ => map (DataTable.row widths) data
               end).
  destruct (length_frame widths) as (Htop & Hbottom & Hline).
  assert (Hlines : Forall (fun l => List.length l = DataTable.grid_width widths)
                     (map (DataTable.row widths) data)).
  { apply Forall_forall. intros l Hl. apply in_map_iff in Hl.
    destruct Hl as (rowData & <- & Hin). apply length_row.
    apply (cells_fit data rowData Hin colNames 0 rowData).
    - rewrite (Hlens rowData Hin). unfold colNames. simpl. now rewrite length_map.
    - intros j cell Hj. simpl. now apply nth_error_nth. }
  assert (Hbody : Forall (fun l => List.length l = DataTable.grid_width widths) body
                  /\ List.length body = Nat.max 1 (List.length data)).
  { unfold body. clear body Hall Hdata Hlens. destruct data as [|d data'].
    - split; [|reflexivity]. constructor; [|constructor].
      apply length_row, blanks_fit.
    - split; [exact Hlines|]. rewrite length_map. simpl. lia. }
  destruct Hbody as [Hfit Hcount].
  exists (Console.units (Console.newline ++ "Table: " ++ DataTable.name this ++ " (ID: "
                         ++ JSON.Number_toString (DataTable.id this) ++ ")")),
         widths,
         ([DataTable.topLine widths; DataTable.row widths (map JString colNames);
           DataTable.line widths 9552 9578] ++ body ++ [DataTable.bottomLine widths])%list.
  split; [|split; [exact Hw|split; [|split]]].
  - unfold DataTable.printTable, DataTable.getColumns. rewrite Hcols.
    cbn [bind]. fold columns. fold rows. rewrite Hdata. cbn [bind].
    fold colNames. fold widths. fold body.
    rewrite <- (Forall2_length Hall). f_equal. f_equal. simpl.
    rewrite <- !app_assoc. reflexivity.
  - apply widths_from_three.
  - rewrite !length_app, Hcount. rewrite <- (Forall2_length Hall). simpl. lia.
  - constructor; [exact Htop|]. constructor; [apply length_row, names_fit|].
    constructor; [apply Hline|]. apply Forall_app. split; [exact Hfit|].
    constructor; [exact Hbottom | constructor].
Qed.

End Extras.
